(** * clash_bot: the resumable extraction pipeline, embedded and verified

    A shallow embedding of the scraping scripts of the repository
    ([scrape_no_restart.py], [scrape.py], [multiwindow.py], [notScrape.py])
    together with the properties their specification states about them.

    Conventions of the embedding:
    - a Python [int] is a [Z]; [//] on a non-zero divisor is [Z.div];
    - a Python [str] is a [string], each [ascii] read as one code point
      below 256;
    - a Python [list] is a [list]; slices and indexing follow Python's
      rules for negative and out-of-range positions;
    - a value that may be [None] is an [option];
    - a call that may raise returns a [result], and [try]/[except] is a
      match on it;
    - files, the terminal and the remote source are explicit state.

    Part I holds the definitions: one module for the Python built-ins the
    scripts call, one module per source file, one for the notions the
    specification uses in its own words, one for sample inputs.  Part II
    holds the theorems, a section per component. *)

From Stdlib Require Import List String Ascii ZArith QArith Bool Arith Lia.
From Stdlib Require Import Sorted Permutation Qpower DecimalString.
Import ListNotations.

Local Open Scope string_scope.
Local Open Scope Z_scope.

(* ================================================================== *)
(** * Part I. Definitions *)
(* ================================================================== *)

(** ** Python built-ins used by the scripts *)

Module Py.

(** Exceptions the modelled code can raise.  [ValueError] carries what the
    message is formatted from, so that a caller (and a theorem) can tell
    which check raised it. *)
Inductive value_error : Type :=
| InvalidLiteral (s : string)                       (* int("x") *)
| NotInList                                         (* list.index *)
| LengthMismatch (replay_tag : string) (cards placements : nat)
| TimeMismatch (replay_tag : string) (i : nat) (card_time placement_time : option string)
| MalformedJSON                                     (* resp.json() *)
| OtherValueError (msg : string).

Inductive request_error : Type :=
| ConnectionFailure                                 (* ConnectionError, Timeout, ... *)
| HTTPError (status_code : Z).

Inductive exn : Type :=
| AssertionError
| ZeroDivisionError
| TypeError
| AttributeError
| IndexError
| OverflowError
| ValueError (v : value_error)
| RequestException (r : request_error)
| RuntimeError (msg : string).

Inductive result (A : Type) : Type :=
| Ok (a : A)
| Raise (e : exn).
Arguments Ok {A} a.
Arguments Raise {A} e.

Definition bind {A B} (m : result A) (k : A -> result B) : result B :=
  match m with
  | Ok a => k a
  | Raise e => Raise e
  end.

Notation "x <- m ;; k" := (bind m (fun x => k))
  (at level 61, m at next level, right associativity).

(** [len(l)] *)
Definition len {A} (l : list A) : Z := Z.of_nat (List.length l).

(** A slice bound, as Python normalises it for a sequence of length [n]:
    a negative bound counts from the end, and both are clamped to
    [0 .. n]. *)
Definition clamp (n k : Z) : Z :=
  if k <? 0 then Z.max 0 (n + k) else Z.min k n.

(** [l[start:stop]], a missing bound being [None]. *)
Definition slice {A} (l : list A) (start stop : option Z) : list A :=
  let n := len l in
  let a := match start with Some a => clamp n a | None => 0 end in
  let b := match stop with Some b => clamp n b | None => n end in
  firstn (Z.to_nat (b - a)) (skipn (Z.to_nat a) l).

(** [l[i]]: [IndexError] outside [-len(l) .. len(l)-1]. *)
Definition getitem {A} (l : list A) (i : Z) : result A :=
  let j := if i <? 0 then len l + i else i in
  if j <? 0 then Raise IndexError
  else match nth_error l (Z.to_nat j) with
       | Some a => Ok a
       | None => Raise IndexError
       end.

(** [l.index(x)]: the first position of [x], [ValueError] when absent. *)
Fixpoint index (x : string) (l : list string) : result Z :=
  match l with
  | [] => Raise (ValueError NotInList)
  | y :: l' =>
      if String.eqb y x then Ok 0
      else i <- index x l' ;; Ok (i + 1)
  end.

(** Truth value of a string: empty is false. *)
Definition truthy (s : string) : bool :=
  match s with
  | EmptyString => false
  | String _ _ => true
  end.

(** [str.isspace] on one code point below 256. *)
Definition isspace (c : ascii) : bool :=
  let n := nat_of_ascii c in
  ((9 <=? n) && (n <=? 13) || (28 <=? n) && (n <=? 32)
   || (n =? 133) || (n =? 160))%nat.

Fixpoint lstrip (s : string) : string :=
  match s with
  | EmptyString => EmptyString
  | String c s' => if isspace c then lstrip s' else s
  end.

(** What [rstrip] keeps of [c :: s]: nothing when all of it is white. *)
Fixpoint rstrip (s : string) : string :=
  match s with
  | EmptyString => EmptyString
  | String c s' =>
      match rstrip s' with
      | EmptyString => if isspace c then EmptyString else String c EmptyString
      | r => String c r
      end
  end.

(** [s.strip()] *)
Definition strip (s : string) : string := rstrip (lstrip s).

(** [s.split(sep)] for a non-empty [sep] (a literal at every call site;
    Python raises [ValueError] on an empty one): the pieces between the
    occurrences of [sep] found from left to right, without overlap.
    [skip] counts the characters of a found occurrence still to pass,
    [cur] is the piece being read. *)
Fixpoint split_from (sep : string) (skip : nat) (cur s : string) : list string :=
  match s with
  | EmptyString => [cur]
  | String c s' =>
      match skip with
      | S k => split_from sep k cur s'
      | O =>
          if prefix sep s
          then cur :: split_from sep (String.length sep - 1) EmptyString s'
          else split_from sep 0 (cur ++ String c EmptyString) s'
      end
  end.

Definition split (sep s : string) : list string := split_from sep 0 EmptyString s.

(** The white space [int()] skips around a literal.  Of the code points
    below 256 these are tab to carriage return and the space, and, above
    127, NEL and the no-break space; the separators U+001C to U+001F,
    which [str.strip] removes, are no white space to [int()]. *)
Definition isspace_int (c : ascii) : bool :=
  let n := nat_of_ascii c in
  ((9 <=? n) && (n <=? 13) || (n =? 32) || (n =? 133) || (n =? 160))%nat.

Fixpoint lstrip_int (s : string) : string :=
  match s with
  | EmptyString => EmptyString
  | String c s' => if isspace_int c then lstrip_int s' else s
  end.

Fixpoint rstrip_int (s : string) : string :=
  match s with
  | EmptyString => EmptyString
  | String c s' =>
      match rstrip_int s' with
      | EmptyString => if isspace_int c then EmptyString else String c EmptyString
      | r => String c r
      end
  end.

(** [int(s)] on a string: surrounding white space is dropped, one sign is
    allowed, then decimal digits, single underscores allowed between
    digits.  [None] stands for [ValueError]. *)
Definition digit_of (c : ascii) : option Z :=
  let n := nat_of_ascii c in
  if ((48 <=? n) && (n <=? 57))%nat then Some (Z.of_nat n - 48) else None.

Fixpoint digits (after_digit : bool) (acc : Z) (s : string) : option Z :=
  match s with
  | EmptyString => if after_digit then Some acc else None
  | String c s' =>
      match digit_of c with
      | Some d => digits true (10 * acc + d) s'
      | None =>
          if (Ascii.eqb c "_" && after_digit)%bool then digits false acc s'
          else None
      end
  end.

Definition int_literal (s : string) : option Z :=
  match rstrip_int (lstrip_int s) with
  | String "-" r => option_map Z.opp (digits false 0 r)
  | String "+" r => digits false 0 r
  | r => digits false 0 r
  end.

(** [int(v)] where [v] may be [None]: [TypeError] on [None],
    [ValueError] on a string that is no literal. *)
Definition int (v : option string) : result Z :=
  match v with
  | None => Raise TypeError
  | Some s =>
      match int_literal s with
      | Some z => Ok z
      | None => Raise (ValueError (InvalidLiteral s))
      end
  end.

(** [sorted(l, key=...)] with the keys already computed: the sort is
    stable, so an element goes in front of the first one whose key is not
    smaller than its own only when it came first. *)
Fixpoint insert_by_key {A} (k : Z) (a : A) (l : list (Z * A)) : list (Z * A) :=
  match l with
  | [] => [(k, a)]
  | (k', a') :: l' =>
      if k <=? k' then (k, a) :: l
      else (k', a') :: insert_by_key k a l'
  end.

Fixpoint sort_keyed {A} (l : list (Z * A)) : list (Z * A) :=
  match l with
  | [] => []
  | (k, a) :: l' => insert_by_key k a (sort_keyed l')
  end.

(** The keys of all elements, in order; the first failing call raises. *)
Fixpoint keyed {A} (key : A -> result Z) (l : list A) : result (list (Z * A)) :=
  match l with
  | [] => Ok []
  | a :: l' =>
      k <- key a ;;
      r <- keyed key l' ;;
      Ok ((k, a) :: r)
  end.

Definition sorted {A} (key : A -> result Z) (l : list A) : result (list A) :=
  kl <- keyed key l ;; Ok (map snd (sort_keyed kl)).

(** [range(n)] *)
Definition range (n : Z) : list Z := map Z.of_nat (seq 0 (Z.to_nat n)).

(** A [dict] with string keys, in insertion order. *)
Definition dict (V : Type) : Type := list (string * V).

(** [d[k]] as [d.get(k)]: [None] when the key is absent. *)
Fixpoint dict_get {V} (k : string) (d : dict V) : option V :=
  match d with
  | [] => None
  | (k', v) :: d' => if String.eqb k' k then Some v else dict_get k d'
  end.

(** [d[k] = v]: a present key keeps its place, a new one goes last. *)
Fixpoint dict_set {V} (k : string) (v : V) (d : dict V) : dict V :=
  match d with
  | [] => [(k, v)]
  | (k', v') :: d' =>
      if String.eqb k' k then (k, v) :: d' else (k', v') :: dict_set k v d'
  end.

(** [d.update(other)]: the items of [other] are set one after the other. *)
Definition dict_update {V} (d other : dict V) : dict V :=
  fold_left (fun acc kv => dict_set (fst kv) (snd kv) acc) other d.

(** [range(start, stop, step)]: [ValueError] on a zero step. *)
Definition range3 (start stop step : Z) : result (list Z) :=
  if step =? 0
  then Raise (ValueError (OtherValueError "range() arg 3 must not be zero"))
  else
    let count :=
      if 0 <? step then (stop - start + step - 1) / step
      else (start - stop - step - 1) / (- step) in
    Ok (map (fun k => start + Z.of_nat k * step) (seq 0 (Z.to_nat count))).

(** [a % b]: the sign of the result is the divisor's;
    [ZeroDivisionError] on a zero divisor. *)
Definition mod_ (a b : Z) : result Z :=
  if b =? 0 then Raise ZeroDivisionError else Ok (a mod b).

(** [l[i] = v] *)
Definition setitem {A} (l : list A) (i : Z) (v : A) : result (list A) :=
  let j := if i <? 0 then len l + i else i in
  if (j <? 0) || (len l <=? j) then Raise IndexError
  else Ok (firstn (Z.to_nat j) l ++ v :: skipn (S (Z.to_nat j)) l)%list.

(** [sub in s] *)
Fixpoint contains (sub s : string) : bool :=
  match s with
  | EmptyString => prefix sub s
  | String _ s' => prefix sub s || contains sub s'
  end.

(** What is left of [s] behind its prefix [p], [None] when [s] does not
    start with [p]. *)
Fixpoint remove_prefix (p s : string) : option string :=
  match p, s with
  | EmptyString, _ => Some s
  | String a p', String b s' => if Ascii.eqb a b then remove_prefix p' s' else None
  | String _ _, EmptyString => None
  end.

(** [str(i)] for a natural number. *)
Definition str_nat (i : nat) : string :=
  NilEmpty.string_of_uint (Nat.to_uint i).

End Py.

(** ** scrape_no_restart.py *)

Module ScrapeNoRestart.
Import Py.

Definition MAX_WORKERS : Z := 5.
Definition BATCH_SIZE : Z := 100.

(** *** parse_replay_html *)

(** What the two selectors hand over: the attributes read from each
    [img.replay_card] and from each [div.markers > div], in document
    order.  [tag.get] yields [None] for a missing attribute. *)
Record img : Type := Img {
  data_card : option string;
  src : option string;
  data_s : option string;
  img_data_t : option string;
  data_ability : option string
}.

Record marker : Type := Marker {
  data_x : option string;
  data_y : option string;
  marker_data_t : option string
}.

Record card_event : Type := CardEvent {
  ce_card_name : option string;
  ce_image_src : option string;
  ce_side : option string;
  ce_time : option string;
  ce_isAbility : option string
}.

Record placement_event : Type := PlacementEvent {
  pe_x : option string;
  pe_y : option string;
  pe_time : option string
}.

(** One merged record (the keys of [row]). *)
Record row : Type := Row {
  replay_tag : string;
  side : option string;
  time : option string;
  isAbility : option string;
  card_name : option string;
  x : option string;
  y : option string
}.

Definition card_event_of (i : img) : card_event :=
  CardEvent (data_card i) (src i) (data_s i) (img_data_t i) (data_ability i).

Definition placement_event_of (d : marker) : placement_event :=
  PlacementEvent (data_x d) (data_y d) (marker_data_t d).

(** [a == b] on values that are a string or [None]. *)
Definition eq_value (a b : option string) : bool :=
  match a, b with
  | Some s, Some t => String.eqb s t
  | None, None => true
  | _, _ => false
  end.

(** ["ability-" + image_src.split("ability-")[-1].split(".png")[0]] *)
Definition ability_name (image_src : option string) : result string :=
  match image_src with
  | None => Raise AttributeError
  | Some s =>
      after_marker <- getitem (split "ability-" s) (-1) ;;
      token <- getitem (split ".png" after_marker) 0 ;;
      Ok ("ability-" ++ token)
  end.

(** The body of the [for i in range(len(card_events))] loop once [ce]
    and [pe] are read: the time check, then the row. *)
Definition merge_events (tag : string) (i : Z) (ce : card_event)
    (pe : placement_event) : result row :=
  if negb (eq_value (ce_time ce) (pe_time pe))
  then Raise (ValueError (TimeMismatch tag (Z.to_nat i) (ce_time ce) (pe_time pe)))
  else
    if eq_value (ce_isAbility ce) (Some "1")
    then
      name <- ability_name (ce_image_src ce) ;;
      Ok (Row tag (ce_side ce) (ce_time ce) (ce_isAbility ce) (Some name) None None)
    else
      Ok (Row tag (ce_side ce) (ce_time ce) (ce_isAbility ce)
            (ce_card_name ce) (pe_x pe) (pe_y pe)).

Definition merge_at (tag : string) (card_events : list card_event)
    (placement_events : list placement_event) (i : Z) : result row :=
  ce <- getitem card_events i ;;
  pe <- getitem placement_events i ;;
  merge_events tag i ce pe.

(** A [for] loop that appends one value per index and stops at the first
    exception. *)
Fixpoint for_each {A} (body : Z -> result A) (indices : list Z) : result (list A) :=
  match indices with
  | [] => Ok []
  | i :: rest =>
      a <- body i ;;
      r <- for_each body rest ;;
      Ok (a :: r)
  end.

(** Lines 84-121: the pairing of the two extracted sequences. *)
Definition reconcile (card_events : list card_event)
    (placement_events : list placement_event) (tag : string) : result (list row) :=
  if negb (len card_events =? len placement_events)
  then Raise (ValueError (LengthMismatch tag (List.length card_events)
                                            (List.length placement_events)))
  else for_each (merge_at tag card_events placement_events)
                (range (len card_events)).

Definition parse_replay_html (imgs : list img) (divs : list marker)
    (tag : string) : result (list row) :=
  let card_events := map card_event_of imgs in
  card_events <- sorted (fun e => int (ce_time e)) card_events ;;
  let placement_events := map placement_event_of divs in
  reconcile card_events placement_events tag.

(** *** split_tags *)

Definition split_tags {A} (WORKER_ID TOTAL_WORKERS : Z) (replay_tags : list A)
  : result (list A) :=
  if negb ((0 <=? WORKER_ID) && (WORKER_ID <? TOTAL_WORKERS))
  then Raise AssertionError
  else
    let total_tags := len replay_tags in
    let seg_length := total_tags / TOTAL_WORKERS in
    let start_idx := WORKER_ID * seg_length in
    if WORKER_ID =? TOTAL_WORKERS - 1
    then Ok (slice replay_tags (Some start_idx) None)
    else Ok (slice replay_tags (Some start_idx) (Some (start_idx + seg_length))).

(** *** reach_current *)

Definition LF : ascii := "010"%char.
Definition CR : ascii := "013"%char.

(** Iterating over a file opened in text mode: one string per line, its
    line end ([\n], [\r\n] or [\r]) read as [\n] and kept; a last line
    without line end is yielded as it is. *)
Fixpoint lines_from (cur s : string) : list string :=
  match s with
  | EmptyString => if truthy cur then [cur] else []
  | String c s' =>
      if Ascii.eqb c LF then (cur ++ String LF EmptyString) :: lines_from EmptyString s'
      else if Ascii.eqb c CR then
        match s' with
        | String c' s'' =>
            if Ascii.eqb c' LF
            then (cur ++ String LF EmptyString) :: lines_from EmptyString s''
            else (cur ++ String LF EmptyString) :: lines_from EmptyString s'
        | EmptyString => [cur ++ String LF EmptyString]
        end
      else lines_from (cur ++ String c EmptyString) s'
  end.

Definition file_lines (content : string) : list string := lines_from EmptyString content.

(** The inner [tail]: the last line of the file, [None] if it has none. *)
Definition tail (content : string) : option string :=
  fold_left (fun _ line => Some line) (file_lines content) None.

(** [output_csv] is the text of [OUTPUT_CSV], [None] when
    [os.path.exists] says no. *)
Definition reach_current (output_csv : option string) (replay_tags : list string)
  : result (list string) :=
  match output_csv with
  | Some content =>
      match tail content with
      | Some last_line =>
          if truthy last_line then
            first_field <- getitem (split "," last_line) 0 ;;
            let final_id := strip first_field in
            match index final_id replay_tags with
            | Ok idx => Ok (slice replay_tags (Some (idx + 1)) None)
            | Raise (ValueError _) => Ok replay_tags
            | Raise e => Raise e
            end
          else Ok replay_tags
      | None => Ok replay_tags
      end
  | None => Ok replay_tags
  end.

(** *** fetch_replay_with_page *)

(** A frame is the list of its rows ([pd.DataFrame(events)]). *)
Definition frame : Type := list row.

(** What one navigation to the replay URL yields: [page.goto] may raise
    (a timeout, a closed page); otherwise the body text, absent or not
    JSON or a JSON object with its [success] flag and its [html] field,
    the latter read through the two selectors ([None] when the field is
    missing or empty). *)
Inductive body : Type :=
| NoBody
| NotJSON
| JSON (success : bool) (html : option (list img * list marker)).

Inductive page_response : Type :=
| GotoRaised (e : exn)
| Loaded (b : body).

Definition fetch_replay_with_page (r : page_response) (tag : string) : result frame :=
  match r with
  | GotoRaised e => Raise e
  | Loaded NoBody => Raise (ValueError (OtherValueError "No body text"))
  | Loaded NotJSON => Raise (ValueError (OtherValueError "Failed to decode JSON"))
  | Loaded (JSON false _) =>
      Raise (ValueError (OtherValueError "Replay API returned success=false"))
  | Loaded (JSON true None) => Raise (ValueError (OtherValueError "No 'html' field in JSON"))
  | Loaded (JSON true (Some (imgs, divs))) => parse_replay_html imgs divs tag
  end.

(** *** worker_task *)

(** Lines printed by a worker (and by [fetch_replay_with_page] on its
    behalf), with the values they are formatted from. *)
Inductive printed : Type :=
| WorkerStarting (name : Z)
| ReceivedSentinel (name : Z)
| Scraped (tag : string) (events : Z)
| Failed (name : Z) (tag : string) (e : exn)
| Progress (name overall_done total_tags batch_done batch_size : Z)
| Recreating (name : Z)
| FullyShutDown (name : Z).

(** A line of [OUTPUT_CSV] as [to_csv] writes it: the header (the names
    of the seven columns), the empty line that is the header of a frame
    without columns, or the record of a row. *)
Inductive csv_line : Type :=
| Header
| EmptyLine
| Record_ (r : row).

(** What the workers of one batch share: the queue (its items and its
    count of unfinished tasks, which [queue.join] waits on), the results,
    the two progress counters; and beside them the terminal and the one
    file the script writes, [OUTPUT_CSV] ([None] while it does not
    exist). *)
Record shared : Type := Shared {
  queue : list (option string);
  unfinished_tasks : Z;
  results : dict frame;
  batch_completed : Z;
  overall_completed : Z;
  stdout : list printed;
  disk : option (list csv_line)
}.

(** Where a worker stands: awaiting its first context and page (lines
    211-212, before the [try]), about to [await queue.get()], awaiting
    the fetch of a tag, awaiting the new context and page after ten tags
    (lines 249-255), returned, or ended by an exception that left
    [worker_task]. *)
Inductive worker : Type :=
| Creating
| AtGet (local_count : Z)
| Fetching (local_count : Z) (tag : string)
| Renewing
| Returned
| Crashed (e : exn).

Definition print (lines : list printed) (s : shared) : shared :=
  Shared (queue s) (unfinished_tasks s) (results s) (batch_completed s)
         (overall_completed s) (stdout s ++ lines)%list (disk s).

(** [queue.task_done()]: [ValueError] when no task is unfinished. *)
Definition task_done (s : shared) : result shared :=
  if unfinished_tasks s <=? 0
  then Raise (ValueError (OtherValueError "task_done() called too many times"))
  else Ok (Shared (queue s) (unfinished_tasks s - 1) (results s) (batch_completed s)
                  (overall_completed s) (stdout s) (disk s)).

(** Lines 211-212 have ended with [outcome]: the worker enters its loop,
    or the exception leaves [worker_task] (no [try] is entered yet, so
    nothing is printed). *)
Definition created (outcome : result unit) : worker :=
  match outcome with
  | Ok _ => AtGet 0
  | Raise e => Crashed e
  end.

(** [tag = await queue.get()] returned [item]: the sentinel ends the
    loop (the [finally] block closes page and context, whatever that
    comes to, and prints), a tag starts a fetch. *)
Definition got (name local_count : Z) (item : option string) (s : shared)
  : worker * shared :=
  match item with
  | None =>
      match task_done s with
      | Ok s1 => (Returned, print [ReceivedSentinel name; FullyShutDown name] s1)
      | Raise e => (Crashed e, print [FullyShutDown name] s)
      end
  | Some tag => (Fetching local_count tag, s)
  end.

(** The rest of the loop body once the fetch of [tag] has ended with
    [outcome]: the [try]/[except], the counters, the progress line (which
    divides by [total_tags]), [task_done], and after ten tags the start
    of the recreation of context and page.  An exception here is outside
    the inner [try]: it passes the [finally] block and leaves
    [worker_task]. *)
Definition fetched (name local_count : Z) (tag : string) (outcome : result frame)
    (batch_size total_tags : Z) (s : shared) : worker * shared :=
  let '(results1, stdout1) :=
    match outcome with
    | Ok df => (dict_set tag df (results s), (stdout s ++ [Scraped tag (len df)])%list)
    | Raise e => (results s, (stdout s ++ [Failed name tag e])%list)
    end in
  let batch_done := batch_completed s + 1 in
  let overall_done := overall_completed s + 1 in
  let s1 := Shared (queue s) (unfinished_tasks s) results1 batch_done overall_done
                   stdout1 (disk s) in
  if total_tags =? 0
  then (Crashed ZeroDivisionError, print [FullyShutDown name] s1)
  else
    let s2 := print [Progress name overall_done total_tags batch_done batch_size] s1 in
    let local_count := local_count + 1 in
    match task_done s2 with
    | Raise e => (Crashed e, print [FullyShutDown name] s2)
    | Ok s3 =>
        if 10 <=? local_count
        then (Renewing, print [Recreating name] s3)
        else (AtGet local_count, s3)
    end.

(** Lines 249-255 have ended with [outcome]: the worker is back at
    [queue.get] with a count of zero, or the exception passes the
    [finally] block and leaves [worker_task]. *)
Definition renewed (name : Z) (outcome : result unit) (s : shared) : worker * shared :=
  match outcome with
  | Ok _ => (AtGet 0, s)
  | Raise e => (Crashed e, print [FullyShutDown name] s)
  end.

Definition set_queue (q : list (option string)) (s : shared) : shared :=
  Shared q (unfinished_tasks s) (results s) (batch_completed s)
         (overall_completed s) (stdout s) (disk s).

(** One scheduling step of the event loop: some worker is resumed, with
    the outcome of the making of its context and page, with the item at
    the head of the queue, or with the end of its fetch, whatever the
    browser and the remote source answered.  A worker at [queue.get] is
    resumed only when the queue holds an item; a worker that has returned
    or that an exception has ended is never resumed.  The worker's name
    is its position in the pool. *)
Inductive step (batch_size total_tags : Z)
  : shared * list worker -> shared * list worker -> Prop :=
| step_created s before after outcome :
    step batch_size total_tags
      (s, (before ++ Creating :: after)%list)
      (s, (before ++ created outcome :: after)%list)
| step_get s before local_count after item q :
    queue s = item :: q ->
    step batch_size total_tags
      (s, (before ++ AtGet local_count :: after)%list)
      (snd (got (len before) local_count item (set_queue q s)),
       (before ++ fst (got (len before) local_count item (set_queue q s)) :: after)%list)
| step_fetched s before local_count tag after response :
    step batch_size total_tags
      (s, (before ++ Fetching local_count tag :: after)%list)
      (snd (fetched (len before) local_count tag
              (fetch_replay_with_page response tag) batch_size total_tags s),
       (before ++ fst (fetched (len before) local_count tag
              (fetch_replay_with_page response tag) batch_size total_tags s) :: after)%list)
| step_renewed s before after outcome :
    step batch_size total_tags
      (s, (before ++ Renewing :: after)%list)
      (snd (renewed (len before) outcome s),
       (before ++ fst (renewed (len before) outcome s) :: after)%list).

(** The state [main] sets up for a batch: the tags, then one sentinel per
    worker, and [workers] workers, each of which has printed its first
    line and awaits its context and page. *)
Definition start_batch (batch_tags : list string) (workers : Z)
    (overall_done : Z) (out : list printed) (d : option (list csv_line))
  : shared * list worker :=
  let sentinels := repeat (@None string) (Z.to_nat workers) in
  (Shared (map Some batch_tags ++ sentinels)%list
          (len batch_tags + len sentinels) [] 0 overall_done
          (out ++ map WorkerStarting (range workers))%list d,
   repeat Creating (Z.to_nat workers)).

(** [n] scheduling steps in a row. *)
Inductive run (batch_size total_tags : Z)
  : nat -> shared * list worker -> shared * list worker -> Prop :=
| run_done st : run batch_size total_tags 0 st st
| run_step n st st' st'' :
    step batch_size total_tags st st' ->
    run batch_size total_tags n st' st'' ->
    run batch_size total_tags (S n) st st''.

Definition is_creating (w : worker) : bool :=
  match w with Creating => true | _ => false end.

Definition is_fetching (w : worker) : bool :=
  match w with Fetching _ _ => true | _ => false end.

Definition is_renewing (w : worker) : bool :=
  match w with Renewing => true | _ => false end.

Definition has_returned (w : worker) : bool :=
  match w with Returned => true | _ => false end.

Definition has_crashed (w : worker) : bool :=
  match w with Crashed _ => true | _ => false end.

(** The workers still running (neither returned nor ended by an
    exception), those an exception has ended, and those awaiting a
    fetch. *)
Definition alive (ws : list worker) : nat :=
  List.length (filter (fun w => negb (has_returned w || has_crashed w)) ws).

Definition crashed (ws : list worker) : nat :=
  List.length (filter has_crashed ws).

Definition fetching (ws : list worker) : nat :=
  List.length (filter is_fetching ws).

(** The sentinels in a queue. *)
Definition sentinels (q : list (option string)) : nat :=
  List.length (filter (fun item => match item with None => true | Some _ => false end) q).

(** The work a state still holds: three steps for each queued item (its
    [get], the end of its fetch, and the recreation that may follow,
    counted generously for a sentinel), two for each fetch under way, one
    for each context and page being made. *)
Definition work_left (st : shared * list worker) : nat :=
  3 * List.length (queue (fst st)) + 2 * List.length (filter is_fetching (snd st))
  + List.length (filter is_renewing (snd st))
  + List.length (filter is_creating (snd st)).

(** *** main: the write after each batch *)

Inductive write_mode : Type := mode_w | mode_a.

(** The header line of a frame: its column names.  A frame built from
    rows has the seven columns of a row; a frame without any row (built
    from no event, or combined from such frames) has no column, and its
    header is an empty line. *)
Definition header_line (df : frame) : csv_line :=
  match df with
  | [] => EmptyLine
  | _ :: _ => Header
  end.

(** [frame.to_csv(path, index=False, mode=mode, header=header)] *)
Definition to_csv (df : frame) (mode : write_mode) (header : bool)
    (file : option (list csv_line)) : option (list csv_line) :=
  let written := ((if header then [header_line df] else []) ++ map Record_ df)%list in
  match mode, file with
  | mode_a, Some old => Some (old ++ written)%list
  | _, _ => Some written
  end.

Record progress : Type := Progress_ {
  first_write : bool;
  total_rows_written : Z
}.

(** Lines 382-403, for the [results] the workers of a batch left. *)
Definition write_batch (batch_tags : list string) (results : dict frame)
    (st : progress * option (list csv_line)) : progress * option (list csv_line) :=
  let '(p, file) := st in
  match results with
  | [] => st
  | _ =>
      let batch_frames :=
        flat_map (fun tag => match dict_get tag results with
                             | Some df => [df]
                             | None => []
                             end) batch_tags in
      match batch_frames with
      | [] => st
      | _ =>
          let combined_batch := List.concat batch_frames in
          let mode := if first_write p then mode_w else mode_a in
          let header := first_write p in
          (Progress_ false (total_rows_written p + len combined_batch),
           to_csv combined_batch mode header file)
      end
  end.

(** The writes of one run of [main], batch after batch, given what each
    batch's workers left in [results]. *)
Definition main_writes (batches : list (list string * dict frame))
    (file : option (list csv_line)) : progress * option (list csv_line) :=
  fold_left (fun st b => write_batch (fst b) (snd b) st) batches
            (Progress_ true 0, file).

(** [main] from line 310 on, given what each batch's workers left in
    [results]: the line printed at 314 divides by [old_len], the length
    of the shard before [reach_current] shortened it. *)
Definition main_run (old_len : Z) (batches : list (list string * dict frame))
    (file : option (list csv_line))
  : result (progress * option (list csv_line)) :=
  if old_len =? 0 then Raise ZeroDivisionError
  else Ok (main_writes batches file).

(** The batches of [main]: [replay_tags[start:start + BATCH_SIZE]] for
    [start in range(0, total_tags, BATCH_SIZE)]. *)
Definition main_batches (replay_tags : list string) (batch_size : Z)
  : result (list (list string)) :=
  starts <- range3 0 (len replay_tags) batch_size ;;
  Ok (map (fun start => slice replay_tags (Some start) (Some (start + batch_size)))
          starts).

End ScrapeNoRestart.

(** ** scrape.py

    The single-replay script pairs the two sequences as
    [parse_replay_html] does, with [assert] in place of the two
    [ValueError]s and without the replay tag in its rows.  (Its writes of
    the two sequences to [cardevents.csv] and [placement_events.csv]
    before the pairing are left out.) *)

Module Scrape.
Import Py.
Import ScrapeNoRestart.

(** The keys of [cur_event], the flag under the name the script gives
    it. *)
Record event : Type := Event {
  side : option string;
  time : option string;
  isAbilily : option string;
  card_name : option string;
  x : option string;
  y : option string
}.

(** The body of the [for i in range(len(placement_events))] loop. *)
Definition event_at (card_events : list card_event)
    (placement_events : list placement_event) (i : Z) : result event :=
  ce <- getitem card_events i ;;
  pe <- getitem placement_events i ;;
  if negb (eq_value (ce_time ce) (pe_time pe))
  then Raise AssertionError
  else
    if eq_value (ce_isAbility ce) (Some "1")
    then
      name <- ability_name (ce_image_src ce) ;;
      Ok (Event (ce_side ce) (ce_time ce) (ce_isAbility ce) (Some name) None None)
    else
      Ok (Event (ce_side ce) (ce_time ce) (ce_isAbility ce)
            (ce_card_name ce) (pe_x pe) (pe_y pe)).

(** Sections 5 and 6 of the script, from the selected elements to
    [events]. *)
Definition events (imgs : list img) (divs : list marker) : result (list event) :=
  let card_events := map card_event_of imgs in
  card_events <- sorted (fun e => int (ce_time e)) card_events ;;
  let placement_events := map placement_event_of divs in
  if negb (len card_events =? len placement_events)
  then Raise AssertionError
  else for_each (event_at card_events placement_events)
                (range (len placement_events)).

End Scrape.

(** ** multiwindow.py *)

Module Multiwindow.
Import Py.

(** *** get_fraction

    [df.iloc[start:end]] slices the rows as a list is sliced. *)
Definition get_fraction {A} (df : list A) (i n : Z) : result (list A) :=
  let total := len df in
  if n =? 0 then Raise ZeroDivisionError
  else
    let chunk := total / n in
    let start := i * chunk in
    let end_ := if i <? n - 1 then (i + 1) * chunk else total in
    Ok (slice df (Some start) (Some end_)).

(** *** scrape_player_on_page *)

Record battle : Type := Battle {
  menu_index : Z;
  timestamp_utc : option string;
  replay_id : option string;
  team_id : option string;
  opponent_id : option string;
  player_id : option string
}.

Inductive printed : Type :=
| StartingScrape (pid : string)
| Finished (pid : string) (battles : Z)
| ErrorMessage (pid : string) (e : exn).

(** [error_log] is the file at [ERROR_LOG_PATH]: [None] while it does not
    exist, else one entry per message written, with the player id and the
    exception the message is formatted from. *)
Record world : Type := World {
  error_log : option (list (string * exn));
  stdout : list printed
}.

Definition print (m : printed) (w : world) : world :=
  World (error_log w) (stdout w ++ [m])%list.

(** [open(ERROR_LOG_PATH, "a").write(...)] *)
Definition append_error_log (pid : string) (e : exn) (w : world) : world :=
  World (Some (match error_log w with Some old => old | None => [] end
               ++ [(pid, e)])%list)
        (stdout w).

Definition set_player_id (pid : string) (b : battle) : battle :=
  Battle (menu_index b) (timestamp_utc b) (replay_id b) (team_id b)
         (opponent_id b) (Some pid).

(** [scraped] is what the navigation, the scrolling and the pagination of
    the [try] block come to: the battles read, or the exception one of
    these calls raised. *)
Definition scrape_player_on_page (scraped : result (list battle)) (pid : string)
    (w : world) : result (list battle) * world :=
  let w := print (StartingScrape pid) w in
  match (cur_data <- scraped ;; Ok (map (set_player_id pid) cur_data)) with
  | Ok cur_data => (Ok cur_data, print (Finished pid (len cur_data)) w)
  | Raise e => (Ok [], print (ErrorMessage pid e) (append_error_log pid e w))
  end.

(** The [for pid in player_ids] loop of [player_worker]; each player comes
    with what its scrape will come to.  [page_ops k] is what the browser
    makes of the worker's [k]-th operation on a page, a
    [context.new_page()] or a [page.close()]: [None] when it returns,
    the exception when it raises.  The loop gives its outcome and the
    number of page operations made so far.  (The lines the worker itself
    prints are left out.) *)
Fixpoint player_loop (players_per_page : Z) (page_ops : nat -> option exn)
    (players : list (string * result (list battle)))
    (k : nat) (processed_on_this_page : Z) (results : list battle) (w : world)
  : result (list battle) * nat * world :=
  match players with
  | [] => (Ok results, k, w)
  | (pid, scraped) :: rest =>
      match scrape_player_on_page scraped pid w with
      | (Raise e, w') => (Raise e, k, w')
      | (Ok data, w') =>
          let results := (results ++ data)%list in
          let processed_on_this_page := processed_on_this_page + 1 in
          if players_per_page <=? processed_on_this_page then
            match page_ops k with                       (* page.close() *)
            | Some e => (Raise e, S k, w')
            | None =>
                match page_ops (S k) with               (* context.new_page() *)
                | Some e => (Raise e, S (S k), w')
                | None =>
                    player_loop players_per_page page_ops rest (S (S k)) 0 results w'
                end
            end
          else
            player_loop players_per_page page_ops rest k processed_on_this_page
                        results w'
      end
  end.

(** [player_worker]: nothing to do for an empty list; else the first
    page is made before the [try], and the [finally] block closes the
    page in hand, whatever the loop came to; an exception of that
    [page.close()] takes the place of the loop's outcome. *)
Definition player_worker (players_per_page : Z) (page_ops : nat -> option exn)
    (players : list (string * result (list battle))) (w : world)
  : result (list battle) * world :=
  match players with
  | [] => (Ok [], w)
  | _ :: _ =>
      match page_ops 0%nat with
      | Some e => (Raise e, w)
      | None =>
          let '(outcome, k, w') :=
            player_loop players_per_page page_ops players 1 0 [] w in
          match page_ops k with
          | Some e => (Raise e, w')
          | None => (outcome, w')
          end
      end
  end.

(** *** split_for_workers *)

(** The [for idx, pid in enumerate(ids)] loop from [idx] on:
    [buckets[idx % n_workers].append(pid)]. *)
Fixpoint distribute (n_workers idx : Z) (ids : list string)
    (buckets : list (list string)) : result (list (list string)) :=
  match ids with
  | [] => Ok buckets
  | pid :: rest =>
      j <- mod_ idx n_workers ;;
      bucket <- getitem buckets j ;;
      buckets <- setitem buckets j (bucket ++ [pid])%list ;;
      distribute n_workers (idx + 1) rest buckets
  end.

Definition split_for_workers (ids : list string) (max_workers : Z)
  : result (list (list string)) :=
  let n_workers := Z.min max_workers (len ids) in
  let buckets := map (fun _ => @nil string) (range n_workers) in
  distribute n_workers 0 ids buckets.

(** *** find_biggest_chunk *)

Definition isdigit (c : ascii) : bool :=
  match digit_of c with Some _ => true | None => false end.

(** The longest run of digits [s] starts with, and what follows it. *)
Fixpoint leading_digits (s : string) : string * string :=
  match s with
  | EmptyString => (EmptyString, EmptyString)
  | String c s' =>
      if isdigit c
      then let '(d, rest) := leading_digits s' in (String c d, rest)
      else (EmptyString, s)
  end.

(** [pattern.match(filename)] for [battles_chunk_(\d+)\.csv]: the group
    of a match, which is anchored at the start of the name only.  The
    group is the longest run of digits, since the pattern goes on with a
    dot. *)
Definition pattern_match (filename : string) : option string :=
  match remove_prefix "battles_chunk_" filename with
  | None => None
  | Some s =>
      let '(group, rest) := leading_digits s in
      if truthy group && prefix ".csv" rest then Some group else None
  end.

(** The [for filename in os.listdir(folder)] loop. *)
Fixpoint biggest (filenames : list string) (max_num : Z) : result Z :=
  match filenames with
  | [] => Ok max_num
  | filename :: rest =>
      match pattern_match filename with
      | Some group =>
          num <- int (Some group) ;;
          biggest rest (if max_num <? num then num else max_num)
      | None => biggest rest max_num
      end
  end.

(** [folder] lists the names in the folder, [None] when
    [os.path.isdir] says no. *)
Definition find_biggest_chunk (folder : option (list string)) : result Z :=
  match folder with
  | None => Ok 0
  | Some filenames => biggest filenames 0
  end.

(** *** run: the chunks and their file numbers *)

(** The [for start in range(...)] loop of [run]: each chunk of player ids
    with the [chunk_index] its file is named after. *)
Fixpoint chunk_loop (player_ids : list string) (chunk_size : Z)
    (starts : list Z) (chunk_index : Z) : list (Z * list string) :=
  match starts with
  | [] => []
  | start :: rest =>
      (chunk_index, slice player_ids (Some start) (Some (start + chunk_size)))
      :: chunk_loop player_ids chunk_size rest (chunk_index + 1)
  end.

Definition run_chunks (number_of_files : Z) (player_ids : list string)
    (chunk_size : Z) : result (list (Z * list string)) :=
  starts <- range3 (number_of_files * chunk_size) (len player_ids) chunk_size ;;
  Ok (chunk_loop player_ids chunk_size starts (number_of_files + 1)).

(** *** scrape and paginate_battles *)

(** A battle menu as the locators see it: the timestamp attribute, and
    the attributes of its replay button if it has one. *)
Record replay_button : Type := ReplayButton {
  data_replay : option string;
  data_team_tags : option string;
  data_opponent_tags : option string
}.

Record menu : Type := Menu {
  data_content : option string;
  button : option replay_button
}.

(** The [for i in range(count)] loop of [scrape] from menu [i] on.  The
    rows have no [player_id] yet. *)
Fixpoint scrape_from (i : Z) (menus : list menu) : list battle :=
  match menus with
  | [] => []
  | m :: rest =>
      match button m with
      | None => scrape_from (i + 1) rest
      | Some b =>
          Battle i (data_content m) (data_replay b) (data_team_tags b)
                 (data_opponent_tags b) None
          :: scrape_from (i + 1) rest
      end
  end.

Definition scrape (menus : list menu) : list battle := scrape_from 0 menus.

(** What the page shows at one turn of the loop of [paginate_battles]:
    its menus and the [class] attribute of the link around the "next"
    icon. *)
Record view : Type := View {
  menus : list menu;
  next_class : option string
}.

(** [classes and "disabled" in classes] *)
Definition next_disabled (v : view) : bool :=
  match next_class v with
  | Some classes => truthy classes && contains "disabled" classes
  | None => false
  end.

(** The [while True] loop of [paginate_battles] for at most [fuel] turns,
    the page showing [views k] at turn [k]; [None] when the turns run
    out. *)
Fixpoint paginate_battles (fuel : nat) (views : nat -> view) (k : nat)
    (battle_data : list battle) : option (list battle) :=
  match fuel with
  | O => None
  | S fuel' =>
      let battle_data := (battle_data ++ scrape (menus (views k)))%list in
      if next_disabled (views k) then Some battle_data
      else paginate_battles fuel' views (S k) battle_data
  end.

(** *** player_worker: the pages it opens and closes *)

Record pages : Type := Pages {
  opened : Z;
  closed : Z;
  processed_on_this_page : Z
}.

(** The loop of [player_worker] as far as pages go: one more player on
    the page, and a new page after [players_per_page] of them. *)
Fixpoint page_loop (players_per_page : Z) (player_ids : list string) (p : pages)
  : pages :=
  match player_ids with
  | [] => p
  | _ :: rest =>
      let processed := processed_on_this_page p + 1 in
      page_loop players_per_page rest
        (if players_per_page <=? processed
         then Pages (opened p + 1) (closed p + 1) 0
         else Pages (opened p) (closed p) processed)
  end.

(** No page is opened for an empty list; the [finally] block closes the
    page held at the end. *)
Definition player_worker_pages (players_per_page : Z) (player_ids : list string)
  : pages :=
  match player_ids with
  | [] => Pages 0 0 0
  | _ =>
      let p := page_loop players_per_page player_ids (Pages 1 0 0) in
      Pages (opened p) (closed p + 1) (processed_on_this_page p)
  end.

End Multiwindow.

(** ** notScrape.py *)

Module NotScrape.
Import Py.

(** *** log_failed_clan

    A CSV file is the list of its rows, a row the list of its cells; a
    cell written from [str(e)] keeps the exception. *)
Inductive cell : Type :=
| Text (s : string)
| StrOf (e : exn).

Definition csv : Type := list (list cell).

Definition log_failed_clan (debug_csv : option csv) (clan_tag country : string)
    (error_msg : cell) : option csv :=
  match debug_csv with
  | None =>
      Some [[Text "clan_tag"; Text "country"; Text "error"];
            [Text clan_tag; Text country; error_msg]]
  | Some rows => Some (rows ++ [[Text clan_tag; Text country; error_msg]])%list
  end.

(** *** fetch_clan_members *)

(** A member as the API lists it, with the fields the player record
    reads ([arena_id] and [arena_name] from the object under [arena]). *)
Record member : Type := Member {
  tag : option string;
  expLevel : option Z;
  trophies : option Z;
  arena_id : option Z;
  arena_name : option string
}.

(** What an object holds under its key [items], as the loop over the
    members at lines 269-281 finds it: a list of objects, the members; or
    a value on which that loop raises [e], such as [null] or a number
    ([TypeError]: not iterable) or a list with an entry that is no object
    ([AttributeError] at [m.get]). *)
Inductive payload : Type :=
| Listed (members : list member)
| Unusable (e : exn).

(** What [requests.get] comes to: an exception of the library (no
    connection, a timeout) or a response, with its status code and what
    [resp.json()] makes of its body: a [ValueError], an object (with
    what it holds under its key [items], if it has that key) or some
    other JSON value, on which [data.get] fails. *)
Inductive json : Type :=
| Malformed
| Object (items : option payload)
| NotAnObject.

Inductive http : Type :=
| NoResponse
| Response (status_code : Z) (body : json).

Inductive printed : Type :=
| Warn (clan_tag : string) (attempt retries : Z) (e : exn) (wait : Q)
| Fetching (idx total_clans : Z) (clan_tag country : string)
| GivingUp (clan_tag country : string) (e : exn).

(** The remote source answers the [k]-th request of the run with
    [remote k]; [requests] counts the requests made, [slept] lists the
    arguments of [time.sleep], [debug] is the file at [debug_csv].  A
    float is the rational it stands for, and [float_pow x n] is what the
    platform's floating-point power makes of the float [x] and the
    integer [n]: a float near the power (the power itself where the
    rounding of the platform allows), or [OverflowError] when the result
    is out of range. *)
Record world : Type := World {
  remote : nat -> http;
  requests : nat;
  slept : list Q;
  debug : option csv;
  stdout : list printed;
  float_pow : Q -> Z -> result Q
}.

Definition requests_get (w : world) : http * world :=
  (remote w (requests w),
   World (remote w) (S (requests w)) (slept w) (debug w) (stdout w) (float_pow w)).

(** [x ** n] for a float [x] and an integer [n >= 1]: [x] itself for
    [n = 1], else the platform's power. *)
Definition power (w : world) (x : Q) (n : Z) : result Q :=
  if n =? 1 then Ok x else float_pow w x n.

(** The lengths the clock of [time.sleep] can count: those that, in
    nanoseconds and rounded away from zero, fit into 64 bits. *)
Definition clock_min : Q := - (9223372036854775808 # 1000000000).
Definition clock_max : Q := 9223372036854775807 # 1000000000.

(** What [time.sleep(secs)] comes to: [OverflowError] on a length the
    clock cannot count, else [ValueError] on a negative length. *)
Definition time_sleep (secs : Q) : result unit :=
  if Qle_bool clock_min secs && Qle_bool secs clock_max
  then if Qle_bool 0 secs then Ok tt
       else Raise (ValueError (OtherValueError "sleep length must be non-negative"))
  else Raise OverflowError.

Definition sleep (secs : Q) (w : world) : result unit * world :=
  match time_sleep secs with
  | Ok _ =>
      (Ok tt,
       World (remote w) (requests w) (slept w ++ [secs])%list (debug w) (stdout w)
             (float_pow w))
  | Raise e => (Raise e, w)
  end.

Definition print (m : printed) (w : world) : world :=
  World (remote w) (requests w) (slept w) (debug w) (stdout w ++ [m])%list (float_pow w).

(** The [try] block of one attempt, on the answer to its request:
    [data.get("items", [])] is what the object holds under [items],
    whatever that is, and the empty list when it has no such key. *)
Definition attempt_body (r : http) : result payload :=
  match r with
  | NoResponse => Raise (RequestException ConnectionFailure)
  | Response status_code body =>
      if (status_code =? 429) || ((500 <=? status_code) && (status_code <? 600))
      then Raise (RequestException (HTTPError status_code))
      else if (400 <=? status_code) && (status_code <? 600)   (* raise_for_status *)
      then Raise (RequestException (HTTPError status_code))
      else match body with
           | Malformed => Raise (ValueError MalformedJSON)
           | Object (Some items) => Ok items
           | Object None => Ok (Listed [])
           | NotAnObject => Raise AttributeError
           end
  end.

(** [except (requests.RequestException, ValueError)] *)
Definition caught (e : exn) : bool :=
  match e with
  | RequestException _ | ValueError _ => true
  | _ => false
  end.

(** The [for attempt in range(1, retries + 1)] loop from [attempt] on,
    with [remaining] iterations to go, and the two lines after it.  An
    exception of [backoff ** attempt] or of [time.sleep] is raised
    inside the [except] clause and leaves the function. *)
Fixpoint attempts (clan_tag : string) (retries : Z) (backoff : Q)
    (remaining : nat) (attempt : Z) (last_error : option exn) (w : world)
  : result payload * world :=
  match remaining with
  | O =>
      match last_error with
      | None => (Raise AssertionError, w)
      | Some e => (Raise e, w)
      end
  | S remaining' =>
      let '(r, w) := requests_get w in
      match attempt_body r with
      | Ok items => (Ok items, w)
      | Raise e =>
          if caught e then
            match power w backoff attempt with
            | Ok wait =>
                let w := print (Warn clan_tag attempt retries e wait) w in
                match sleep wait w with
                | (Ok _, w) =>
                    attempts clan_tag retries backoff remaining' (attempt + 1) (Some e) w
                | (Raise e', w) => (Raise e', w)
                end
            | Raise e' => (Raise e', w)
            end
          else (Raise e, w)
      end
  end.

Definition fetch_clan_members (clan_tag : string) (retries : Z) (backoff : Q)
    (w : world) : result payload * world :=
  attempts clan_tag retries backoff (Z.to_nat retries) 1 None w.

(** *** build_player_dataset: the loop over the clans *)

Record player : Type := Player {
  player_tag : option string;
  p_clan_tag : string;
  p_country : string;
  p_expLevel : option Z;
  p_trophies : option Z;
  p_arena_id : option Z;
  p_arena_name : option string
}.

Definition player_of (clan_tag country : string) (m : member) : player :=
  Player (tag m) clan_tag country (expLevel m) (trophies m) (arena_id m) (arena_name m).

(** One iteration, for the clan [clan_tag] of [country]; [fetch_clan_members]
    is called with its default [retries = 3] and [backoff = 1.5] unless the
    caller of the model says otherwise.  The loop over the members stands
    behind the [try]: what it raises leaves [build_player_dataset], and
    so does what [time.sleep] raises. *)
Definition clan_step (retries : Z) (backoff pause : Q) (idx total_clans : Z)
    (clan_tag country : string) (st : list player * world)
  : result (list player * world) :=
  let '(records, w) := st in
  let w := print (Fetching (idx + 1) total_clans clan_tag country) w in
  match fetch_clan_members clan_tag retries backoff w with
  | (Raise e, w) =>
      let w := print (GivingUp clan_tag country e) w in
      let w := World (remote w) (requests w) (slept w)
                     (log_failed_clan (debug w) clan_tag country (StrOf e))
                     (stdout w) (float_pow w) in
      match sleep pause w with
      | (Ok _, w) => Ok (records, w)
      | (Raise e', _) => Raise e'
      end
  | (Ok (Unusable e), _) => Raise e
  | (Ok (Listed members), w) =>
      let records := (records ++ map (player_of clan_tag country) members)%list in
      match sleep pause w with
      | (Ok _, w) => Ok (records, w)
      | (Raise e', _) => Raise e'
      end
  end.

Fixpoint clans_loop (retries : Z) (backoff pause : Q) (idx total_clans : Z)
    (clans : list (string * string)) (st : list player * world)
  : result (list player * world) :=
  match clans with
  | [] => Ok st
  | (clan_tag, country) :: rest =>
      st' <- clan_step retries backoff pause idx total_clans clan_tag country st ;;
      clans_loop retries backoff pause (idx + 1) total_clans rest st'
  end.

(** *** flatten_json *)

(** A JSON value as [json.loads] builds it. *)
Inductive scalar : Type :=
| Null
| Boolean (b : bool)
| Number (q : Q)
| Str (s : string).

#[local] Unset Elimination Schemes.
Inductive value : Type :=
| Scalar (v : scalar)
| Array (l : list value)
| Object_ (d : list (string * value)).
#[local] Set Elimination Schemes.

Fixpoint flatten_json (obj : value) (parent_key sep : string) : dict scalar :=
  match obj with
  | Object_ d =>
      (fix items_of (d : list (string * value)) (items : dict scalar) : dict scalar :=
         match d with
         | [] => items
         | kv :: d' =>
             let new_key :=
               if truthy parent_key then parent_key ++ sep ++ fst kv else fst kv in
             items_of d' (dict_update items (flatten_json (snd kv) new_key sep))
         end) d []
  | Array l =>
      (fix items_of (l : list value) (i : nat) (items : dict scalar) : dict scalar :=
         match l with
         | [] => items
         | v :: l' =>
             let new_key := parent_key ++ "[" ++ str_nat i ++ "]" in
             items_of l' (S i) (dict_update items (flatten_json v new_key sep))
         end) l 0%nat []
  | Scalar v => if truthy parent_key then [(parent_key, v)] else []
  end.

(** Induction over a JSON value, through the lists it nests. *)
Section ValueInduction.
Variable P : value -> Prop.
Hypothesis P_scalar : forall v, P (Scalar v).
Hypothesis P_array : forall l, Forall P l -> P (Array l).
Hypothesis P_object : forall d, Forall (fun kv => P (snd kv)) d -> P (Object_ d).

Fixpoint value_induction (obj : value) : P obj :=
  match obj with
  | Scalar v => P_scalar v
  | Array l =>
      P_array l
        ((fix all (l : list value) : Forall P l :=
            match l with
            | [] => Forall_nil P
            | v :: l' => Forall_cons v (value_induction v) (all l')
            end) l)
  | Object_ d =>
      P_object d
        ((fix all (d : list (string * value)) : Forall (fun kv => P (snd kv)) d :=
            match d with
            | [] => Forall_nil _
            | kv :: d' => Forall_cons kv (value_induction (snd kv)) (all d')
            end) d)
  end.

End ValueInduction.

(** *** build_battle_dataset: the [result] column

    A member of [team] or [opponent] as the column reads it: its [tag]
    and its [crowns], each [None] when the key is missing. *)
Record side : Type := Side {
  side_tag : option string;
  crowns : option Z
}.

Inductive outcome : Type := win | loss | draw.

(** The [for t in team] loop: the first member whose tag is the
    player's. *)
Fixpoint first_with_tag (player_tag : string) (team : list side) : option side :=
  match team with
  | [] => None
  | t :: rest =>
      if match side_tag t with
         | Some s => String.eqb s player_tag
         | None => false
         end
      then Some t
      else first_with_tag player_tag rest
  end.

(** [team] and [opponent] are the lists after [b.get(...) or []]. *)
Definition battle_result (player_tag : string) (team opponent : list side)
  : option outcome :=
  let player_side := first_with_tag player_tag team in
  let player_side :=
    match player_side, team with
    | None, t :: _ => Some t
    | _, _ => player_side
    end in
  let opponent_side :=
    match opponent with
    | o :: _ => Some o
    | [] => None
    end in
  let crowns_for :=
    match player_side with Some ps => crowns ps | None => None end in
  let crowns_against :=
    match opponent_side with Some os => crowns os | None => None end in
  match crowns_for, crowns_against with
  | Some for_, Some against =>
      if against <? for_ then Some win
      else if for_ <? against then Some loss
      else Some draw
  | _, _ => None
  end.

(** *** combine_clan_csv_folder

    The files [folder.glob("*.csv")] yields, in the order it yields
    them, each with the stem of its name and what [pd.read_csv] makes of
    it: the rows it reads, or the exception it raises (on a file without
    columns, on a line with too many fields); a row of the combined
    frame is a row of a file with the value of its column [country]. *)
Definition country_name (stem : string) : result string :=
  getitem (split "_clans" stem) 0.

Fixpoint read_all {R} (files : list (string * result (list R)))
  : result (list (list (R * string))) :=
  match files with
  | [] => Ok []
  | (stem, read_csv) :: rest =>
      df <- read_csv ;;
      country <- country_name stem ;;
      dfs <- read_all rest ;;
      Ok (map (fun r => (r, country)) df :: dfs)
  end.

Definition combine_clan_csv_folder {R} (files : list (string * result (list R)))
  : result (list (R * string)) :=
  dfs <- read_all files ;;
  match dfs with
  | [] => Raise (ValueError (OtherValueError "No CSV files found in folder"))
  | _ => Ok (List.concat dfs)
  end.

(** *** get_all_location_clans *)

Record clan : Type := Clan {
  clan_tag_ : option string;
  clan_name : option string;
  clan_type : option string;
  clanScore : option Z;
  clan_members : option Z;
  requiredTrophies : option Z
}.

(** What one request for a page of clans comes to: an exception (of
    [requests.get], of [raise_for_status], of [response.json] or of the
    reading of the page's data) or the items of the page, a list of
    objects, and the cursor [after], if it has one. *)
Inductive clans_page : Type :=
| PageRaised (e : exn)
| Page (items : list clan) (after : option string).

Inductive clans_line : Type :=
| ClansHeader
| ClanRow (c : clan).

(** [if not after] *)
Definition no_cursor (after : option string) : bool :=
  match after with
  | Some a => negb (truthy a)
  | None => true
  end.

(** What the loop of requests has done: the cursors it has sent, one
    per request ([None] for a request without the parameter [after]),
    and the arguments of [time.sleep]. *)
Record traffic : Type := Traffic {
  asked : list (option string);
  pauses : list Q
}.

(** The [while True] loop for at most [fuel] requests; the remote source
    answers by the cursor it is sent.  [None] when the requests run
    out. *)
Fixpoint clan_pages (fuel : nat) (remote : option string -> clans_page)
    (pause : Q) (after : option string) (all_clans : list clan) (t : traffic)
  : option (result (list clan) * traffic) :=
  match fuel with
  | O => None
  | S fuel' =>
      let cursor := if no_cursor after then None else after in
      let t := Traffic (asked t ++ [cursor])%list (pauses t) in
      match remote cursor with
      | PageRaised e => Some (Raise e, t)
      | Page items after' =>
          let all_clans := (all_clans ++ items)%list in
          if no_cursor after' then Some (Ok all_clans, t)
          else match time_sleep pause with
               | Ok _ =>
                   clan_pages fuel' remote pause after' all_clans
                     (Traffic (asked t) (pauses t ++ [pause])%list)
               | Raise e => Some (Raise e, t)
               end
      end
  end.

(** The function: the pages, then the file, then the count.  [file] is
    the file at [csv_file] before the call. *)
Definition get_all_location_clans (fuel : nat) (remote : option string -> clans_page)
    (pause : Q) (file : option (list clans_line))
  : option (result Z * option (list clans_line) * traffic) :=
  match clan_pages fuel remote pause None [] (Traffic [] []) with
  | None => None
  | Some (Raise e, t) => Some (Raise e, file, t)
  | Some (Ok all_clans, t) =>
      Some (Ok (len all_clans), Some (ClansHeader :: map ClanRow all_clans), t)
  end.

End NotScrape.

(** ** The specification's own notions *)

Module Spec.

(** The contiguous slice [[a, b)] of a list. *)
Definition interval {A} (a b : nat) (l : list A) : list A :=
  firstn (b - a) (skipn a l).

(** The part of [s] in front of the first occurrence of [sep], all of [s]
    when there is none. *)
Fixpoint before_first (sep s : string) : string :=
  match s with
  | EmptyString => EmptyString
  | String c s' => if prefix sep s then EmptyString else String c (before_first sep s')
  end.

(** White space, by its code points below 256: tab, line feed, vertical
    tab, form feed, carriage return, the four separators U+001C to
    U+001F, the space, NEL and the no-break space. *)
Definition white (c : ascii) : bool :=
  existsb (Nat.eqb (nat_of_ascii c)) [9; 10; 11; 12; 13; 28; 29; 30; 31; 32; 133; 160]%nat.

Fixpoint all_white (s : string) : bool :=
  match s with
  | EmptyString => true
  | String c s' => white c && all_white s'
  end.

(** [s] from its first character that is no white space on. *)
Fixpoint drop_white (s : string) : string :=
  match s with
  | EmptyString => EmptyString
  | String c s' => if white c then drop_white s' else s
  end.

(** [s] up to its last character that is no white space. *)
Fixpoint drop_white_end (s : string) : string :=
  match s with
  | EmptyString => EmptyString
  | String c s' => if all_white s then EmptyString else String c (drop_white_end s')
  end.

(** [s] without the white space around it. *)
Definition trim (s : string) : string := drop_white_end (drop_white s).

(** The first field of a line of comma-separated text: the text in front
    of the first comma (all of the line when it has no comma), without
    the white space around it (the line end, when the line has one field
    only). *)
Definition first_field (line : string) : string :=
  trim (before_first "," line).

(** [s] without its first [n] characters. *)
Fixpoint drop (n : nat) (s : string) : string :=
  match n, s with
  | S n', String _ s' => drop n' s'
  | _, _ => s
  end.

(** Whether [sep] occurs in [s]. *)
Fixpoint occurs (sep s : string) : bool :=
  match s with
  | EmptyString => prefix sep s
  | String _ s' => prefix sep s || occurs sep s'
  end.

(** The part of [s] behind the rightmost occurrence of [sep], [None] when
    there is no occurrence. *)
Fixpoint after_last (sep s : string) : option string :=
  match s with
  | EmptyString => None
  | String _ s' =>
      match after_last sep s' with
      | Some t => Some t
      | None => if prefix sep s then Some (drop (String.length sep) s) else None
      end
  end.

(** The token behind the marker: what follows its last occurrence, all
    of [s] when the marker does not occur. *)
Definition after_marker (marker s : string) : string :=
  match after_last marker s with
  | Some t => t
  | None => s
  end.

(** [s] without the suffix [suffix], if it ends in it. *)
Fixpoint strip_suffix (suffix s : string) : string :=
  match s with
  | EmptyString => EmptyString
  | String c s' => if String.eqb s suffix then EmptyString else String c (strip_suffix suffix s')
  end.

(** A separator that does not overlap a shifted copy of itself: no proper
    non-empty suffix of it is a prefix of it. *)
Definition unbordered (sep : string) : bool :=
  forallb (fun j => negb (prefix (drop j sep) sep)) (seq 1 (String.length sep - 1)).



(** What the wait of an attempt comes to on the platform: the power is
    computed and [time.sleep] is called with it; either may raise. *)
Definition wait_outcome (w : NotScrape.world) (base : Q) (attempt : Z)
  : Py.result unit :=
  match NotScrape.power w base attempt with
  | Py.Ok wait => NotScrape.time_sleep wait
  | Py.Raise e => Py.Raise e
  end.

(** The wait of an attempt as the platform computes it (zero where the
    platform has none). *)
Definition wait_of (w : NotScrape.world) (base : Q) (attempt : Z) : Q :=
  match NotScrape.power w base attempt with
  | Py.Ok wait => wait
  | Py.Raise _ => 0
  end.

(** The waits of the attempts [1 .. n] as the platform computes them. *)
Definition platform_waits (w : NotScrape.world) (base : Q) (n : nat) : list Q :=
  map (fun attempt => wait_of w base (Z.of_nat attempt)) (seq 1 n).

(** The waits of the attempts [1 .. n] can be taken: the platform
    computes each power, and [time.sleep] takes it. *)
Definition waits_taken (w : NotScrape.world) (base : Q) (n : nat) : Prop :=
  forall k, (1 <= k <= n)%nat -> wait_outcome w base (Z.of_nat k) = Py.Ok tt.


(** The rows a batch hands to the writer, in the order of its tags:
    [None] when none of its tags has a frame, and nothing is written. *)
Definition batch_rows (b : list string * Py.dict ScrapeNoRestart.frame)
  : option (list ScrapeNoRestart.row) :=
  match flat_map (fun tag => match Py.dict_get tag (snd b) with
                             | Some df => [df]
                             | None => []
                             end) (fst b) with
  | [] => None
  | frames => Some (List.concat frames)
  end.

Fixpoint somes {X} (l : list (option X)) : list X :=
  match l with
  | [] => []
  | Some a :: l' => a :: somes l'
  | None :: l' => somes l'
  end.

(** A row of [parse_replay_html] as [scrape.py] would hold it, and an
    exception of [parse_replay_html] as [scrape.py] would raise it. *)
Definition untagged (r : ScrapeNoRestart.row) : Scrape.event :=
  Scrape.Event (ScrapeNoRestart.side r) (ScrapeNoRestart.time r)
               (ScrapeNoRestart.isAbility r) (ScrapeNoRestart.card_name r)
               (ScrapeNoRestart.x r) (ScrapeNoRestart.y r).

Definition asserted (e : Py.exn) : Py.exn :=
  match e with
  | Py.ValueError (Py.LengthMismatch _ _ _) => Py.AssertionError
  | Py.ValueError (Py.TimeMismatch _ _ _ _) => Py.AssertionError
  | _ => e
  end.

(** Whether [s] consists of decimal digits only. *)
Fixpoint all_digits (s : string) : bool :=
  match s with
  | EmptyString => true
  | String c s' => Multiwindow.isdigit c && all_digits s'
  end.

(** The name of a chunk file: the fixed prefix, a number, [.csv], and
    whatever follows. *)
Definition chunk_name (number rest : string) : string :=
  "battles_chunk_" ++ number ++ ".csv" ++ rest.

(** A text without line end in it: neither a line feed nor a carriage
    return. *)
Fixpoint one_line (s : string) : bool :=
  match s with
  | EmptyString => true
  | String c s' =>
      negb (Ascii.eqb c ScrapeNoRestart.LF) && negb (Ascii.eqb c ScrapeNoRestart.CR)
      && one_line s'
  end.

(** A worker's count of the replays fetched since its page and context
    were made: below the ten at which they are recreated. *)
Definition count_in_range (w : ScrapeNoRestart.worker) : Prop :=
  match w with
  | ScrapeNoRestart.AtGet c | ScrapeNoRestart.Fetching c _ => 0 <= c < 10
  | _ => True
  end.

(** What the workers of a batch keep to: the tags they handle are tags of
    the batch, [results] holds frames of successful fetches only, the
    output file is left alone, the two counters move together. *)
Definition workers_keep_to (batch_tags : list string) (overall_done : Z)
    (d : option (list ScrapeNoRestart.csv_line))
    (st : ScrapeNoRestart.shared * list ScrapeNoRestart.worker) : Prop :=
  ScrapeNoRestart.disk (fst st) = d /\
  ScrapeNoRestart.overall_completed (fst st)
    = overall_done + ScrapeNoRestart.batch_completed (fst st) /\
  (forall tag, In (Some tag) (ScrapeNoRestart.queue (fst st)) -> In tag batch_tags) /\
  (forall c tag, In (ScrapeNoRestart.Fetching c tag) (snd st) -> In tag batch_tags) /\
  (forall tag df,
     Py.dict_get tag (ScrapeNoRestart.results (fst st)) = Some df ->
     In tag batch_tags /\
     exists response, ScrapeNoRestart.fetch_replay_with_page response tag = Py.Ok df) /\
  Forall count_in_range (snd st).

(** Whether a card event was played at the integer time [z]. *)
Definition played_at (z : Z) (e : ScrapeNoRestart.card_event) : bool :=
  match Py.int (ScrapeNoRestart.ce_time e) with
  | Py.Ok k => k =? z
  | Py.Raise _ => false
  end.

(** An answer of the remote source after which [fetch_clan_members]
    tries again: no answer, any status from 400 to 599, or a body that
    is no JSON. *)
Definition retried (r : NotScrape.http) : bool :=
  match r with
  | NotScrape.NoResponse => true
  | NotScrape.Response status_code body =>
      (400 <=? status_code) && (status_code <? 600)
      || match body with NotScrape.Malformed => true | _ => false end
  end.


(** Files that [pd.read_csv] reads, each with the rows read from it. *)
Definition readable {R} (files : list (string * list R))
  : list (string * Py.result (list R)) :=
  map (fun f => (fst f, Py.Ok (snd f))) files.

(** The row [log_failed_clan] writes for a call. *)
Definition failed_row (call : string * string * NotScrape.cell) : list NotScrape.cell :=
  [NotScrape.Text (fst (fst call)); NotScrape.Text (snd (fst call)); snd call].

(** The pages a remote source answers with along the cursors, from the
    cursor [after] on: every page but the last names the cursor of the
    next, the last names none. *)
Fixpoint cursor_chain (remote : option string -> NotScrape.clans_page)
    (after : option string) (pages : list (list NotScrape.clan * option string))
  : Prop :=
  match pages with
  | [] => False
  | (items, next) :: rest =>
      remote (if NotScrape.no_cursor after then None else after)
      = NotScrape.Page items next /\
      match rest with
      | [] => NotScrape.no_cursor next = true
      | _ :: _ => NotScrape.no_cursor next = false /\ cursor_chain remote next rest
      end
  end.

(** Whether a menu has a replay button. *)
Definition has_button (m : Multiwindow.menu) : bool :=
  match Multiwindow.button m with Some _ => true | None => false end.

(** The rows a player contributes, each with the player's id, and the
    entry the player leaves in the error log. *)
Definition battles_of (p : string * Py.result (list Multiwindow.battle))
  : list Multiwindow.battle :=
  match snd p with
  | Py.Ok data => map (Multiwindow.set_player_id (fst p)) data
  | Py.Raise _ => []
  end.

Definition failure_of (p : string * Py.result (list Multiwindow.battle))
  : list (string * Py.exn) :=
  match snd p with
  | Py.Ok _ => []
  | Py.Raise e => [(fst p, e)]
  end.

(** The result of a battle seen from the other side. *)
Definition mirrored (o : NotScrape.outcome) : NotScrape.outcome :=
  match o with
  | NotScrape.win => NotScrape.loss
  | NotScrape.loss => NotScrape.win
  | NotScrape.draw => NotScrape.draw
  end.

(** Round robin: of the elements of [ids], numbered from [idx] on, those
    whose number leaves the remainder [j] when divided by [n]. *)
Fixpoint class_from {A} (n idx j : Z) (ids : list A) : list A :=
  match ids with
  | [] => []
  | x :: rest =>
      if idx mod n =? j then x :: class_from n (idx + 1) j rest
      else class_from n (idx + 1) j rest
  end.

End Spec.

(** ** Sample inputs *)

Module Sample.
Import ScrapeNoRestart.

(** A replay fragment with two cards, the later one first in the
    document, the earlier one an ability. *)
Definition imgs : list img :=
  [Img (Some "knight") (Some "/static/img/cards/knight.png") (Some "t")
       (Some "2") None;
   Img None (Some "/static/img/cards/ability-archer-queen.png") (Some "o")
       (Some "1") (Some "1")].

Definition divs : list marker :=
  [Marker (Some "8500") (Some "14500") (Some "1");
   Marker (Some "9500") (Some "21500") (Some "2")].

(** An ability without image source at time 1, and a second marker whose
    time differs from the second card's. *)
Definition imgs_no_src : list img :=
  [Img None None (Some "o") (Some "1") (Some "1");
   Img (Some "knight") (Some "/static/img/cards/knight.png") (Some "t")
       (Some "2") None].

Definition divs_late : list marker :=
  [Marker (Some "8500") (Some "14500") (Some "1");
   Marker (Some "9500") (Some "21500") (Some "3")].

(** Abilities whose image source has the marker, and [.png] before its
    end: once more at the end, or followed by a query. *)
Definition imgs_marker_png_twice : list img :=
  [Img None (Some "ability-x.pngy.png") (Some "o") (Some "1") (Some "1")].

Definition imgs_versioned : list img :=
  [Img None (Some "/static/img/cards/ability-archer-queen.png?v=2") (Some "o")
       (Some "1") (Some "1")].

(** An ability whose image source has no marker and [.png] twice. *)
Definition imgs_png_twice : list img :=
  [Img None (Some "x.pngy.png") (Some "o") (Some "1") (Some "1")].

Definition divs_one : list marker :=
  [Marker (Some "8500") (Some "14500") (Some "1")].

(** Two rows, of the replays [a] and [b]. *)
Definition row_a : row :=
  Row "a" (Some "t") (Some "1") None (Some "knight") (Some "8500") (Some "14500").

Definition row_b : row :=
  Row "b" (Some "o") (Some "4") None (Some "giant") (Some "9500") (Some "21500").


(** The power without rounding: what the platform's power comes to
    wherever the power itself is a float, as for the default base 1.5
    and the exponents 2 and 3. *)
Definition exact_pow (x : Q) (n : Z) : Py.result Q := Py.Ok (Qpower x n).

(** A remote source that never answers; nothing requested, slept or
    logged yet. *)
Definition offline : NotScrape.world :=
  NotScrape.World (fun _ => NotScrape.NoResponse) 0 [] None [] exact_pow.




End Sample.

(* ================================================================== *)
(** * Part II. Theorems *)
(* ================================================================== *)

Import Py.

(** ** Slices and indexing *)

Section Slices.
Context {A : Type}.
Implicit Types l : list A.

Lemma len_nonneg l : 0 <= len l.
Proof. unfold len. lia. Qed.

Lemma firstn_plus l : forall a b,
  firstn (a + b) l = (firstn a l ++ firstn b (skipn a l))%list.
Proof.
  induction l as [|h t IH]; intros [|a] b; simpl;
    try rewrite firstn_nil; try reflexivity.
  now rewrite IH.
Qed.

Lemma slice_within l a b :
  0 <= a <= b -> b <= len l ->
  slice l (Some a) (Some b) = Spec.interval (Z.to_nat a) (Z.to_nat b) l.
Proof.
  intros Hab Hb. unfold slice, clamp, Spec.interval.
  destruct (Z.ltb_spec a 0), (Z.ltb_spec b 0); try lia.
  rewrite !Z.min_l by lia. f_equal. lia.
Qed.

Lemma slice_from l a :
  0 <= a <= len l ->
  slice l (Some a) None = Spec.interval (Z.to_nat a) (List.length l) l.
Proof.
  intros Ha. unfold slice, clamp, Spec.interval.
  destruct (Z.ltb_spec a 0); try lia.
  rewrite Z.min_l by lia. f_equal. unfold len in *. lia.
Qed.

Lemma interval_to_end l a :
  Spec.interval a (List.length l) l = skipn a l.
Proof.
  unfold Spec.interval. apply firstn_all2. rewrite length_skipn. lia.
Qed.

Lemma concat_chunks l c : forall k,
  List.concat (map (fun j => Spec.interval (j * c) ((j + 1) * c) l) (seq 0 k))
  = firstn (k * c) l.
Proof.
  induction k as [|k IH]; [reflexivity|].
  rewrite seq_S, map_app, concat_app, IH. simpl.
  rewrite app_nil_r. unfold Spec.interval.
  replace ((k + 1) * c - k * c)%nat with c by lia.
  replace (c + k * c)%nat with (k * c + c)%nat by lia.
  now rewrite firstn_plus.
Qed.

End Slices.

(** ** Work Partitioner *)

Section Sharding.
Context {A : Type}.
Variable ids : list A.
Variable n : Z.
Hypothesis n_pos : 0 < n.

Let seg : Z := len ids / n.

(** The shard the specification describes for index [i]. *)
Let shard (i : Z) : list A :=
  Spec.interval (Z.to_nat (i * seg))
                (Z.to_nat (if i =? n - 1 then len ids else (i + 1) * seg)) ids.

Lemma seg_bounds : 0 <= seg /\ n * seg <= len ids.
Proof.
  unfold seg. pose proof (len_nonneg ids).
  split; [apply Z.div_pos; lia | apply Z.mul_div_le; lia].
Qed.

Lemma split_tags_shard i :
  0 <= i < n -> ScrapeNoRestart.split_tags i n ids = Ok (shard i).
Proof.
  intros Hi. destruct seg_bounds as [Hs Hn].
  unfold ScrapeNoRestart.split_tags, shard. fold seg.
  replace ((0 <=? i) && (i <? n)) with true
    by (symmetry; apply andb_true_iff; split; [apply Z.leb_le | apply Z.ltb_lt]; lia).
  simpl. destruct (Z.eqb_spec i (n - 1)) as [->|Hne]; f_equal.
  - rewrite slice_from by nia. unfold len. now rewrite Nat2Z.id.
  - rewrite slice_within by nia. f_equal. lia.
Qed.

Lemma get_fraction_shard i :
  0 <= i < n -> Multiwindow.get_fraction ids i n = Ok (shard i).
Proof.
  intros Hi. destruct seg_bounds as [Hs Hn].
  unfold Multiwindow.get_fraction, shard. fold seg.
  destruct (Z.eqb_spec n 0); [lia|]. f_equal.
  destruct (Z.ltb_spec i (n - 1)), (Z.eqb_spec i (n - 1)); try lia.
  - apply slice_within; nia.
  - apply slice_within; [nia | lia].
Qed.

Lemma shards_concat : List.concat (map shard (range n)) = ids.
Proof.
  destruct seg_bounds as [Hs Hn].
  unfold range. rewrite map_map.
  destruct (Z.to_nat n) as [|m] eqn:Hm; [lia|].
  rewrite seq_S, map_app, concat_app. simpl. rewrite app_nil_r.
  rewrite map_ext_in with
    (g := fun j => Spec.interval (j * Z.to_nat seg) ((j + 1) * Z.to_nat seg) ids).
  - rewrite concat_chunks. unfold shard.
    destruct (Z.eqb_spec (Z.of_nat m) (n - 1)); [|lia].
    unfold len. rewrite Nat2Z.id, interval_to_end.
    replace (Z.to_nat (Z.of_nat m * seg)) with (m * Z.to_nat seg)%nat by nia.
    apply firstn_skipn.
  - intros j Hj%in_seq. unfold shard.
    destruct (Z.eqb_spec (Z.of_nat j) (n - 1)); [lia|].
    f_equal; nia.
Qed.

End Sharding.

(** C3. Sharding partitions the input exactly.  For every list of
    identifiers and every shard count [n > 0], the shard of each index
    [0 <= i < n], as [split_tags] and as [get_fraction] compute it, is the
    contiguous slice that starts at [i * (len / n)] and ends before
    [(i + 1) * (len / n)], the last one running to the end of the list;
    and the shards [0 .. n-1] concatenated are the list itself, nothing
    twice and nothing left out, whether or not [n] divides the length. *)
Theorem sharding_partitions_exactly :
  forall (A : Type) (ids : list A) (n : Z),
    0 < n ->
    let seg := len ids / n in
    let shard := fun i =>
      Spec.interval (Z.to_nat (i * seg))
        (Z.to_nat (if i =? n - 1 then len ids else (i + 1) * seg)) ids in
    (forall i, 0 <= i < n ->
       ScrapeNoRestart.split_tags i n ids = Ok (shard i) /\
       Multiwindow.get_fraction ids i n = Ok (shard i)) /\
    List.concat (map shard (range n)) = ids.
Proof.
  intros A ids n Hn seg shard. split.
  - intros i Hi. split.
    + now apply split_tags_shard.
    + now apply get_fraction_shard.
  - now apply shards_concat.
Qed.

(** The theorem at ten identifiers and three shards: sizes 3, 3 and 4. *)
Lemma sharding_partitions_exactly_witness :
  ScrapeNoRestart.split_tags 2 3 [1; 2; 3; 4; 5; 6; 7; 8; 9; 10]
    = Ok [7; 8; 9; 10] /\
  List.concat
    (map (fun i =>
            Spec.interval (Z.to_nat (i * 3))
              (Z.to_nat (if i =? 2 then 10 else (i + 1) * 3))
              [1; 2; 3; 4; 5; 6; 7; 8; 9; 10])
         (range 3))
  = [1; 2; 3; 4; 5; 6; 7; 8; 9; 10].
Proof.
  pose proof (sharding_partitions_exactly Z [1; 2; 3; 4; 5; 6; 7; 8; 9; 10] 3
                eq_refl) as [Hshard Hconcat].
  split.
  - destruct (Hshard 2) as [H _]; [lia | exact H].
  - exact Hconcat.
Defined.

(** ** Strings *)

Section Strings.

Lemma append_assoc (a b c : string) : (a ++ b) ++ c = a ++ (b ++ c).
Proof. induction a as [|x a IH]; simpl; [reflexivity | now rewrite IH]. Qed.

Lemma append_nil_r (a : string) : a ++ EmptyString = a.
Proof. induction a as [|x a IH]; simpl; [reflexivity | now rewrite IH]. Qed.

Lemma split_from_head sep : forall s cur,
  exists rest, split_from sep 0 cur s = (cur ++ Spec.before_first sep s) :: rest.
Proof.
  induction s as [|c s IH]; intros cur.
  - exists []. simpl. now rewrite append_nil_r.
  - cbn [split_from Spec.before_first].
    destruct (prefix sep (String c s)).
    + eexists. now rewrite append_nil_r.
    + destruct (IH (cur ++ String c EmptyString)) as [rest ->].
      exists rest. now rewrite append_assoc.
Qed.

(** [s.split(sep)[0]] never raises: it is the text before the first
    [sep]. *)
Lemma getitem_split_0 sep s :
  getitem (split sep s) 0 = Ok (Spec.before_first sep s).
Proof.
  unfold split. destruct (split_from_head sep s EmptyString) as [rest ->].
  reflexivity.
Qed.

End Strings.

(** ** Checkpoint Resolver *)

Section Checkpoint.
Import ScrapeNoRestart.

Lemma lines_from_truthy_upto : forall n s cur line,
  (String.length s <= n)%nat ->
  In line (lines_from cur s) -> truthy line = true.
Proof.
  assert (Hnl : forall cur, truthy (cur ++ String LF EmptyString) = true)
    by (intros [|? ?]; reflexivity).
  induction n as [|n IH]; intros [|c s] cur line Hlen; cbn [lines_from];
    try (simpl in Hlen; lia).
  1, 2: destruct (truthy cur) eqn:Hc; simpl;
        [intros [<-|[]]; exact Hc | intros []].
  simpl in Hlen.
  destruct (Ascii.eqb c LF).
  - intros [<-|Hin]; [apply Hnl | apply (IH s EmptyString); [lia | exact Hin]].
  - destruct (Ascii.eqb c CR).
    + destruct s as [|c' s'].
      * intros [<-|[]]. apply Hnl.
      * simpl in Hlen. destruct (Ascii.eqb c' LF);
          (intros [<-|Hin]; [apply Hnl | eapply IH; [|exact Hin]; simpl; lia]).
    + intros Hin. eapply IH; [|exact Hin]. lia.
Qed.

Lemma lines_from_truthy s cur line :
  In line (lines_from cur s) -> truthy line = true.
Proof. apply (lines_from_truthy_upto (String.length s)). lia. Qed.

Lemma fold_last_in {X} : forall (l : list X) (acc : option X) (a : X),
  fold_left (fun _ line => Some line) l acc = Some a ->
  acc = Some a \/ In a l.
Proof.
  induction l as [|h t IH]; intros acc a H; simpl in *; [now left|].
  destruct (IH _ _ H) as [[= ->]|Hin]; right; auto.
Qed.

(** The last line of a file is never the empty string. *)
Lemma tail_truthy content last_line :
  tail content = Some last_line -> truthy last_line = true.
Proof.
  unfold tail, file_lines. intros H.
  destruct (fold_last_in _ _ _ H) as [[=]|Hin].
  eapply lines_from_truthy; eassumption.
Qed.

Lemma index_found x : forall before after,
  ~ In x before ->
  index x (before ++ x :: after) = Ok (len before).
Proof.
  induction before as [|h t IH]; intros after Hnot; simpl.
  - now rewrite String.eqb_refl.
  - destruct (String.eqb_spec h x) as [->|_]; [exfalso; apply Hnot; now left|].
    rewrite IH by (intros Hin; apply Hnot; now right).
    simpl. f_equal. unfold len. simpl List.length. lia.
Qed.

Lemma index_absent x : forall l,
  ~ In x l -> index x l = Raise (ValueError NotInList).
Proof.
  induction l as [|h t IH]; intros Hnot; simpl; [reflexivity|].
  destruct (String.eqb_spec h x) as [->|_]; [exfalso; apply Hnot; now left|].
  rewrite IH by (intros Hin; apply Hnot; now right). reflexivity.
Qed.

(** A member of a list has a first occurrence. *)
Lemma first_occurrence (x : string) : forall l,
  In x l -> exists before after, l = (before ++ x :: after)%list /\ ~ In x before.
Proof.
  induction l as [|h t IH]; intros Hin; [destruct Hin|].
  destruct (string_dec h x) as [->|Hne].
  - exists [], t. split; [reflexivity | intros []].
  - destruct IH as (before & after & -> & Hnot); [destruct Hin; congruence|].
    exists (h :: before), after. split; [reflexivity|].
    intros [?|?]; [congruence | auto].
Qed.

Lemma slice_after {X} (before : list X) x after :
  slice (before ++ x :: after) (Some (len before + 1)) None = after.
Proof.
  rewrite slice_from.
  - rewrite interval_to_end.
    replace (Z.to_nat (len before + 1)) with (List.length (before ++ [x]))
      by (unfold len; rewrite length_app; simpl; lia).
    change (x :: after) with ([x] ++ after)%list.
    rewrite app_assoc, skipn_app, skipn_all, Nat.sub_diag. reflexivity.
  - unfold len. rewrite length_app. simpl. lia.
Qed.

Lemma lines_from_one_line rest : forall s cur,
  Spec.one_line s = true ->
  lines_from cur (s ++ String LF rest)
  = (cur ++ s ++ String LF EmptyString) :: lines_from EmptyString rest.
Proof.
  induction s as [|c s IH]; intros cur H.
  - reflexivity.
  - cbn [Spec.one_line] in H.
    apply andb_true_iff in H as [H Hs]. apply andb_true_iff in H as [Hlf Hcr].
    apply negb_true_iff in Hlf, Hcr.
    change (String c s ++ String LF rest) with (String c (s ++ String LF rest)).
    cbn [lines_from]. rewrite Hlf, Hcr, (IH _ Hs). f_equal.
    now rewrite append_assoc.
Qed.

(** A line feed ends a line wherever it stands: the lines behind it are
    those of the text behind it. *)
Lemma lines_from_line_feed_upto rest : forall n content cur,
  (String.length content <= n)%nat ->
  lines_from cur (content ++ String LF rest)
  = (lines_from cur (content ++ String LF EmptyString)
     ++ lines_from EmptyString rest)%list.
Proof.
  induction n as [|n IH]; intros [|c s] cur Hlen; try (simpl in Hlen; lia);
    try reflexivity.
  simpl in Hlen.
  change (String c s ++ String LF rest) with (String c (s ++ String LF rest)).
  change (String c s ++ String LF EmptyString)
    with (String c (s ++ String LF EmptyString)).
  cbn [lines_from].
  destruct (Ascii.eqb c LF).
  - rewrite (IH s) by lia. reflexivity.
  - destruct (Ascii.eqb c CR).
    + destruct s as [|c' s'].
      * reflexivity.
      * simpl in Hlen.
        change (String c' s' ++ String LF rest) with (String c' (s' ++ String LF rest)).
        change (String c' s' ++ String LF EmptyString)
          with (String c' (s' ++ String LF EmptyString)).
        cbv iota.
        destruct (Ascii.eqb c' LF).
        -- rewrite (IH s') by lia. reflexivity.
        -- change (String c' (s' ++ String LF rest))
             with (String c' s' ++ String LF rest).
           rewrite (IH (String c' s')) by (simpl; lia). reflexivity.
    + rewrite (IH s) by lia. reflexivity.
Qed.

Lemma lines_from_line_feed content rest :
  file_lines (content ++ String LF rest)
  = (file_lines (content ++ String LF EmptyString) ++ file_lines rest)%list.
Proof. apply (lines_from_line_feed_upto rest (String.length content)). lia. Qed.

Lemma fold_last_app {X} (l : list X) (a : X) acc :
  fold_left (fun _ line => Some line) (l ++ [a]) acc = Some a.
Proof. now rewrite fold_left_app. Qed.

(** The last line of a text that ends in a full line. *)
Lemma tail_last_line written line :
  Spec.one_line line = true ->
  tail (written ++ String LF (line ++ String LF EmptyString))
  = Some (line ++ String LF EmptyString).
Proof.
  intros Hline. unfold tail. rewrite lines_from_line_feed.
  unfold file_lines at 2. rewrite (lines_from_one_line _ _ _ Hline).
  apply fold_last_app.
Qed.

(** [str.strip] removes the white space around a string. *)
Lemma isspace_white c : isspace c = Spec.white c.
Proof. destruct c as [[] [] [] [] [] [] [] []]; reflexivity. Qed.

Lemma rstrip_nil_white : forall s, rstrip s = EmptyString <-> Spec.all_white s = true.
Proof.
  induction s as [|c s IH]; [split; reflexivity|].
  cbn [rstrip Spec.all_white]. rewrite <- isspace_white.
  destruct (rstrip s) as [|c' r].
  - assert (Hs : Spec.all_white s = true) by now apply IH.
    rewrite Hs, andb_true_r. destruct (isspace c); split; congruence.
  - assert (Hs : Spec.all_white s = false).
    { destruct (Spec.all_white s); [|reflexivity].
      assert (String c' r = EmptyString) by now apply IH. discriminate. }
    rewrite Hs, andb_false_r. split; discriminate.
Qed.

Lemma rstrip_drop_white_end : forall s, rstrip s = Spec.drop_white_end s.
Proof.
  induction s as [|c s IH]; [reflexivity|].
  cbn [rstrip Spec.drop_white_end Spec.all_white]. rewrite <- isspace_white, <- IH.
  destruct (rstrip s) as [|c' r] eqn:Hr.
  - assert (Hs : Spec.all_white s = true) by now apply rstrip_nil_white.
    rewrite Hs, andb_true_r. now destruct (isspace c).
  - assert (Hs : Spec.all_white s = false).
    { destruct (Spec.all_white s) eqn:Hw; [|reflexivity].
      apply rstrip_nil_white in Hw. congruence. }
    now rewrite Hs, andb_false_r.
Qed.

Lemma lstrip_drop_white : forall s, lstrip s = Spec.drop_white s.
Proof.
  induction s as [|c s IH]; [reflexivity|].
  cbn [lstrip Spec.drop_white]. rewrite <- isspace_white, IH. reflexivity.
Qed.

Lemma strip_trim s : strip s = Spec.trim s.
Proof.
  unfold strip, Spec.trim. now rewrite rstrip_drop_white_end, lstrip_drop_white.
Qed.

End Checkpoint.

(** C1. Checkpoint resolution, as the code reads the identifier.  For
    every shard and every state of the output file: when no output file
    exists, [reach_current] returns the full shard; when the file has a
    last line, the identifier it reads is the first field of that line
    (the text in front of its first comma) without the white space around
    it; when that identifier is one of the shard, [reach_current] returns
    exactly the part of the shard strictly after its first occurrence;
    when it is none of the shard, it returns the full shard unchanged
    (and so it does for a file without any line).  It never raises.  The
    last line is the text between the last two line ends of a file that
    ends in one (all of the text, when it has no other line end); an
    empty file has no last line. *)
Theorem reach_current_resolves :
  forall (shard : list string) (output : option string),
    (output = None -> ScrapeNoRestart.reach_current output shard = Ok shard) /\
    (forall content,
       output = Some content ->
       ScrapeNoRestart.tail content = None ->
       ScrapeNoRestart.reach_current output shard = Ok shard) /\
    (forall content last_line,
       output = Some content ->
       ScrapeNoRestart.tail content = Some last_line ->
       let final_id := Spec.first_field last_line in
       (In final_id shard ->
        exists before after,
          shard = (before ++ final_id :: after)%list /\
          ~ In final_id before /\
          ScrapeNoRestart.reach_current output shard = Ok after) /\
       (~ In final_id shard ->
        ScrapeNoRestart.reach_current output shard = Ok shard)) /\
    ScrapeNoRestart.tail EmptyString = None /\
    (forall written line,
       Spec.one_line line = true ->
       ScrapeNoRestart.tail (line ++ String ScrapeNoRestart.LF EmptyString)
       = Some (line ++ String ScrapeNoRestart.LF EmptyString) /\
       ScrapeNoRestart.tail
         (written ++ String ScrapeNoRestart.LF (line ++ String ScrapeNoRestart.LF EmptyString))
       = Some (line ++ String ScrapeNoRestart.LF EmptyString)).
Proof.
  intros shard output. split; [|split; [|split; [|split]]].
  - intros ->. reflexivity.
  - intros content -> Htail. unfold ScrapeNoRestart.reach_current.
    now rewrite Htail.
  - intros content last_line -> Htail final_id.
    unfold ScrapeNoRestart.reach_current. rewrite Htail.
    rewrite (tail_truthy _ _ Htail), getitem_split_0. cbn [bind].
    rewrite strip_trim.
    fold (Spec.first_field last_line). fold final_id. split.
    + intros Hin.
      destruct (first_occurrence _ _ Hin) as (before & after & Heq & Hnot).
      exists before, after. split; [exact Heq | split; [exact Hnot|]].
      rewrite Heq at 1. rewrite index_found by exact Hnot.
      rewrite Heq. now rewrite slice_after.
    + intros Hnot. now rewrite index_absent.
  - reflexivity.
  - intros written line Hline. split; [|now apply tail_last_line].
    unfold ScrapeNoRestart.tail, ScrapeNoRestart.file_lines.
    now rewrite (lines_from_one_line _ _ _ Hline).
Qed.

(** The theorem on the output of three completed identifiers and the
    shard [a, b, c, d, e]: the work left is [d, e]. *)
Lemma reach_current_resolves_witness :
  ScrapeNoRestart.reach_current
    (Some ("replay_tag,side" ++ String "010" ("a,1" ++ String "010"
            ("b,0" ++ String "010" ("c,1" ++ String "010" "")))))
    ["a"; "b"; "c"; "d"; "e"]
  = Ok ["d"; "e"].
Proof.
  destruct (reach_current_resolves ["a"; "b"; "c"; "d"; "e"]
              (Some ("replay_tag,side" ++ String "010" ("a,1" ++ String "010"
                      ("b,0" ++ String "010" ("c,1" ++ String "010" ""))))))
    as (_ & _ & H & _).
  destruct (H _ ("c,1" ++ String "010" "") eq_refl eq_refl) as [Hin _].
  destruct Hin as (before & after & _ & _ & Hres).
  - vm_compute. auto.
  - rewrite Hres. vm_compute in Hres. symmetry. exact Hres.
Defined.

(** C1, as stated, fails where the first field has white space around
    it: the last line [ c,1] has the first field [ c], which is an
    identifier of the shard [[ c; d]], yet the identifier looked for is
    [c], which is none, and the whole shard is returned instead of
    [[d]]. *)
Lemma first_field_is_stripped :
  Spec.before_first "," (" c,1" ++ String "010" "") = " c" /\
  existsb (String.eqb " c") [" c"; "d"] = true /\
  Spec.first_field (" c,1" ++ String "010" "") = "c" /\
  ScrapeNoRestart.reach_current (Some (" c,1" ++ String "010" "")) [" c"; "d"]
  = Ok [" c"; "d"].
Proof. repeat split. Qed.

(** ** [str.split]: the last piece *)

Section SplitLast.

Lemma prefix_app (a r : string) : prefix a (a ++ r) = true.
Proof.
  induction a as [|x a IH]; simpl; [now destruct r|].
  destruct (ascii_dec x x); [exact IH | congruence].
Qed.

Lemma prefix_inv : forall a s, prefix a s = true -> exists r, s = a ++ r.
Proof.
  induction a as [|x a IH]; intros s H.
  - exists s. reflexivity.
  - destruct s as [|y s]; simpl in H; [discriminate|].
    destruct (ascii_dec x y) as [->|]; [|discriminate].
    destruct (IH _ H) as [r ->]. now exists r.
Qed.

(** A prefix of [b ++ r] that is at least as long as [b] starts with [b]. *)
Lemma prefix_app_short : forall b a r,
  prefix a (b ++ r) = true -> (String.length b <= String.length a)%nat ->
  prefix b a = true.
Proof.
  induction b as [|y b IH]; intros a r H Hlen; [now destruct a|].
  destruct a as [|x a]; simpl in *; [lia|].
  destruct (ascii_dec x y) as [->|]; [|discriminate].
  destruct (ascii_dec y y); [|congruence].
  apply (IH a r H). lia.
Qed.

Lemma drop_app : forall j a r,
  (j <= String.length a)%nat -> Spec.drop j (a ++ r) = Spec.drop j a ++ r.
Proof.
  induction j as [|j IH]; intros [|x a] r H; simpl in *; try reflexivity; try lia.
  apply IH. lia.
Qed.

Lemma length_drop : forall j a,
  String.length (Spec.drop j a) = (String.length a - j)%nat.
Proof.
  induction j as [|j IH]; intros [|x a]; simpl; try reflexivity; try lia.
  apply IH.
Qed.

Lemma drop_nil j : Spec.drop j EmptyString = EmptyString.
Proof. now destruct j. Qed.

Variable sep : string.
Hypothesis sep_unbordered : Spec.unbordered sep = true.
Hypothesis sep_nonempty : (1 <= String.length sep)%nat.

(** No second occurrence starts inside an occurrence. *)
Lemma no_overlap s j :
  prefix sep s = true -> (0 < j < String.length sep)%nat ->
  prefix sep (Spec.drop j s) = false.
Proof.
  intros Hs Hj. destruct (prefix sep (Spec.drop j s)) eqn:Hd; [|reflexivity].
  destruct (prefix_inv _ _ Hs) as [r ->].
  rewrite drop_app in Hd by lia.
  apply prefix_app_short in Hd; [|rewrite length_drop; lia].
  pose proof sep_unbordered as U. unfold Spec.unbordered in U.
  rewrite forallb_forall in U.
  specialize (U j ltac:(apply in_seq; lia)).
  rewrite Hd in U. discriminate.
Qed.

Lemma after_last_drop : forall m s,
  (forall j, (j < m)%nat -> prefix sep (Spec.drop j s) = false) ->
  Spec.after_last sep s = Spec.after_last sep (Spec.drop m s).
Proof.
  induction m as [|m IH]; intros s H; [now destruct s|].
  destruct s as [|c s]; [reflexivity|].
  cbn [Spec.after_last Spec.drop].
  pose proof (H 0%nat ltac:(lia)) as H0.
  change (Spec.drop 0 (String c s)) with (String c s) in H0. rewrite H0.
  rewrite <- IH by (intros j Hj; apply (H (S j)); lia).
  now destruct (Spec.after_last sep s).
Qed.

Lemma split_from_nonempty : forall s k cur, split_from sep k cur s <> [].
Proof.
  induction s as [|c s IH]; intros k cur; cbn [split_from]; [discriminate|].
  destruct k; [|apply IH].
  destruct (prefix sep (String c s)); [discriminate | apply IH].
Qed.

Lemma last_cons {X} (a : X) l d : l <> [] -> last (a :: l) d = last l d.
Proof. now destruct l. Qed.

Lemma split_from_last d : forall s k cur,
  last (split_from sep k cur s) d =
  match Spec.after_last sep (Spec.drop k s) with
  | Some t => t
  | None => cur ++ Spec.drop k s
  end.
Proof.
  induction s as [|c s IH]; intros k cur.
  - rewrite drop_nil. simpl. now rewrite append_nil_r.
  - destruct k as [|k]; cbn [split_from Spec.drop]; [|apply IH].
    cbn [Spec.after_last].
    destruct (prefix sep (String c s)) eqn:Hp.
    + rewrite last_cons by apply split_from_nonempty.
      rewrite IH. 
      rewrite (after_last_drop (String.length sep - 1) s).
      * replace (Spec.drop (String.length sep) (String c s))
          with (Spec.drop (String.length sep - 1) s)
          by (destruct (String.length sep); [lia | simpl; now rewrite Nat.sub_0_r]).
        now destruct (Spec.after_last sep (Spec.drop (String.length sep - 1) s)).
      * intros j Hj.
        change (Spec.drop j s) with (Spec.drop (S j) (String c s)).
        apply no_overlap; [exact Hp | lia].
    + rewrite IH. cbn [Spec.drop].
      replace (Spec.drop 0 s) with s by now destruct s.
      destruct (Spec.after_last sep s); [reflexivity|].
      now rewrite append_assoc.
Qed.

Lemma nth_error_last {X} d : forall l : list X,
  l <> [] -> nth_error l (List.length l - 1) = Some (last l d).
Proof.
  induction l as [|a l IH]; intros H; [congruence|].
  destruct l as [|b l]; [reflexivity|].
  specialize (IH ltac:(discriminate)).
  simpl in *. now rewrite Nat.sub_0_r in IH.
Qed.

Lemma getitem_last {X} d (l : list X) :
  l <> [] -> getitem l (-1) = Ok (last l d).
Proof.
  intros H. unfold getitem. change (-1 <? 0) with true. cbv iota.
  pose proof (nth_error_last d l H) as Hlast. unfold len.
  assert (List.length l <> 0%nat) by (destruct l; [congruence | discriminate]).
  destruct (Z.ltb_spec (Z.of_nat (List.length l) + -1) 0); [lia|].
  replace (Z.to_nat (Z.of_nat (List.length l) + -1))
    with (List.length l - 1)%nat by lia.
  now rewrite Hlast.
Qed.

(** [s.split(sep)[-1]] never raises: it is the text behind the last
    [sep], all of [s] when [sep] does not occur. *)
Lemma getitem_split_last s :
  getitem (split sep s) (-1) = Ok (Spec.after_marker sep s).
Proof.
  unfold split. rewrite (getitem_last EmptyString) by apply split_from_nonempty.
  rewrite split_from_last. unfold Spec.after_marker.
  replace (Spec.drop 0 s) with s by now destruct s.
  reflexivity.
Qed.

End SplitLast.

(** ** Loops, indexing and sorting *)

Section Loops.
Context {A : Type}.

Lemma getitem_nat (l : list A) (i : nat) :
  getitem l (Z.of_nat i) =
  match nth_error l i with
  | Some a => Ok a
  | None => Raise IndexError
  end.
Proof.
  assert (E : (Z.of_nat i <? 0) = false) by (apply Z.ltb_ge; lia).
  unfold getitem. rewrite E. cbv zeta. rewrite E.
  now rewrite Nat2Z.id.
Qed.

Lemma getitem_raises (l : list A) (i : Z) e :
  getitem l i = Raise e -> e = IndexError.
Proof.
  unfold getitem.
  destruct ((if i <? 0 then len l + i else i) <? 0); [congruence|].
  destruct (nth_error l _); congruence.
Qed.

Variable body : Z -> result A.

(** A loop that ends normally ran its body at every index, in order. *)
Lemma for_each_seq_ok : forall n start rows,
  ScrapeNoRestart.for_each body (map Z.of_nat (seq start n)) = Ok rows ->
  List.length rows = n /\
  forall i, (i < n)%nat ->
    exists r, nth_error rows i = Some r /\ body (Z.of_nat (start + i)) = Ok r.
Proof.
  induction n as [|n IH]; intros start rows H; simpl in H.
  - injection H as <-. split; [reflexivity | intros i Hi; lia].
  - destruct (body (Z.of_nat start)) as [a|e] eqn:Hb; [|discriminate].
    simpl in H.
    destruct (ScrapeNoRestart.for_each body (map Z.of_nat (seq (S start) n)))
      as [rest|e] eqn:Hrest; [|discriminate].
    injection H as <-. destruct (IH _ _ Hrest) as [Hlen Hnth].
    split; [simpl; now rewrite Hlen|].
    intros [|i] Hi.
    + exists a. now rewrite Nat.add_0_r.
    + destruct (Hnth i ltac:(lia)) as (r & Hr & Hbr).
      exists r. split; [exact Hr|]. now rewrite Nat.add_succ_r.
Qed.

(** A loop stops with the exception of the first index whose body
    raises. *)
Lemma for_each_seq_raise : forall n start k e,
  (k < n)%nat ->
  (forall j, (j < k)%nat -> exists r, body (Z.of_nat (start + j)) = Ok r) ->
  body (Z.of_nat (start + k)) = Raise e ->
  ScrapeNoRestart.for_each body (map Z.of_nat (seq start n)) = Raise e.
Proof.
  induction n as [|n IH]; intros start k e Hk Hbefore Hraise; [lia|].
  simpl. destruct k as [|k].
  - rewrite Nat.add_0_r in Hraise. now rewrite Hraise.
  - destruct (Hbefore 0%nat ltac:(lia)) as [r Hr].
    rewrite Nat.add_0_r in Hr. rewrite Hr. simpl.
    rewrite (IH (S start) k e); [reflexivity | lia | |].
    + intros j Hj. destruct (Hbefore (S j) ltac:(lia)) as [r' Hr'].
      exists r'. now rewrite Nat.add_succ_r in Hr'.
    + now rewrite Nat.add_succ_r in Hraise.
Qed.

(** A loop raises only what its body raised at some index. *)
Lemma for_each_seq_raised : forall n start e,
  ScrapeNoRestart.for_each body (map Z.of_nat (seq start n)) = Raise e ->
  exists k, (k < n)%nat /\ body (Z.of_nat (start + k)) = Raise e.
Proof.
  induction n as [|n IH]; intros start e H; simpl in H; [discriminate|].
  destruct (body (Z.of_nat start)) as [a|e'] eqn:Hb; simpl in H.
  - destruct (ScrapeNoRestart.for_each body (map Z.of_nat (seq (S start) n)))
      as [rest|e''] eqn:Hrest; [discriminate|].
    injection H as ->. destruct (IH _ _ Hrest) as (k & Hk & Hbk).
    exists (S k). split; [lia|]. now rewrite Nat.add_succ_r.
  - injection H as ->. exists 0%nat. split; [lia|]. now rewrite Nat.add_0_r.
Qed.

End Loops.

Section Sorting.
Context {A : Type}.
Variable key : A -> result Z.

Lemma keyed_spec : forall l kl,
  keyed key l = Ok kl ->
  map snd kl = l /\ Forall (fun ka => key (snd ka) = Ok (fst ka)) kl.
Proof.
  induction l as [|a l IH]; intros kl H; simpl in H.
  - injection H as <-. split; constructor.
  - destruct (key a) as [k|e] eqn:Hk; [|discriminate]. simpl in H.
    destruct (keyed key l) as [r|e] eqn:Hr; [|discriminate].
    injection H as <-. destruct (IH _ eq_refl) as [Hmap Hall].
    split; [simpl; now rewrite Hmap | constructor; [exact Hk | exact Hall]].
Qed.

(** [sorted] raises exactly when a key does, and then what the first
    failing key raised. *)
Lemma keyed_raise : forall l e,
  keyed key l = Raise e -> exists a, In a l /\ key a = Raise e.
Proof.
  induction l as [|a l IH]; intros e H; simpl in H; [discriminate|].
  destruct (key a) as [k|e'] eqn:Hk; simpl in H.
  - destruct (keyed key l) as [r|e''] eqn:Hr; [discriminate|].
    injection H as ->. destruct (IH _ eq_refl) as (b & Hin & Hb).
    exists b. split; [now right | exact Hb].
  - injection H as ->. exists a. split; [now left | exact Hk].
Qed.

Lemma insert_perm (k : Z) (a : A) : forall l,
  Permutation ((k, a) :: l) (insert_by_key k a l).
Proof.
  induction l as [|[k' a'] l IH]; simpl; [reflexivity|].
  destruct (k <=? k'); [reflexivity|].
  etransitivity; [apply perm_swap | now apply perm_skip].
Qed.

Lemma sort_keyed_perm : forall l : list (Z * A), Permutation l (sort_keyed l).
Proof.
  induction l as [|[k a] l IH]; simpl; [constructor|].
  etransitivity; [apply perm_skip, IH | apply insert_perm].
Qed.

Lemma insert_sorted (k : Z) (a : A) : forall l,
  Sorted Z.le (map fst l) -> Sorted Z.le (map fst (insert_by_key k a l)).
Proof.
  induction l as [|[k' a'] l IH]; intros Hs; simpl.
  - repeat constructor.
  - destruct (Z.leb_spec k k').
    + simpl. constructor; [exact Hs | constructor; exact H].
    + simpl. inversion Hs as [|? ? Hs' Hhd]; subst.
      constructor; [now apply IH|].
      destruct l as [|[k'' a''] l]; simpl.
      * constructor. lia.
      * destruct (Z.leb_spec k k''); simpl; constructor; [lia|].
        now inversion Hhd.
Qed.

Lemma sort_keyed_sorted : forall l : list (Z * A),
  Sorted Z.le (map fst (sort_keyed l)).
Proof.
  induction l as [|[k a] l IH]; simpl; [constructor | now apply insert_sorted].
Qed.

(** What [sorted] returns: the same elements, their keys ascending. *)
Lemma sorted_spec l l' :
  sorted key l = Ok l' ->
  Permutation l l' /\
  exists keys, Forall2 (fun a k => key a = Ok k) l' keys /\ Sorted Z.le keys.
Proof.
  unfold sorted. intros H.
  destruct (keyed key l) as [kl|e] eqn:Hk; [|discriminate].
  injection H as <-. destruct (keyed_spec _ _ Hk) as [Hmap Hall].
  split.
  - rewrite <- Hmap. apply Permutation_map, sort_keyed_perm.
  - exists (map fst (sort_keyed kl)). split; [|apply sort_keyed_sorted].
    assert (Hall' : Forall (fun ka => key (snd ka) = Ok (fst ka)) (sort_keyed kl))
      by (eapply Permutation_Forall; [apply sort_keyed_perm | exact Hall]).
    induction Hall'; simpl; constructor; assumption.
Qed.

Lemma sorted_length l l' :
  sorted key l = Ok l' -> List.length l' = List.length l.
Proof.
  intros H. symmetry. apply Permutation_length. now apply sorted_spec.
Qed.

End Sorting.

(** ** Extractor and Paired-Sequence Reconciler *)

Section Reconciler.
Import ScrapeNoRestart.

Lemma eq_value_spec a b : eq_value a b = true <-> a = b.
Proof.
  destruct a as [s|], b as [t|]; simpl; try (split; congruence).
  rewrite String.eqb_eq. split; congruence.
Qed.

Lemma eq_value_false a b : eq_value a b = false <-> a <> b.
Proof.
  rewrite <- eq_value_spec. destruct (eq_value a b); split; congruence.
Qed.

(** The derived name of an event whose image source is present. *)
Lemma ability_name_some s :
  ability_name (Some s) =
  Ok ("ability-" ++ Spec.before_first ".png" (Spec.after_marker "ability-" s)).
Proof.
  unfold ability_name.
  rewrite getitem_split_last by (reflexivity || (simpl; lia)).
  cbn [bind]. now rewrite getitem_split_0.
Qed.

Lemma merge_at_nth tag ces pes i ce pe :
  nth_error ces i = Some ce -> nth_error pes i = Some pe ->
  merge_at tag ces pes (Z.of_nat i) = merge_events tag (Z.of_nat i) ce pe.
Proof.
  intros Hc Hp. unfold merge_at. rewrite !getitem_nat, Hc, Hp. reflexivity.
Qed.

Lemma merge_events_mismatch tag i ce pe :
  ce_time ce <> pe_time pe ->
  merge_events tag i ce pe =
  Raise (ValueError (TimeMismatch tag (Z.to_nat i) (ce_time ce) (pe_time pe))).
Proof.
  intros H%eq_value_false. unfold merge_events. now rewrite H.
Qed.

Lemma merge_events_ok tag i ce pe r :
  merge_events tag i ce pe = Ok r ->
  ce_time ce = pe_time pe /\
  replay_tag r = tag /\ side r = ce_side ce /\ time r = ce_time ce /\
  isAbility r = ce_isAbility ce /\
  (ce_isAbility ce = Some "1" ->
   x r = None /\ y r = None /\
   exists image_src,
     ce_image_src ce = Some image_src /\
     card_name r =
     Some ("ability-" ++
           Spec.before_first ".png" (Spec.after_marker "ability-" image_src))) /\
  (ce_isAbility ce <> Some "1" ->
   card_name r = ce_card_name ce /\ x r = pe_x pe /\ y r = pe_y pe).
Proof.
  unfold merge_events. intros H.
  destruct (eq_value (ce_time ce) (pe_time pe)) eqn:Ht; [|discriminate].
  apply eq_value_spec in Ht. cbn [negb] in H.
  destruct (eq_value (ce_isAbility ce) (Some "1")) eqn:Ha.
  - apply eq_value_spec in Ha.
    destruct (ce_image_src ce) as [s|] eqn:Hs; [|discriminate].
    rewrite ability_name_some in H. injection H as <-. cbn [bind] in *.
    do 5 (split; [reflexivity || assumption|]).
    split; [|congruence].
    intros _. do 2 (split; [reflexivity|]). now exists s.
  - apply eq_value_false in Ha. injection H as <-.
    do 5 (split; [reflexivity || assumption|]).
    split; [congruence|]. intros _. now repeat split.
Qed.

Lemma merge_events_total tag i ce pe :
  ce_time ce = pe_time pe ->
  (ce_isAbility ce = Some "1" -> ce_image_src ce <> None) ->
  exists r, merge_events tag i ce pe = Ok r.
Proof.
  intros Ht%eq_value_spec Hsrc. unfold merge_events. rewrite Ht. cbn [negb].
  destruct (eq_value (ce_isAbility ce) (Some "1")) eqn:Ha; [|eauto].
  apply eq_value_spec in Ha.
  destruct (ce_image_src ce) as [s|]; [|now destruct (Hsrc Ha)].
  rewrite ability_name_some. simpl. eauto.
Qed.

Lemma merge_events_raise tag i ce pe e :
  merge_events tag i ce pe = Raise e ->
  (ce_time ce <> pe_time pe /\
   e = ValueError (TimeMismatch tag (Z.to_nat i) (ce_time ce) (pe_time pe))) \/
  (ce_isAbility ce = Some "1" /\ ce_image_src ce = None /\ e = AttributeError).
Proof.
  unfold merge_events. intros H.
  destruct (eq_value (ce_time ce) (pe_time pe)) eqn:Ht; cbn [negb] in H.
  - right. destruct (eq_value (ce_isAbility ce) (Some "1")) eqn:Ha; [|discriminate].
    apply eq_value_spec in Ha.
    destruct (ce_image_src ce) as [s|]; [now rewrite ability_name_some in H|].
    simpl in H. injection H as <-. auto.
  - left. apply eq_value_false in Ht. injection H as <-. auto.
Qed.

Lemma len_eqb {X Y} (l : list X) (m : list Y) :
  (len l =? len m) = (List.length l =? List.length m)%nat.
Proof.
  unfold len.
  destruct (Z.eqb_spec (Z.of_nat (List.length l)) (Z.of_nat (List.length m))),
           (Nat.eqb_spec (List.length l) (List.length m)); lia || reflexivity.
Qed.

Lemma range_len {X} (l : list X) :
  range (len l) = map Z.of_nat (seq 0 (List.length l)).
Proof. unfold range, len. now rewrite Nat2Z.id. Qed.

Lemma reconcile_length_mismatch ces pes tag :
  List.length ces <> List.length pes ->
  reconcile ces pes tag =
  Raise (ValueError (LengthMismatch tag (List.length ces) (List.length pes))).
Proof.
  intros H. unfold reconcile. rewrite len_eqb.
  now destruct (Nat.eqb_spec (List.length ces) (List.length pes)).
Qed.

Lemma reconcile_same_length ces pes tag :
  List.length ces = List.length pes ->
  reconcile ces pes tag =
  for_each (merge_at tag ces pes) (map Z.of_nat (seq 0 (List.length ces))).
Proof.
  intros H. unfold reconcile. rewrite len_eqb, range_len.
  now destruct (Nat.eqb_spec (List.length ces) (List.length pes)).
Qed.

Lemma reconcile_ok ces pes tag rows :
  reconcile ces pes tag = Ok rows ->
  List.length ces = List.length pes /\
  List.length rows = List.length ces /\
  forall i ce pe,
    nth_error ces i = Some ce -> nth_error pes i = Some pe ->
    exists r, nth_error rows i = Some r /\
              merge_events tag (Z.of_nat i) ce pe = Ok r.
Proof.
  intros H.
  destruct (Nat.eq_dec (List.length ces) (List.length pes)) as [Hlen|Hlen];
    [|now rewrite reconcile_length_mismatch in H].
  rewrite reconcile_same_length in H by exact Hlen.
  destruct (for_each_seq_ok _ _ _ _ H) as [Hrows Hnth].
  repeat split; [exact Hlen | exact Hrows |].
  intros i ce pe Hc Hp.
  assert (Hi : (i < List.length ces)%nat)
    by (apply nth_error_Some; congruence).
  destruct (Hnth i Hi) as (r & Hr & Hm).
  exists r. split; [exact Hr|].
  now rewrite <- (merge_at_nth tag ces pes i ce pe Hc Hp).
Qed.

(** The first index whose times differ is the one the exception names,
    unless a row before it could not be built. *)
Lemma reconcile_time_mismatch ces pes tag k ce pe :
  List.length ces = List.length pes ->
  nth_error ces k = Some ce -> nth_error pes k = Some pe ->
  ce_time ce <> pe_time pe ->
  (forall j cj pj, (j < k)%nat ->
     nth_error ces j = Some cj -> nth_error pes j = Some pj ->
     ce_time cj = pe_time pj /\
     (ce_isAbility cj = Some "1" -> ce_image_src cj <> None)) ->
  reconcile ces pes tag =
  Raise (ValueError (TimeMismatch tag k (ce_time ce) (pe_time pe))).
Proof.
  intros Hlen Hc Hp Hne Hbefore.
  assert (Hk : (k < List.length ces)%nat) by (apply nth_error_Some; congruence).
  rewrite reconcile_same_length by exact Hlen.
  apply for_each_seq_raise with (k := k); [exact Hk | |].
  - intros j Hj.
    destruct (nth_error ces j) as [cj|] eqn:Hcj;
      [|apply nth_error_None in Hcj; lia].
    destruct (nth_error pes j) as [pj|] eqn:Hpj;
      [|apply nth_error_None in Hpj; lia].
    simpl. rewrite (merge_at_nth tag ces pes j cj pj Hcj Hpj).
    destruct (Hbefore j cj pj Hj Hcj Hpj) as [Ht Hsrc].
    now apply merge_events_total.
  - simpl. rewrite (merge_at_nth tag ces pes k ce pe Hc Hp).
    rewrite merge_events_mismatch by exact Hne. now rewrite Nat2Z.id.
Qed.

(** What [reconcile] can raise. *)
Lemma reconcile_raise ces pes tag e :
  reconcile ces pes tag = Raise e ->
  e = ValueError (LengthMismatch tag (List.length ces) (List.length pes)) \/
  (exists k ct pt, e = ValueError (TimeMismatch tag k ct pt)) \/
  (e = AttributeError /\
   exists ce, In ce ces /\ ce_isAbility ce = Some "1" /\ ce_image_src ce = None).
Proof.
  intros H.
  destruct (Nat.eq_dec (List.length ces) (List.length pes)) as [Hlen|Hlen];
    [|rewrite reconcile_length_mismatch in H by exact Hlen; left; congruence].
  right. rewrite reconcile_same_length in H by exact Hlen.
  destruct (for_each_seq_raised _ _ _ _ H) as (k & Hk & Hb). simpl in Hb.
  destruct (nth_error ces k) as [ce|] eqn:Hc;
    [|apply nth_error_None in Hc; lia].
  destruct (nth_error pes k) as [pe|] eqn:Hp;
    [|apply nth_error_None in Hp; lia].
  rewrite (merge_at_nth tag ces pes k ce pe Hc Hp) in Hb.
  destruct (merge_events_raise _ _ _ _ _ Hb) as [[_ ->]|(Ha & Hs & ->)].
  - left. eauto.
  - right. split; [reflexivity|]. exists ce.
    split; [eapply nth_error_In; eassumption | auto].
Qed.

(** Two loops whose bodies agree up to [f] on values and [g] on
    exceptions end alike. *)
Lemma for_each_related {X Y} (f : X -> Y) (g : exn -> exn)
    (body : Z -> result X) (body' : Z -> result Y) :
  (forall i, body' i = match body i with
                       | Ok a => Ok (f a)
                       | Raise e => Raise (g e)
                       end) ->
  forall indices,
    for_each body' indices =
    match for_each body indices with
    | Ok l => Ok (map f l)
    | Raise e => Raise (g e)
    end.
Proof.
  intros Hbody. induction indices as [|i rest IH]; [reflexivity|].
  cbn [for_each]. rewrite Hbody, IH.
  destruct (body i) as [a|e]; [|reflexivity]. cbn [bind].
  now destruct (for_each body rest).
Qed.

(** [scrape.py] builds the rows of [parse_replay_html] without their tag,
    and fails with [AssertionError] where [parse_replay_html] raises one
    of its two [ValueError]s. *)
Lemma scrape_events_agree imgs divs tag :
  Scrape.events imgs divs =
  match parse_replay_html imgs divs tag with
  | Ok rows => Ok (map Spec.untagged rows)
  | Raise e => Raise (Spec.asserted e)
  end.
Proof.
  unfold Scrape.events, parse_replay_html.
  destruct (sorted _ (map card_event_of imgs)) as [ces|e] eqn:Hsort; cbn [bind].
  - unfold reconcile.
    destruct (Z.eqb_spec (len ces) (len (map placement_event_of divs))) as [Hlen|Hlen];
      cbn [negb]; [|reflexivity].
    rewrite <- Hlen. apply for_each_related. intros i.
    unfold Scrape.event_at, merge_at, merge_events.
    destruct (getitem ces i) as [ce|e] eqn:Hc;
      [|apply getitem_raises in Hc as ->; reflexivity].
    cbn [bind].
    destruct (getitem (map placement_event_of divs) i) as [pe|e] eqn:Hp;
      [|apply getitem_raises in Hp as ->; reflexivity].
    cbn [bind].
    destruct (eq_value (ce_time ce) (pe_time pe)); cbn [negb]; [|reflexivity].
    destruct (eq_value (ce_isAbility ce) (Some "1")); [|reflexivity].
    destruct (ce_image_src ce) as [src|]; [|reflexivity].
    rewrite ability_name_some. reflexivity.
  - unfold sorted in Hsort.
    destruct (keyed _ (map card_event_of imgs)) as [kl|e'] eqn:Hk; [discriminate|].
    injection Hsort as <-.
    destruct (keyed_raise _ _ _ Hk) as (a & _ & Ha).
    unfold int in Ha. destruct (ce_time a) as [t|].
    + destruct (int_literal t); [discriminate|]. now injection Ha as <-.
    + now injection Ha as <-.
Qed.

End Reconciler.

Section Occurrences.

Lemma after_last_occurs sep : forall s t,
  Spec.after_last sep s = Some t -> Spec.occurs sep s = true.
Proof.
  induction s as [|c s IH]; intros t H; [discriminate|].
  cbn [Spec.after_last Spec.occurs] in *.
  destruct (Spec.after_last sep s) as [u|].
  - rewrite (IH u eq_refl). apply orb_true_r.
  - destruct (prefix sep (String c s)); [reflexivity | discriminate].
Qed.

Lemma after_marker_absent sep s :
  Spec.occurs sep s = false -> Spec.after_marker sep s = s.
Proof.
  intros H. unfold Spec.after_marker.
  destruct (Spec.after_last sep s) as [t|] eqn:Ht; [|reflexivity].
  apply after_last_occurs in Ht. congruence.
Qed.

Lemma before_first_absent sep : forall s,
  Spec.occurs sep s = false -> Spec.before_first sep s = s.
Proof.
  induction s as [|c s IH]; intros H; [reflexivity|].
  cbn [Spec.occurs Spec.before_first] in *.
  apply orb_false_iff in H as [-> H]. now rewrite IH.
Qed.

Lemma prefix_app_long : forall a b r,
  (String.length a <= String.length b)%nat ->
  prefix a (b ++ r) = prefix a b.
Proof.
  induction a as [|x a IH]; intros b r H.
  - destruct b; simpl; [now destruct r | reflexivity].
  - destruct b as [|y b]; simpl in *; [lia|].
    destruct (ascii_dec x y); [apply IH; lia | reflexivity].
Qed.

(** Cutting at the first [sep] removes a suffix [sep] (and what follows
    it) when [sep] does not occur before it. *)
Lemma before_first_stem sep r :
  Spec.unbordered sep = true -> (1 <= String.length sep)%nat ->
  forall stem,
    Spec.occurs sep stem = false ->
    Spec.before_first sep (stem ++ sep ++ r) = stem.
Proof.
  intros Hu Hne. induction stem as [|c stem IH]; intros Hocc.
  - change (EmptyString ++ sep ++ r) with (sep ++ r).
    destruct sep as [|x sep']; [simpl in Hne; lia|].
    change (String x sep' ++ r) with (String x (sep' ++ r)).
    cbn [Spec.before_first].
    change (String x (sep' ++ r)) with (String x sep' ++ r).
    now rewrite prefix_app.
  - cbn [Spec.occurs] in Hocc. apply orb_false_iff in Hocc as [Hp Hocc].
    change (String c stem ++ sep ++ r) with (String c (stem ++ sep ++ r)).
    cbn [Spec.before_first].
    change (String c (stem ++ sep ++ r)) with (String c stem ++ sep ++ r).
    destruct (prefix sep (String c stem ++ sep ++ r)) eqn:Hpre.
    + exfalso.
      destruct (Nat.le_gt_cases (String.length sep) (String.length (String c stem)))
        as [Hle|Hgt].
      * rewrite prefix_app_long in Hpre by exact Hle. congruence.
      * pose proof (no_overlap sep Hu Hne _ (String.length (String c stem)) Hpre
                      ltac:(simpl in *; lia)) as Hno.
        rewrite drop_app in Hno by lia.
        replace (Spec.drop (String.length (String c stem)) (String c stem))
          with EmptyString in Hno.
        -- simpl in Hno. now rewrite prefix_app in Hno.
        -- clear. generalize (String c stem). intros s.
           induction s; simpl; [reflexivity | assumption].
    + now rewrite IH.
Qed.

End Occurrences.

(** ** Properties of the reconciler *)

(** C4. Reconciler invariants, as the code keeps them.  Let the card
    events be sorted by [int(time)] and the placement events be in
    document order.  [parse_replay_html] raises the length-mismatch
    [ValueError] whenever the two sequences have unequal lengths.  For
    equal lengths, whenever the time fields differ at some index it
    raises, and the exception is the time-mismatch [ValueError] naming the
    first such index [k], provided no ability event before [k] lacks its
    image source (the row of such an event raises first).  It returns
    merged records only when both invariants hold at every index, one
    record per index. *)
Theorem reconciler_invariants :
  forall imgs divs tag card_events,
    sorted (fun e => int (ScrapeNoRestart.ce_time e))
           (map ScrapeNoRestart.card_event_of imgs) = Ok card_events ->
    let placement_events := map ScrapeNoRestart.placement_event_of divs in
    (List.length card_events <> List.length placement_events ->
     ScrapeNoRestart.parse_replay_html imgs divs tag =
     Raise (ValueError (LengthMismatch tag (List.length card_events)
                                       (List.length placement_events)))) /\
    (List.length card_events = List.length placement_events ->
     forall k ce pe,
       nth_error card_events k = Some ce ->
       nth_error placement_events k = Some pe ->
       ScrapeNoRestart.ce_time ce <> ScrapeNoRestart.pe_time pe ->
       (exists e, ScrapeNoRestart.parse_replay_html imgs divs tag = Raise e) /\
       ((forall j cj pj, (j < k)%nat ->
           nth_error card_events j = Some cj ->
           nth_error placement_events j = Some pj ->
           ScrapeNoRestart.ce_time cj = ScrapeNoRestart.pe_time pj /\
           (ScrapeNoRestart.ce_isAbility cj = Some "1" ->
            ScrapeNoRestart.ce_image_src cj <> None)) ->
        ScrapeNoRestart.parse_replay_html imgs divs tag =
        Raise (ValueError (TimeMismatch tag k (ScrapeNoRestart.ce_time ce)
                                        (ScrapeNoRestart.pe_time pe))))) /\
    (forall rows,
       ScrapeNoRestart.parse_replay_html imgs divs tag = Ok rows ->
       List.length card_events = List.length placement_events /\
       List.length rows = List.length card_events /\
       forall i ce pe,
         nth_error card_events i = Some ce ->
         nth_error placement_events i = Some pe ->
         ScrapeNoRestart.ce_time ce = ScrapeNoRestart.pe_time pe).
Proof.
  intros imgs divs tag ces Hsort pes.
  unfold ScrapeNoRestart.parse_replay_html. rewrite Hsort. cbn [bind]. fold pes.
  assert (Hok : forall rows,
             ScrapeNoRestart.reconcile ces pes tag = Ok rows ->
             List.length ces = List.length pes /\
             List.length rows = List.length ces /\
             forall i ce pe,
               nth_error ces i = Some ce -> nth_error pes i = Some pe ->
               ScrapeNoRestart.ce_time ce = ScrapeNoRestart.pe_time pe).
  { intros rows H. destruct (reconcile_ok _ _ _ _ H) as (Hlen & Hrows & Hnth).
    repeat split; [exact Hlen | exact Hrows |].
    intros i ce pe Hc Hp. destruct (Hnth i ce pe Hc Hp) as (r & _ & Hm).
    now apply merge_events_ok in Hm. }
  split; [|split].
  - apply reconcile_length_mismatch.
  - intros Hlen k ce pe Hc Hp Hne. split.
    + destruct (ScrapeNoRestart.reconcile ces pes tag) as [rows|e] eqn:Hr;
        [|now exists e].
      destruct (Hok rows eq_refl) as (_ & _ & Hnth).
      now destruct (Hne (Hnth k ce pe Hc Hp)).
    + intros Hbefore. now apply reconcile_time_mismatch.
  - exact Hok.
Qed.

(** The theorem on two cards and two markers whose second times are 2
    and 3: the exception names index 1. *)
Lemma reconciler_invariants_witness :
  ScrapeNoRestart.parse_replay_html Sample.imgs Sample.divs_late "2PU89CL"
  = Raise (ValueError (TimeMismatch "2PU89CL" 1 (Some "2") (Some "3"))).
Proof.
  pose proof (reconciler_invariants Sample.imgs Sample.divs_late "2PU89CL" _ eq_refl)
    as (_ & Htime & _).
  destruct (Htime eq_refl 1%nat _ _ eq_refl eq_refl) as [_ H].
  - discriminate.
  - apply H. intros j cj pj Hj Hc Hp.
    assert (j = 0%nat) as -> by lia.
    injection Hc as <-. injection Hp as <-.
    split; [reflexivity | discriminate].
Defined.

(** C4, as stated, fails: the times differ at index 1, yet the exception
    raised names no index, since the ability at index 0 has no image
    source and its row raises [AttributeError] first. *)
Lemma time_mismatch_preempted :
  sorted (fun e => int (ScrapeNoRestart.ce_time e))
         (map ScrapeNoRestart.card_event_of Sample.imgs_no_src)
  = Ok (map ScrapeNoRestart.card_event_of Sample.imgs_no_src) /\
  option_map ScrapeNoRestart.img_data_t (nth_error Sample.imgs_no_src 1) = Some (Some "2") /\
  option_map ScrapeNoRestart.marker_data_t (nth_error Sample.divs_late 1) = Some (Some "3") /\
  ScrapeNoRestart.parse_replay_html Sample.imgs_no_src Sample.divs_late "2PU89CL"
  = Raise AttributeError.
Proof. repeat split. Qed.

(** C5. Output ordering.  The merged records of a successfully
    reconciled unit are in ascending order of their integer time: the
    card events are sorted by [int(time)] before the pairing, the sort
    keeps every card event, and each record takes its time from the card
    event of its index (which, the unit being reconciled, is also the
    time of the placement event of that index). *)
Theorem merged_records_ascending :
  forall imgs divs tag rows,
    ScrapeNoRestart.parse_replay_html imgs divs tag = Ok rows ->
    exists card_events times,
      sorted (fun e => int (ScrapeNoRestart.ce_time e))
             (map ScrapeNoRestart.card_event_of imgs) = Ok card_events /\
      Permutation (map ScrapeNoRestart.card_event_of imgs) card_events /\
      map ScrapeNoRestart.time rows = map ScrapeNoRestart.ce_time card_events /\
      Forall2 (fun t k => int t = Ok k) (map ScrapeNoRestart.time rows) times /\
      Sorted Z.le times.
Proof.
  intros imgs divs tag rows H. unfold ScrapeNoRestart.parse_replay_html in H.
  destruct (sorted _ (map ScrapeNoRestart.card_event_of imgs)) as [ces|e] eqn:Hsort;
    [|discriminate].
  cbn [bind] in H.
  destruct (sorted_spec _ _ _ Hsort) as (Hperm & times & Hkeys & Hsorted).
  destruct (reconcile_ok _ _ _ _ H) as (Hlen & Hrows & Hnth).
  assert (Htimes : map ScrapeNoRestart.time rows = map ScrapeNoRestart.ce_time ces).
  { apply nth_error_ext. intros i. rewrite !nth_error_map.
    destruct (nth_error ces i) as [ce|] eqn:Hc.
    - destruct (nth_error (map ScrapeNoRestart.placement_event_of divs) i)
        as [pe|] eqn:Hp.
      + destruct (Hnth i ce pe Hc Hp) as (r & -> & Hm).
        apply merge_events_ok in Hm. simpl. f_equal. tauto.
      + apply nth_error_None in Hp.
        assert (i < List.length ces)%nat by (apply nth_error_Some; congruence).
        lia.
    - apply nth_error_None in Hc.
      assert (nth_error rows i = None) as -> by (apply nth_error_None; lia).
      reflexivity. }
  exists ces, times. repeat split; try assumption.
  rewrite Htimes. clear -Hkeys.
  induction Hkeys; simpl; constructor; assumption.
Qed.

(** The theorem on the sample fragment: the records come out at times 1
    and 2. *)
Lemma merged_records_ascending_witness :
  exists rows times,
    ScrapeNoRestart.parse_replay_html Sample.imgs Sample.divs "2PU89CL" = Ok rows /\
    Forall2 (fun t k => int t = Ok k) (map ScrapeNoRestart.time rows) times /\
    Sorted Z.le times.
Proof.
  destruct (ScrapeNoRestart.parse_replay_html Sample.imgs Sample.divs "2PU89CL")
    as [rows|e] eqn:H; [|discriminate].
  destruct (merged_records_ascending _ _ _ _ H) as (ces & times & _ & _ & _ & H1 & H2).
  exists rows, times. repeat split; assumption.
Defined.

(** C9. Discriminator merge rule, as the code computes the name.  In a
    successfully reconciled unit there is one record per index; the
    record of index [i] is built from the card event [ce] (of the sorted
    card events) and the placement event [pe] of that index.  When the flag [isAbility] of [ce] is ["1"],
    [x] and [y] are null and [card_name] is ["ability-"] followed by the
    token of the image source: what stands behind the last ["ability-"]
    marker, cut where [".png"] begins.  Otherwise [card_name] is the card
    event's and [x], [y] are the placement event's, unchanged. *)
Theorem discriminator_merge_rule :
  forall imgs divs tag rows,
    ScrapeNoRestart.parse_replay_html imgs divs tag = Ok rows ->
    exists card_events,
      sorted (fun e => int (ScrapeNoRestart.ce_time e))
             (map ScrapeNoRestart.card_event_of imgs) = Ok card_events /\
      List.length rows = List.length card_events /\
      forall i ce pe,
        nth_error card_events i = Some ce ->
        nth_error (map ScrapeNoRestart.placement_event_of divs) i = Some pe ->
        exists r,
          nth_error rows i = Some r /\
          (ScrapeNoRestart.ce_isAbility ce = Some "1" ->
           ScrapeNoRestart.x r = None /\ ScrapeNoRestart.y r = None /\
           exists image_src,
             ScrapeNoRestart.ce_image_src ce = Some image_src /\
             ScrapeNoRestart.card_name r =
             Some ("ability-" ++
                   Spec.before_first ".png"
                     (Spec.after_marker "ability-" image_src))) /\
          (ScrapeNoRestart.ce_isAbility ce <> Some "1" ->
           ScrapeNoRestart.card_name r = ScrapeNoRestart.ce_card_name ce /\
           ScrapeNoRestart.x r = ScrapeNoRestart.pe_x pe /\
           ScrapeNoRestart.y r = ScrapeNoRestart.pe_y pe).
Proof.
  intros imgs divs tag rows H. unfold ScrapeNoRestart.parse_replay_html in H.
  destruct (sorted _ (map ScrapeNoRestart.card_event_of imgs)) as [ces|e] eqn:Hsort;
    [|discriminate].
  cbn [bind] in H.
  destruct (reconcile_ok _ _ _ _ H) as (Hlen & Hrows & Hnth).
  exists ces. repeat split; [exact Hrows|].
  intros i ce pe Hc Hp. destruct (Hnth i ce pe Hc Hp) as (r & Hr & Hm).
  exists r. split; [exact Hr|].
  apply merge_events_ok in Hm. tauto.
Qed.

(** The theorem on the sample fragment: the ability comes first, named
    from its image, without position; the knight follows with the
    position of the second marker. *)
Lemma discriminator_merge_rule_witness :
  exists r0 r1,
    ScrapeNoRestart.parse_replay_html Sample.imgs Sample.divs "2PU89CL" = Ok [r0; r1] /\
    ScrapeNoRestart.card_name r0 = Some "ability-archer-queen" /\
    ScrapeNoRestart.x r0 = None /\ ScrapeNoRestart.y r0 = None /\
    ScrapeNoRestart.card_name r1 = Some "knight" /\
    ScrapeNoRestart.x r1 = Some "9500" /\ ScrapeNoRestart.y r1 = Some "21500".
Proof.
  destruct (ScrapeNoRestart.parse_replay_html Sample.imgs Sample.divs "2PU89CL")
    as [rows|e] eqn:H; [|discriminate].
  destruct (discriminator_merge_rule _ _ _ _ H) as (ces & Hsort & Hlen & Hnth).
  injection Hsort as <-.
  destruct rows as [|r0 [|r1 [|r2 rows]]]; try discriminate.
  exists r0, r1. split; [reflexivity|].
  destruct (Hnth 0%nat _ _ eq_refl eq_refl) as (r & [= <-] & Hab & _).
  destruct (Hnth 1%nat _ _ eq_refl eq_refl) as (r & [= <-] & _ & Hcard).
  destruct (Hab eq_refl) as (Hx & Hy & src & [= <-] & Hname).
  destruct Hcard as (Hname1 & Hx1 & Hy1); [discriminate|].
  repeat split; assumption.
Defined.

(** C9, as stated, fails where [".png"] stands before the end of the
    token: the name is cut at the first [".png"], which is not the
    stripping of a [".png"] suffix.  Behind the marker of
    [ability-x.pngy.png] stands [x.pngy.png], which without its suffix is
    [x.pngy], and the code names the card [ability-x]; behind the marker
    of [.../ability-archer-queen.png?v=2] stands a token that does not end
    in [".png"], so that stripping the suffix leaves it whole, and the
    code names the card [ability-archer-queen]. *)
Lemma name_not_suffix_stripped :
  "ability-" ++ Spec.strip_suffix ".png" (Spec.after_marker "ability-" "ability-x.pngy.png")
  = "ability-x.pngy" /\
  ScrapeNoRestart.parse_replay_html Sample.imgs_marker_png_twice Sample.divs_one "2PU89CL"
  = Ok [ScrapeNoRestart.Row "2PU89CL" (Some "o") (Some "1") (Some "1")
          (Some "ability-x") None None] /\
  "ability-" ++ Spec.strip_suffix ".png"
                  (Spec.after_marker "ability-"
                     "/static/img/cards/ability-archer-queen.png?v=2")
  = "ability-archer-queen.png?v=2" /\
  ScrapeNoRestart.parse_replay_html Sample.imgs_versioned Sample.divs_one "2PU89CL"
  = Ok [ScrapeNoRestart.Row "2PU89CL" (Some "o") (Some "1") (Some "1")
          (Some "ability-archer-queen") None None].
Proof. repeat split. Qed.

(** C10. The derived name is total, as the code computes it.  For an
    ability event whose image source is present, the name derivation never
    raises, whether or not the source contains the ["ability-"] marker or
    [".png"]: neither index into the pieces of a split can fail.  When the
    marker does not occur, the name is ["ability-"] followed by the image
    source cut where its first [".png"] begins: the whole source when
    [".png"] does not occur, the source without its [".png"] suffix when
    [".png"] occurs nowhere before that suffix.  And [parse_replay_html]
    raises neither [AttributeError] nor [IndexError] when every ability
    image has a source. *)
Theorem ability_name_total :
  forall image_src : string,
    ScrapeNoRestart.ability_name (Some image_src) =
    Ok ("ability-" ++
        Spec.before_first ".png" (Spec.after_marker "ability-" image_src)) /\
    (Spec.occurs "ability-" image_src = false ->
     ScrapeNoRestart.ability_name (Some image_src) =
     Ok ("ability-" ++ Spec.before_first ".png" image_src) /\
     (Spec.occurs ".png" image_src = false ->
      ScrapeNoRestart.ability_name (Some image_src) = Ok ("ability-" ++ image_src)) /\
     (forall stem,
        image_src = stem ++ ".png" ->
        Spec.occurs ".png" stem = false ->
        ScrapeNoRestart.ability_name (Some image_src) = Ok ("ability-" ++ stem))) /\
    (forall imgs divs tag e,
       (forall i, In i imgs ->
          ScrapeNoRestart.data_ability i = Some "1" ->
          ScrapeNoRestart.src i <> None) ->
       ScrapeNoRestart.parse_replay_html imgs divs tag = Raise e ->
       e <> AttributeError /\ e <> IndexError).
Proof.
  intros image_src. split; [apply ability_name_some | split].
  - intros Hmarker. rewrite ability_name_some.
    rewrite (after_marker_absent _ _ Hmarker).
    split; [reflexivity | split].
    + intros Hpng. now rewrite before_first_absent.
    + intros stem -> Hstem.
      rewrite <- (append_nil_r ".png").
      rewrite before_first_stem; [reflexivity | reflexivity | simpl; lia | exact Hstem].
  - intros imgs divs tag e Hsrc H.
    unfold ScrapeNoRestart.parse_replay_html in H.
    destruct (sorted _ (map ScrapeNoRestart.card_event_of imgs)) as [ces|e'] eqn:Hsort.
    + cbn [bind] in H.
      destruct (reconcile_raise _ _ _ _ H)
        as [->|[(k & ct & pt & ->)|(-> & ce & Hin & Ha & Hnone)]];
        try (split; discriminate).
      exfalso. destruct (sorted_spec _ _ _ Hsort) as [Hperm _].
      apply (Permutation_in _ (Permutation_sym Hperm)) in Hin.
      apply in_map_iff in Hin as (i & <- & Hi).
      now apply (Hsrc i Hi Ha).
    + cbn [bind] in H. injection H as <-.
      unfold sorted in Hsort.
      destruct (keyed _ (map ScrapeNoRestart.card_event_of imgs)) as [kl|e''] eqn:Hk;
        [discriminate|].
      injection Hsort as <-.
      destruct (keyed_raise _ _ _ Hk) as (a & _ & Ha).
      unfold int in Ha. destruct (ScrapeNoRestart.ce_time a) as [t|].
      * destruct (int_literal t); [discriminate|].
        injection Ha as <-. split; discriminate.
      * injection Ha as <-. split; discriminate.
Qed.

(** The theorem on an image source without marker that ends in [.png]. *)
Lemma ability_name_total_witness :
  ScrapeNoRestart.ability_name (Some "/static/img/cards/knight.png")
  = Ok "ability-/static/img/cards/knight".
Proof.
  destruct (ability_name_total "/static/img/cards/knight.png") as (_ & H & _).
  destruct (H eq_refl) as (_ & _ & Hstem).
  exact (Hstem "/static/img/cards/knight" eq_refl eq_refl).
Defined.

(** C10, as stated, fails where [".png"] occurs before the end: the
    source [x.pngy.png] has no marker, its trailing [.png] removed it is
    [x.pngy], and the code names the card [ability-x]. *)
Lemma name_cut_at_first_png :
  Spec.occurs "ability-" "x.pngy.png" = false /\
  "ability-" ++ Spec.strip_suffix ".png" "x.pngy.png" = "ability-x.pngy" /\
  option_map (map ScrapeNoRestart.card_name)
    (match ScrapeNoRestart.parse_replay_html Sample.imgs_png_twice Sample.divs_one
             "2PU89CL" with
     | Ok rows => Some rows
     | Raise _ => None
     end)
  = Some [Some "ability-x"].
Proof. repeat split. Qed.

(** ** Batch Aggregator and Writer *)

Section Writer.
Import ScrapeNoRestart.

(** A tag can only have a frame in a non-empty [results]. *)
Lemma write_batch_rows batch_tags results p file :
  write_batch batch_tags results (p, file) =
  match Spec.batch_rows (batch_tags, results) with
  | None => (p, file)
  | Some rows =>
      (Progress_ false (total_rows_written p + len rows),
       to_csv rows (if first_write p then mode_w else mode_a) (first_write p) file)
  end.
Proof.
  unfold write_batch, Spec.batch_rows. cbn [fst snd].
  destruct results as [|kv results].
  - replace (flat_map _ batch_tags) with (@nil frame); [reflexivity|].
    induction batch_tags as [|t ts IH]; [reflexivity | exact IH].
  - now destruct (flat_map _ batch_tags).
Qed.

(** Once a run has written, each later batch appends its rows, without a
    header, behind what the file holds. *)
Lemma later_writes_append : forall batches n old,
  exists m,
    fold_left (fun st b => write_batch (fst b) (snd b) st) batches
              (Progress_ false n, Some old)
    = (Progress_ false m,
       Some (old ++ map Record_ (List.concat (Spec.somes (map Spec.batch_rows batches))))%list).
Proof.
  induction batches as [|[tags results] batches IH]; intros n old.
  - exists n. simpl. now rewrite app_nil_r.
  - cbn [fold_left fst snd map]. rewrite write_batch_rows.
    destruct (Spec.batch_rows (tags, results)) as [rows|]; cbn [Spec.somes].
    + cbn [first_write to_csv app].
      destruct (IH (total_rows_written (Progress_ false n) + len rows)
                   (old ++ map Record_ rows)%list) as [m ->].
      exists m. f_equal. f_equal. cbn [List.concat].
      now rewrite map_app, app_assoc.
    + apply IH.
Qed.

(** The file a run of [main] leaves: untouched when no batch has a
    frame; otherwise the header line of the first frames written and the
    rows of this run's batches in order, whatever the file held
    before. *)
Lemma main_writes_file batches file :
  snd (main_writes batches file) =
  match Spec.somes (map Spec.batch_rows batches) with
  | [] => file
  | first :: rest =>
      Some (header_line first :: map Record_ (List.concat (first :: rest)))
  end.
Proof.
  unfold main_writes. generalize 0 as n.
  induction batches as [|[tags results] batches IH]; intros n; [reflexivity|].
  cbn [fold_left fst snd map]. rewrite write_batch_rows.
  destruct (Spec.batch_rows (tags, results)) as [rows|]; cbn [Spec.somes].
  - cbn [first_write to_csv].
    destruct (later_writes_append batches (total_rows_written (Progress_ true n) + len rows)
                ([header_line rows] ++ map Record_ rows)%list) as [m ->].
    cbn [snd List.concat app]. now rewrite map_app.
  - apply IH.
Qed.

End Writer.

(** C2, where the code departs from it.  Whatever rows the output file
    holds when a run starts (a header and the row of replay [a], say,
    left by the run before), a run whose first batch brings the row of
    replay [b] leaves a file with a header and the row of [b] only: the
    first write of every run opens the file in mode [w]. *)
Theorem resumed_run_drops_earlier_rows :
  forall previous : list ScrapeNoRestart.csv_line,
    ScrapeNoRestart.main_writes [(["b"], [("b", [Sample.row_b])])] (Some previous)
    = (ScrapeNoRestart.Progress_ false 1,
       Some [ScrapeNoRestart.Header; ScrapeNoRestart.Record_ Sample.row_b]).
Proof.
  intros previous.
  pose proof (main_writes_file [(["b"], [("b", [Sample.row_b])])] (Some previous)) as H.
  destruct (ScrapeNoRestart.main_writes _ _) as [p file] eqn:E.
  cbn in H. subst file. f_equal.
  unfold ScrapeNoRestart.main_writes in E. cbn in E. now injection E as <-.
Qed.

(** ** Failure containment *)

Section Containment.

(** What the end of a fetch does to the shared state, whatever the fetch
    came to, and where it leaves the worker. *)
Lemma fetched_any name local_count tag outcome batch_size total_tags s :
  exists wk s',
    ScrapeNoRestart.fetched name local_count tag outcome batch_size total_tags s
    = (wk, s') /\
    ScrapeNoRestart.queue s' = ScrapeNoRestart.queue s /\
    ScrapeNoRestart.disk s' = ScrapeNoRestart.disk s /\
    ScrapeNoRestart.batch_completed s' = ScrapeNoRestart.batch_completed s + 1 /\
    ScrapeNoRestart.overall_completed s' = ScrapeNoRestart.overall_completed s + 1 /\
    ScrapeNoRestart.results s' =
      match outcome with
      | Ok df => dict_set tag df (ScrapeNoRestart.results s)
      | Raise _ => ScrapeNoRestart.results s
      end /\
    (exists later,
       ScrapeNoRestart.stdout s' =
       (ScrapeNoRestart.stdout s ++
        match outcome with
        | Ok _ => later
        | Raise e => ScrapeNoRestart.Failed name tag e :: later
        end)%list) /\
    ((ScrapeNoRestart.unfinished_tasks s' = ScrapeNoRestart.unfinished_tasks s - 1 /\
      (wk = ScrapeNoRestart.AtGet (local_count + 1) /\ local_count + 1 < 10 \/
       wk = ScrapeNoRestart.Renewing /\ 10 <= local_count + 1)) \/
     (exists e, wk = ScrapeNoRestart.Crashed e) /\
     (total_tags = 0 \/ ScrapeNoRestart.unfinished_tasks s <= 0)).
Proof.
  unfold ScrapeNoRestart.fetched, ScrapeNoRestart.task_done.
  destruct outcome as [df|e]; destruct (Z.eqb_spec total_tags 0);
    cbn [ScrapeNoRestart.print ScrapeNoRestart.unfinished_tasks];
    try destruct (Z.leb_spec (ScrapeNoRestart.unfinished_tasks s) 0);
    try destruct (Z.leb_spec 10 (local_count + 1));
    eexists; eexists; (split; [reflexivity|]); cbn;
    repeat (split; [reflexivity|]);
    (split; [eexists; rewrite <- ?app_assoc; reflexivity|]);
    solve [ left; split; [reflexivity|]; solve [left; split; [reflexivity | lia]
                                               | right; split; [reflexivity | lia]]
          | right; split; [eexists; reflexivity|]; solve [left; assumption | right; lia] ].
Qed.

(** With a total that is not zero and a task unfinished, the worker is
    back at [queue.get], or it awaits the new context and page. *)
Lemma fetched_spec name local_count tag outcome batch_size total_tags s :
  total_tags <> 0 -> 0 < ScrapeNoRestart.unfinished_tasks s ->
  exists wk s',
    ScrapeNoRestart.fetched name local_count tag outcome batch_size total_tags s
    = (wk, s') /\
    (wk = ScrapeNoRestart.AtGet (local_count + 1) /\ local_count + 1 < 10 \/
     wk = ScrapeNoRestart.Renewing /\ 10 <= local_count + 1) /\
    ScrapeNoRestart.queue s' = ScrapeNoRestart.queue s /\
    ScrapeNoRestart.disk s' = ScrapeNoRestart.disk s /\
    ScrapeNoRestart.unfinished_tasks s' = ScrapeNoRestart.unfinished_tasks s - 1 /\
    ScrapeNoRestart.batch_completed s' = ScrapeNoRestart.batch_completed s + 1 /\
    ScrapeNoRestart.overall_completed s' = ScrapeNoRestart.overall_completed s + 1 /\
    ScrapeNoRestart.results s' =
      match outcome with
      | Ok df => dict_set tag df (ScrapeNoRestart.results s)
      | Raise _ => ScrapeNoRestart.results s
      end /\
    exists later,
      ScrapeNoRestart.stdout s' =
      (ScrapeNoRestart.stdout s ++
       match outcome with
       | Ok _ => later
       | Raise e => ScrapeNoRestart.Failed name tag e :: later
       end)%list.
Proof.
  intros Htotal Hunf.
  destruct (fetched_any name local_count tag outcome batch_size total_tags s)
    as (wk & s' & H & Hq & Hd & Hb & Ho & Hr & Hout & [[Hu Hw]|[_ [Hz|Hz]]]);
    [|lia|lia].
  exists wk, s'. repeat split; assumption.
Qed.

(** With every page operation returning, the worker returns the battles
    of its players, whatever their scrapes came to. *)
Lemma player_loop_total players_per_page page_ops :
  (forall k, page_ops k = None) ->
  forall players k processed results w,
  exists k' w',
    Multiwindow.player_loop players_per_page page_ops players k processed results w =
    (Ok (results ++
         List.concat (map (fun p => match snd p with
                                    | Ok data => map (Multiwindow.set_player_id (fst p)) data
                                    | Raise _ => []
                                    end) players))%list, k', w') /\
    Multiwindow.error_log w'
    = match List.concat (map (fun p => match snd p with
                                       | Ok _ => []
                                       | Raise e => [(fst p, e)]
                                       end) players) with
      | [] => Multiwindow.error_log w
      | failures =>
          Some (match Multiwindow.error_log w with Some old => old | None => [] end
                ++ failures)%list
      end.
Proof.
  intros Hops.
  induction players as [|[pid scraped] players IH]; intros k processed results w.
  - exists k, w. simpl. now rewrite app_nil_r.
  - cbn [Multiwindow.player_loop]. unfold Multiwindow.scrape_player_on_page.
    destruct scraped as [data|e]; cbn [bind];
      rewrite ?Hops;
      destruct (players_per_page <=? processed + 1);
      match goal with |- context [Multiwindow.player_loop _ _ players ?k0 ?c ?r ?w0] =>
        destruct (IH k0 c r w0) as (k' & w' & -> & Hlog) end;
      exists k', w'; cbn [map fst snd List.concat app];
      (split; [now rewrite <- ?app_assoc, ?app_nil_r|]);
      rewrite Hlog;
      cbn [Multiwindow.print Multiwindow.append_error_log Multiwindow.error_log];
      try reflexivity;
      match goal with |- context [List.concat ?l] => destruct (List.concat l) end;
      try reflexivity; now rewrite <- app_assoc.
Qed.

Lemma player_worker_total players_per_page page_ops players w :
  (forall k, page_ops k = None) ->
  exists w',
    Multiwindow.player_worker players_per_page page_ops players w =
    (Ok (List.concat (map (fun p => match snd p with
                                    | Ok data => map (Multiwindow.set_player_id (fst p)) data
                                    | Raise _ => []
                                    end) players)), w') /\
    Multiwindow.error_log w'
    = match List.concat (map (fun p => match snd p with
                                       | Ok _ => []
                                       | Raise e => [(fst p, e)]
                                       end) players) with
      | [] => Multiwindow.error_log w
      | failures =>
          Some (match Multiwindow.error_log w with Some old => old | None => [] end
                ++ failures)%list
      end.
Proof.
  intros Hops. unfold Multiwindow.player_worker.
  destruct players as [|p players]; [exists w; split; reflexivity|].
  rewrite Hops.
  destruct (player_loop_total players_per_page page_ops Hops (p :: players) 1 0 [] w)
    as (k' & w' & -> & Hlog).
  rewrite Hops. exists w'. split; [reflexivity | exact Hlog].
Qed.

(** What raises in the worker without a handler around it: the making
    of the first page. *)
Lemma player_worker_first_page players_per_page page_ops p players w e :
  page_ops 0%nat = Some e ->
  Multiwindow.player_worker players_per_page page_ops (p :: players) w = (Raise e, w).
Proof. intros H. unfold Multiwindow.player_worker. now rewrite H. Qed.

Lemma sleep_ok pause w :
  NotScrape.time_sleep pause = Ok tt ->
  NotScrape.sleep pause w
  = (Ok tt,
     NotScrape.World (NotScrape.remote w) (NotScrape.requests w)
       (NotScrape.slept w ++ [pause])%list (NotScrape.debug w) (NotScrape.stdout w)
       (NotScrape.float_pow w)).
Proof. intros H. unfold NotScrape.sleep. now rewrite H. Qed.







End Containment.




(** ** Worker pool and sentinels *)

Section Pool.
Import ScrapeNoRestart.

Variable batch_tags : list string.
Variable workers : nat.
Variables batch_size total_tags : Z.
Hypothesis total_not_zero : total_tags <> 0.

(** What holds of every state of a batch: the queue is the tags not yet
    taken followed by one sentinel per worker that has not returned
    (running, or ended by an exception); no worker has returned while a
    tag is queued; the queue's count of unfinished tasks is the items
    queued plus the fetches under way; and every tag of the batch is
    queued, under way or counted as done. *)
Definition batch_invariant (st : shared * list worker) : Prop :=
  exists ts,
    queue (fst st)
      = (map Some ts ++ repeat None (alive (snd st) + crashed (snd st)))%list /\
    List.length (snd st) = workers /\
    (ts <> [] -> (alive (snd st) + crashed (snd st))%nat = List.length (snd st)) /\
    unfinished_tasks (fst st)
      = Z.of_nat (List.length (queue (fst st)) + fetching (snd st)) /\
    batch_completed (fst st) + Z.of_nat (List.length ts + fetching (snd st))
      = len batch_tags.

Lemma count_app_cons {X} (f : X -> bool) before w after :
  List.length (filter f (before ++ w :: after)) =
  (List.length (filter f before) + (if f w then 1 else 0)
   + List.length (filter f after))%nat.
Proof.
  rewrite filter_app, length_app. simpl. destruct (f w); simpl; lia.
Qed.

Lemma alive_app_cons before w after :
  alive (before ++ w :: after) =
  (alive before + (if has_returned w || has_crashed w then 0 else 1)
   + alive after)%nat.
Proof.
  unfold alive. rewrite count_app_cons.
  now destruct (has_returned w || has_crashed w).
Qed.

Lemma crashed_app_cons before w after :
  crashed (before ++ w :: after) =
  (crashed before + (if has_crashed w then 1 else 0) + crashed after)%nat.
Proof. apply count_app_cons. Qed.

Lemma fetching_app_cons before w after :
  fetching (before ++ w :: after) =
  (fetching before + (if is_fetching w then 1 else 0) + fetching after)%nat.
Proof. apply count_app_cons. Qed.

Lemma length_app_cons {X} (before : list X) w after :
  List.length (before ++ w :: after)
  = (List.length before + 1 + List.length after)%nat.
Proof. rewrite length_app. simpl. lia. Qed.

Ltac census :=
  rewrite ?alive_app_cons, ?crashed_app_cons, ?fetching_app_cons, ?length_app_cons in *;
  cbn [has_returned has_crashed is_fetching orb] in *.

Lemma alive_repeat k : alive (repeat Creating k) = k.
Proof.
  unfold alive. induction k as [|k IH]; simpl; [reflexivity | now rewrite IH].
Qed.

Lemma crashed_repeat k : crashed (repeat Creating k) = 0%nat.
Proof.
  unfold crashed. induction k as [|k IH]; simpl; [reflexivity | exact IH].
Qed.

Lemma fetching_repeat k : fetching (repeat Creating k) = 0%nat.
Proof.
  unfold fetching. induction k as [|k IH]; simpl; [reflexivity | exact IH].
Qed.

Lemma all_returned_counts ws :
  Forall (eq Returned) ws -> alive ws = 0%nat /\ crashed ws = 0%nat.
Proof.
  unfold alive, crashed. induction 1 as [|w ws <- _ [IHa IHc]]; simpl; auto.
Qed.

Lemma fetching_le_alive ws : (fetching ws <= alive ws)%nat.
Proof.
  unfold fetching, alive. induction ws as [|w ws IH]; simpl; [lia|].
  destruct w; simpl; lia.
Qed.

(** A worker that is running is at one of the four points where the
    event loop can resume it. *)
Lemma alive_worker ws :
  alive ws <> 0%nat ->
  exists before w after,
    ws = (before ++ w :: after)%list /\
    (w = Creating \/ (exists n, w = AtGet n) \/
     (exists n tag, w = Fetching n tag) \/ w = Renewing).
Proof.
  unfold alive. induction ws as [|w ws IH]; simpl; [intros H; now destruct H|].
  destruct w as [|n|n tag| | |e]; simpl; intros H;
    try (exists [], ?[w], ws; split; [reflexivity|]; eauto 6; fail).
  - exists [], Creating, ws. split; [reflexivity | now left].
  - exists [], (AtGet n), ws. split; [reflexivity | right; left; now exists n].
  - exists [], (Fetching n tag), ws.
    split; [reflexivity | right; right; left; now exists n, tag].
  - exists [], Renewing, ws. split; [reflexivity | now right; right; right].
  - destruct (IH H) as (before & w & after & -> & Hw).
    now exists (Returned :: before), w, after.
  - destruct (IH H) as (before & w & after & -> & Hw).
    now exists (Crashed e :: before), w, after.
Qed.

Lemma start_invariant overall_done out d :
  batch_invariant (start_batch batch_tags (Z.of_nat workers) overall_done out d).
Proof.
  unfold batch_invariant, start_batch. cbn [fst snd queue unfinished_tasks
    batch_completed]. rewrite Nat2Z.id.
  exists batch_tags.
  rewrite alive_repeat, crashed_repeat, fetching_repeat, repeat_length, Nat.add_0_r.
  repeat split; try reflexivity.
  - unfold len. rewrite !length_app, length_map, repeat_length. lia.
  - unfold len. lia.
Qed.

Lemma step_preserves st st' :
  step batch_size total_tags st st' -> batch_invariant st -> batch_invariant st'.
Proof.
  intros Hstep (ts & Hq & Hlen & Hpending & Hunf & Hdone).
  destruct Hstep as [s before after outcome
                    | s before n after item q Hhead
                    | s before n tag after response
                    | s before after outcome];
    cbn [fst snd] in *.
  - exists ts. cbn [fst snd].
    destruct outcome as [[]|e]; cbn [created]; census;
      (split; [rewrite Hq; do 2 f_equal; lia|]);
      (split; [exact Hlen|]);
      (split; [intros Hts; specialize (Hpending Hts); lia|]);
      (split; [rewrite Hunf; f_equal; lia | rewrite <- Hdone; f_equal; lia]).
  - assert (Hpos : 0 < unfinished_tasks s) by (rewrite Hunf, Hhead; simpl; lia).
    assert (Hdone' :
              fst (got (len before) n None (set_queue q s)) = Returned /\
              queue (snd (got (len before) n None (set_queue q s))) = q /\
              unfinished_tasks (snd (got (len before) n None (set_queue q s)))
              = unfinished_tasks s - 1 /\
              batch_completed (snd (got (len before) n None (set_queue q s)))
              = batch_completed s).
    { unfold got, task_done. cbn [set_queue unfinished_tasks].
      destruct (Z.leb_spec (unfinished_tasks s) 0); [lia|].
      repeat split. }
    rewrite Hhead in Hq.
    destruct ts as [|t ts'].
    + census.
      replace (alive before + 1 + alive after + (crashed before + 0 + crashed after))%nat
        with (S (alive before + alive after + (crashed before + crashed after)))
        in Hq by lia.
      simpl in Hq. injection Hq as -> ->.
      destruct Hdone' as (Hw2 & Hq2 & Hu2 & Hb2).
      exists []. cbn [fst snd]. rewrite Hw2, Hq2, Hu2, Hb2. census. repeat split.
      * simpl. f_equal. lia.
      * lia.
      * congruence.
      * rewrite Hunf, Hhead. simpl List.length. rewrite !repeat_length. lia.
      * rewrite <- Hdone. simpl. lia.
    + simpl in Hq. injection Hq as -> ->.
      exists ts'. cbn [got fst snd queue unfinished_tasks batch_completed set_queue].
      clear Hdone'. census. repeat split.
      * lia.
      * intros _. specialize (Hpending ltac:(discriminate)). lia.
      * rewrite Hunf, Hhead. simpl List.length. lia.
      * rewrite <- Hdone. simpl List.length. lia.
  - assert (Hpos : 0 < unfinished_tasks s) by (rewrite Hunf; census; lia).
    destruct (fetched_spec (len before) n tag (fetch_replay_with_page response tag)
                batch_size total_tags s total_not_zero Hpos)
      as (wk & s' & -> & Hw & Hq' & _ & Hunf' & Hdone' & _).
    cbn [fst snd].
    exists ts. cbn [fst snd]. rewrite Hq', Hunf', Hdone'.
    destruct Hw as [[-> _]|[-> _]]; census;
      (split; [rewrite Hq; do 2 f_equal; lia|]);
      (split; [lia|]);
      (split; [intros Hts; specialize (Hpending Hts); lia|]);
      (split; [rewrite Hunf; lia | rewrite <- Hdone; lia]).
  - exists ts.
    destruct outcome as [[]|e];
      cbn [renewed print fst snd queue unfinished_tasks batch_completed]; census;
      (split; [rewrite Hq; do 2 f_equal; lia|]);
      (split; [exact Hlen|]);
      (split; [intros Hts; specialize (Hpending Hts); lia|]);
      (split; [rewrite Hunf; f_equal; lia | rewrite <- Hdone; f_equal; lia]).
Qed.

Lemma step_decreases st st' :
  step batch_size total_tags st st' -> (work_left st' < work_left st)%nat.
Proof.
  intros Hstep. unfold work_left.
  destruct Hstep as [s before after outcome
                    | s before n after item q Hhead
                    | s before n tag after response
                    | s before after outcome];
    cbn [fst snd].
  - rewrite !count_app_cons. destruct outcome as [[]|e]; simpl; lia.
  - rewrite Hhead. rewrite !count_app_cons.
    destruct item as [t|]; unfold got, task_done;
      [|destruct (unfinished_tasks (set_queue q s) <=? 0)];
      cbn [fst snd queue set_queue print is_fetching is_renewing is_creating
           List.length]; lia.
  - destruct (fetched_any (len before) n tag (fetch_replay_with_page response tag)
                batch_size total_tags s) as (wk & s' & -> & Hq' & _ & _ & _ & _ & _ & Hw).
    cbn [fst snd]. rewrite Hq', !count_app_cons.
    destruct Hw as [[_ [[-> _]|[-> _]]]|[[e ->] _]]; simpl; lia.
  - rewrite !count_app_cons.
    destruct outcome as [[]|e]; cbn [renewed print fst snd queue]; simpl; lia.
Qed.

(** While a worker is running, the event loop can go on. *)
Lemma step_possible st :
  batch_invariant st -> alive (snd st) <> 0%nat ->
  exists st', step batch_size total_tags st st'.
Proof.
  destruct st as [s ws]. intros (ts & Hq & _) Halive. cbn [fst snd] in *.
  destruct (alive_worker ws Halive)
    as (before & w & after & -> & [->|[[n ->]|[(n & tag & ->)| ->]]]).
  - eexists. apply (step_created _ _ s before after (Ok tt)).
  - destruct (queue s) as [|item q] eqn:Hqueue.
    + exfalso. census.
      replace (alive before + 1 + alive after + (crashed before + 0 + crashed after))%nat
        with (S (alive before + alive after + (crashed before + crashed after)))
        in Hq by lia.
      destruct ts; discriminate.
    + eexists. apply (step_get _ _ s before n after item q Hqueue).
  - eexists. apply (step_fetched _ _ s before n tag after (Loaded NoBody)).
  - eexists. apply (step_renewed _ _ s before after (Ok tt)).
Qed.

(** When no worker is running, the event loop has nothing to resume. *)
Lemma no_step st st' :
  alive (snd st) = 0%nat -> ~ step batch_size total_tags st st'.
Proof.
  intros Halive Hstep.
  destruct Hstep; cbn [fst snd] in Halive; rewrite alive_app_cons in Halive;
    cbn [has_returned has_crashed orb] in Halive; lia.
Qed.

(** When every worker has returned, the batch is over: nothing is queued,
    [queue.join] has nothing to wait for, every tag has been counted. *)
Lemma all_returned st :
  (0 < workers)%nat ->
  batch_invariant st -> Forall (eq Returned) (snd st) ->
  queue (fst st) = [] /\ unfinished_tasks (fst st) = 0 /\
  batch_completed (fst st) = len batch_tags.
Proof.
  intros Hpos (ts & Hq & Hlen & Hpending & Hunf & Hdone) [Halive Hcrashed]%all_returned_counts.
  pose proof (fetching_le_alive (snd st)) as Hf.
  rewrite Halive, Hcrashed in *.
  destruct ts as [|t ts]; [|specialize (Hpending ltac:(discriminate)); lia].
  simpl in Hq. rewrite Hq in Hunf. simpl in *.
  repeat split; [exact Hq | lia | lia].
Qed.

(** When a worker was ended by an exception and none is running, its
    sentinel is still queued: [queue.join] waits for it. *)
Lemma crashed_waits st :
  batch_invariant st -> crashed (snd st) <> 0%nat ->
  0 < unfinished_tasks (fst st).
Proof.
  intros (ts & Hq & _ & _ & Hunf & _) Hcrashed.
  rewrite Hunf, Hq, length_app, repeat_length. lia.
Qed.

Lemma run_invariant n st st' :
  run batch_size total_tags n st st' ->
  batch_invariant st ->
  batch_invariant st' /\ (n + work_left st' <= work_left st)%nat.
Proof.
  induction 1 as [st | n st st1 st2 Hstep Hrun IH]; intros Hinv.
  - split; [exact Hinv | lia].
  - destruct (IH (step_preserves _ _ Hstep Hinv)) as [Hinv2 Hle].
    split; [exact Hinv2|]. pose proof (step_decreases _ _ Hstep). lia.
Qed.

Lemma sentinels_queue (ts : list string) m :
  sentinels (map Some ts ++ repeat None m) = m.
Proof.
  unfold sentinels. rewrite filter_app, length_app.
  replace (filter _ (map Some ts)) with (@nil (option string))
    by (induction ts; simpl; auto).
  simpl. induction m as [|m IH]; simpl; [reflexivity | now rewrite IH].
Qed.

Lemma work_left_start overall_done out d :
  work_left (start_batch batch_tags (Z.of_nat workers) overall_done out d)
  = (3 * List.length batch_tags + 4 * workers)%nat.
Proof.
  unfold work_left, start_batch. cbn [fst snd queue]. rewrite Nat2Z.id.
  rewrite length_app, length_map, repeat_length.
  assert (H : forall k,
            List.length (filter is_fetching (repeat Creating k)) = 0%nat /\
            List.length (filter is_renewing (repeat Creating k)) = 0%nat /\
            List.length (filter is_creating (repeat Creating k)) = k).
  { induction k as [|k (H1 & H2 & H3)]; simpl; auto. }
  destruct (H workers) as (-> & -> & ->). lia.
Qed.

End Pool.

(** C7. Sentinel shutdown, as the code does it.  [main] queues the tags
    of the batch and then one sentinel per worker.  A worker that takes a
    sentinel from the queue returns and does not put it back; a worker
    that an exception ends (raised while its context and page are made,
    at the start or after ten tags) takes none.  So, in every state the
    event loop can reach, with a total that is not zero, the queue holds
    as many sentinels as there are workers that have not returned; the
    loop can go on as long as one of them is running; it makes at most
    three steps per tag and four per worker; once all workers have
    returned the queue is empty, [queue.join] has nothing left to wait
    for, and every tag of the batch has been counted as done; and once no
    worker is running but one was ended by an exception, nothing can
    happen any more while the queue still holds a sentinel for each such
    worker: the count [queue.join] waits on stays above zero. *)
Theorem sentinels_drain_workers :
  forall (batch_tags : list string) (workers batch_size total_tags overall_done : Z)
         (out : list ScrapeNoRestart.printed)
         (d : option (list ScrapeNoRestart.csv_line))
         (n : nat) (st : ScrapeNoRestart.shared * list ScrapeNoRestart.worker),
    0 < workers ->
    total_tags <> 0 ->
    ScrapeNoRestart.run batch_size total_tags n
      (ScrapeNoRestart.start_batch batch_tags workers overall_done out d) st ->
    (forall name local_count q s,
       0 < ScrapeNoRestart.unfinished_tasks s ->
       fst (ScrapeNoRestart.got name local_count None (ScrapeNoRestart.set_queue q s))
       = ScrapeNoRestart.Returned /\
       ScrapeNoRestart.queue
         (snd (ScrapeNoRestart.got name local_count None (ScrapeNoRestart.set_queue q s)))
       = q) /\
    ScrapeNoRestart.sentinels (ScrapeNoRestart.queue (fst st))
      = (ScrapeNoRestart.alive (snd st) + ScrapeNoRestart.crashed (snd st))%nat /\
    List.length (snd st) = Z.to_nat workers /\
    (n + ScrapeNoRestart.work_left st
     <= 3 * List.length batch_tags + 4 * Z.to_nat workers)%nat /\
    (ScrapeNoRestart.alive (snd st) <> 0%nat ->
     exists st', ScrapeNoRestart.step batch_size total_tags st st') /\
    (Forall (eq ScrapeNoRestart.Returned) (snd st) ->
     ScrapeNoRestart.queue (fst st) = [] /\
     ScrapeNoRestart.unfinished_tasks (fst st) = 0 /\
     ScrapeNoRestart.batch_completed (fst st) = len batch_tags) /\
    (ScrapeNoRestart.alive (snd st) = 0%nat ->
     ScrapeNoRestart.crashed (snd st) <> 0%nat ->
     (forall st', ~ ScrapeNoRestart.step batch_size total_tags st st') /\
     0 < ScrapeNoRestart.unfinished_tasks (fst st) /\
     ScrapeNoRestart.sentinels (ScrapeNoRestart.queue (fst st))
       = ScrapeNoRestart.crashed (snd st)).
Proof.
  intros batch_tags workers batch_size total_tags overall_done out d n st Hpos
    Htotal Hrun.
  split.
  { intros name local_count q s Hunf.
    unfold ScrapeNoRestart.got, ScrapeNoRestart.task_done.
    cbn [ScrapeNoRestart.set_queue ScrapeNoRestart.unfinished_tasks].
    destruct (Z.leb_spec (ScrapeNoRestart.unfinished_tasks s) 0); [lia|].
    split; reflexivity. }
  pose proof (start_invariant batch_tags (Z.to_nat workers) overall_done out d) as Hinit.
  pose proof (work_left_start batch_tags (Z.to_nat workers) overall_done out d) as Hwork.
  rewrite Z2Nat.id in Hinit, Hwork by lia.
  destruct (run_invariant batch_tags (Z.to_nat workers) _ _ Htotal _ _ _ Hrun Hinit)
    as [Hinv Hle].
  pose proof Hinv as (ts & Hq & Hlen & _).
  assert (Hs : ScrapeNoRestart.sentinels (ScrapeNoRestart.queue (fst st))
               = (ScrapeNoRestart.alive (snd st) + ScrapeNoRestart.crashed (snd st))%nat)
    by (rewrite Hq; apply sentinels_queue).
  split; [exact Hs|].
  split; [exact Hlen|].
  split; [lia|].
  split; [|split].
  - now apply step_possible with (batch_tags := batch_tags) (workers := Z.to_nat workers).
  - intros Hall.
    apply all_returned with (workers := Z.to_nat workers); [lia | exact Hinv | exact Hall].
  - intros Halive Hcrashed. split; [|split].
    + intros st'. now apply no_step.
    + exact (crashed_waits _ _ _ Hinv Hcrashed).
    + rewrite Hs, Halive. reflexivity.
Qed.

(** The theorem on a batch of one tag and a pool of one worker.  When the
    worker's context and page are made, it takes the tag, its fetch ends,
    it takes the sentinel and returns; then nothing is queued or awaited,
    and the tag is counted.  When the making of its context raises, the
    worker is over, nothing can happen any more, and the two items queued
    are still waited for. *)
Lemma sentinels_drain_workers_witness :
  (exists st,
     ScrapeNoRestart.run 1 1 4 (ScrapeNoRestart.start_batch ["a"] 1 0 [] None) st /\
     snd st = [ScrapeNoRestart.Returned] /\
     ScrapeNoRestart.queue (fst st) = [] /\
     ScrapeNoRestart.unfinished_tasks (fst st) = 0 /\
     ScrapeNoRestart.batch_completed (fst st) = 1) /\
  (exists st,
     ScrapeNoRestart.run 1 1 1 (ScrapeNoRestart.start_batch ["a"] 1 0 [] None) st /\
     snd st = [ScrapeNoRestart.Crashed (RuntimeError "Target closed")] /\
     (forall st', ~ ScrapeNoRestart.step 1 1 st st') /\
     0 < ScrapeNoRestart.unfinished_tasks (fst st) /\
     ScrapeNoRestart.sentinels (ScrapeNoRestart.queue (fst st)) = 1%nat).
Proof.
  pose (s0 := fst (ScrapeNoRestart.start_batch ["a"] 1 0 [] None)).
  pose (s1 := ScrapeNoRestart.set_queue [None] s0).
  pose (s2 := snd (ScrapeNoRestart.fetched 0 0 "a"
                (ScrapeNoRestart.fetch_replay_with_page
                   (ScrapeNoRestart.Loaded ScrapeNoRestart.NoBody) "a") 1 1 s1)).
  pose (s3 := snd (ScrapeNoRestart.got 0 1 None (ScrapeNoRestart.set_queue [] s2))).
  assert (R : ScrapeNoRestart.run 1 1 4
                (ScrapeNoRestart.start_batch ["a"] 1 0 [] None)
                (s3, [ScrapeNoRestart.Returned])).
  { apply ScrapeNoRestart.run_step with (st' := (s0, [ScrapeNoRestart.AtGet 0])).
    { exact (ScrapeNoRestart.step_created 1 1 s0 [] [] (Ok tt)). }
    apply ScrapeNoRestart.run_step with (st' := (s1, [ScrapeNoRestart.Fetching 0 "a"])).
    { exact (ScrapeNoRestart.step_get 1 1 s0 [] 0 [] (Some "a") [None] eq_refl). }
    apply ScrapeNoRestart.run_step with (st' := (s2, [ScrapeNoRestart.AtGet 1])).
    { exact (ScrapeNoRestart.step_fetched 1 1 s1 [] 0 "a" []
               (ScrapeNoRestart.Loaded ScrapeNoRestart.NoBody)). }
    apply ScrapeNoRestart.run_step with (st' := (s3, [ScrapeNoRestart.Returned])).
    { exact (ScrapeNoRestart.step_get 1 1 s2 [] 1 [] None [] eq_refl). }
    apply ScrapeNoRestart.run_done. }
  assert (R' : ScrapeNoRestart.run 1 1 1
                 (ScrapeNoRestart.start_batch ["a"] 1 0 [] None)
                 (s0, [ScrapeNoRestart.Crashed (RuntimeError "Target closed")])).
  { apply ScrapeNoRestart.run_step
      with (st' := (s0, [ScrapeNoRestart.Crashed (RuntimeError "Target closed")])).
    { exact (ScrapeNoRestart.step_created 1 1 s0 [] []
               (Raise (RuntimeError "Target closed"))). }
    apply ScrapeNoRestart.run_done. }
  split.
  - exists (s3, [ScrapeNoRestart.Returned]).
    split; [exact R|].
    destruct (sentinels_drain_workers ["a"] 1 1 1 0 [] None 4 _ eq_refl
                ltac:(discriminate) R)
      as (_ & _ & _ & _ & _ & Hend & _).
    split; [reflexivity|].
    apply Hend. repeat constructor.
  - exists (s0, [ScrapeNoRestart.Crashed (RuntimeError "Target closed")]).
    split; [exact R'|].
    destruct (sentinels_drain_workers ["a"] 1 1 1 0 [] None 1 _ eq_refl
                ltac:(discriminate) R')
      as (_ & _ & _ & _ & _ & _ & Hstuck).
    split; [reflexivity|].
    apply Hstuck; [reflexivity | discriminate].
Defined.

(** C7, as stated, fails: of the two workers of a batch of one tag, the
    first takes the tag and then a sentinel, and returns; the queue it
    leaves holds one sentinel, not two. *)
Lemma sentinel_not_requeued :
  ScrapeNoRestart.run 1 1 4
    (ScrapeNoRestart.start_batch ["a"] 2 0 [] None)
    (ScrapeNoRestart.Shared [None] 1 [] 1 1
       [ScrapeNoRestart.WorkerStarting 0; ScrapeNoRestart.WorkerStarting 1;
        ScrapeNoRestart.Failed 0 "a" (ValueError (OtherValueError "No body text"));
        ScrapeNoRestart.Progress 0 1 1 1 1;
        ScrapeNoRestart.ReceivedSentinel 0; ScrapeNoRestart.FullyShutDown 0] None,
     [ScrapeNoRestart.Returned; ScrapeNoRestart.Creating]) /\
  ScrapeNoRestart.sentinels [None] = 1%nat.
Proof.
  split; [|reflexivity].
  pose (s0 := fst (ScrapeNoRestart.start_batch ["a"] 2 0 [] None)).
  pose (s1 := ScrapeNoRestart.set_queue [None; None] s0).
  pose (s2 := snd (ScrapeNoRestart.fetched 0 0 "a"
                (ScrapeNoRestart.fetch_replay_with_page
                   (ScrapeNoRestart.Loaded ScrapeNoRestart.NoBody) "a") 1 1 s1)).
  apply ScrapeNoRestart.run_step
    with (st' := (s0, [ScrapeNoRestart.AtGet 0; ScrapeNoRestart.Creating])).
  { exact (ScrapeNoRestart.step_created 1 1 s0 [] [ScrapeNoRestart.Creating] (Ok tt)). }
  apply ScrapeNoRestart.run_step
    with (st' := (s1, [ScrapeNoRestart.Fetching 0 "a"; ScrapeNoRestart.Creating])).
  { exact (ScrapeNoRestart.step_get 1 1 s0 [] 0 [ScrapeNoRestart.Creating]
             (Some "a") [None; None] eq_refl). }
  apply ScrapeNoRestart.run_step
    with (st' := (s2, [ScrapeNoRestart.AtGet 1; ScrapeNoRestart.Creating])).
  { exact (ScrapeNoRestart.step_fetched 1 1 s1 [] 0 "a" [ScrapeNoRestart.Creating]
             (ScrapeNoRestart.Loaded ScrapeNoRestart.NoBody)). }
  eapply ScrapeNoRestart.run_step; [|apply ScrapeNoRestart.run_done].
  exact (ScrapeNoRestart.step_get 1 1 s2 [] 1 [ScrapeNoRestart.Creating]
           None [None] eq_refl).
Qed.

(** ** Retry Policy *)

Section Retry.
Import NotScrape.

Variable clan_tag : string.
Variable retries : Z.
Variable backoff : Q.


(** The loop never makes more requests than it has iterations. *)
Lemma attempts_bounded : forall remaining attempt last_error w,
  (requests (snd (attempts clan_tag retries backoff remaining attempt last_error w))
   <= requests w + remaining)%nat.
Proof.
  induction remaining as [|remaining IH]; intros attempt last_error w.
  - simpl. destruct last_error; simpl; lia.
  - cbn [attempts requests_get].
    destruct (attempt_body (remote w (requests w))) as [items|e]; [simpl; lia|].
    destruct (caught e); [|simpl; lia].
    match goal with |- context [power ?w0 backoff attempt] =>
      destruct (power w0 backoff attempt) as [wait|e'] end; [|simpl; lia].
    unfold sleep. destruct (time_sleep wait); [|simpl; lia].
    match goal with |- context [attempts _ _ _ _ ?a ?l ?w0] =>
      specialize (IH a l w0) end.
    simpl in *. lia.
Qed.

(** The platform's power is the same in every state of a run. *)
Lemma power_same w w' x n :
  float_pow w' = float_pow w -> power w' x n = power w x n.
Proof. intros H. unfold power. now rewrite H. Qed.

(** An attempt whose wait cannot be taken is the last: the exception of
    the power or of [time.sleep] leaves the function. *)
Lemma attempt_wait_raises remaining attempt last_error w e e' :
  attempt_body (remote w (requests w)) = Raise e -> caught e = true ->
  Spec.wait_outcome w backoff attempt = Raise e' ->
  exists w',
    attempts clan_tag retries backoff (S remaining) attempt last_error w = (Raise e', w') /\
    requests w' = S (requests w) /\ slept w' = slept w /\ debug w' = debug w.
Proof.
  intros He Hcaught Hwait. unfold Spec.wait_outcome in Hwait.
  cbn [attempts requests_get]. rewrite He, Hcaught.
  rewrite (power_same w) by reflexivity.
  destruct (power w backoff attempt) as [wait|e''].
  - unfold sleep. rewrite Hwait. eexists. repeat split.
  - injection Hwait as ->. eexists. repeat split.
Qed.

(** [j] answers in a row on which the attempt raises what the [except]
    clause catches, each with a wait that can be taken: [j] iterations,
    each with its request and its wait, and the loop stands at attempt
    [attempt + j] with the last exception in hand. *)
Lemma attempts_caught : forall j remaining attempt last_error w,
  (forall k, (k < j)%nat ->
     exists e, attempt_body (remote w (requests w + k)) = Raise e /\ caught e = true) ->
  (forall k, (k < j)%nat ->
     Spec.wait_outcome w backoff (attempt + Z.of_nat k) = Ok tt) ->
  exists w' last_error',
    attempts clan_tag retries backoff (j + remaining) attempt last_error w
    = attempts clan_tag retries backoff remaining (attempt + Z.of_nat j) last_error' w' /\
    remote w' = remote w /\
    float_pow w' = float_pow w /\
    requests w' = (requests w + j)%nat /\
    debug w' = debug w /\
    slept w'
    = (slept w ++ map (fun k => Spec.wait_of w backoff (attempt + Z.of_nat k)) (seq 0 j))%list /\
    (j = 0%nat -> last_error' = last_error) /\
    (forall j', j = S j' ->
       exists e, attempt_body (remote w (requests w + j')) = Raise e /\
                 last_error' = Some e).
Proof.
  induction j as [|j IH]; intros remaining attempt last_error w Hcaught Hwaits.
  - exists w, last_error. rewrite Z.add_0_r, Nat.add_0_r, app_nil_r.
    repeat split; try reflexivity. intros j' [=].
  - destruct (Hcaught 0%nat ltac:(lia)) as (e & He & He').
    rewrite Nat.add_0_r in He.
    pose proof (Hwaits 0%nat ltac:(lia)) as Hwait.
    rewrite Z.add_0_r in Hwait. unfold Spec.wait_outcome in Hwait.
    cbn [Nat.add attempts requests_get]. rewrite He, He'.
    rewrite (power_same w) by reflexivity.
    destruct (power w backoff attempt) as [wait|] eqn:Hpow; [|discriminate].
    rewrite (sleep_ok _ _ Hwait).
    cbn [print remote requests slept debug stdout float_pow].
    match goal with |- context [attempts _ _ _ _ ?a ?l ?w0] =>
      destruct (IH remaining a l w0)
        as (w' & last' & Heq & Hr & Hp & Hn & Hd & Hs & H0 & HS)
    end.
    { intros k Hk. cbn [remote requests].
      replace (S (requests w) + k)%nat with (requests w + S k)%nat by lia.
      apply Hcaught. lia. }
    { intros k Hk. unfold Spec.wait_outcome.
      rewrite (power_same w) by reflexivity.
      replace (attempt + 1 + Z.of_nat k) with (attempt + Z.of_nat (S k)) by lia.
      apply Hwaits. lia. }
    cbn [remote requests slept debug float_pow] in *.
    exists w', last'. rewrite Heq.
    replace (attempt + 1 + Z.of_nat j) with (attempt + Z.of_nat (S j)) by lia.
    repeat split; try assumption.
    + lia.
    + rewrite Hs, <- app_assoc. f_equal. cbn [seq map app].
      rewrite Z.add_0_r. unfold Spec.wait_of at 2. rewrite Hpow. f_equal.
      rewrite <- seq_shift, map_map. apply map_ext. intros k.
      unfold Spec.wait_of. rewrite (power_same w) by reflexivity.
      replace (attempt + 1 + Z.of_nat k) with (attempt + Z.of_nat (S k)) by lia.
      reflexivity.
    + discriminate.
    + intros j' [= <-]. destruct j as [|j''].
      * exists e. rewrite Nat.add_0_r. split; [exact He | now apply H0].
      * destruct (HS j'' eq_refl) as (e'' & He'' & ->).
        exists e''. split; [|reflexivity].
        replace (requests w + S j'')%nat with (S (requests w) + j'')%nat by lia.
        exact He''.
Qed.

Lemma waits_from_one w j :
  map (fun k => Spec.wait_of w backoff (1 + Z.of_nat k)) (seq 0 j)
  = Spec.platform_waits w backoff j.
Proof.
  unfold Spec.platform_waits. rewrite <- seq_shift, map_map.
  apply map_ext. intros k. f_equal. lia.
Qed.

Lemma waits_taken_from_one w j :
  Spec.waits_taken w backoff j ->
  forall k, (k < j)%nat -> Spec.wait_outcome w backoff (1 + Z.of_nat k) = Ok tt.
Proof.
  intros H k Hk. replace (1 + Z.of_nat k) with (Z.of_nat (S k)) by lia.
  apply H. lia.
Qed.



(** As many caught failures as the ceiling allows attempts. *)
Lemma fetch_gives_up w :
  1 <= retries ->
  Spec.waits_taken w backoff (Z.to_nat retries) ->
  (forall k, (k < Z.to_nat retries)%nat ->
     exists e, attempt_body (remote w (requests w + k)) = Raise e /\ caught e = true) ->
  exists e w',
    attempt_body (remote w (requests w + (Z.to_nat retries - 1))) = Raise e /\
    fetch_clan_members clan_tag retries backoff w = (Raise e, w') /\
    requests w' = (requests w + Z.to_nat retries)%nat /\
    slept w' = (slept w ++ Spec.platform_waits w backoff (Z.to_nat retries))%list /\
    debug w' = debug w.
Proof.
  intros Hretries Hwaits Hcaught. unfold fetch_clan_members.
  destruct (attempts_caught (Z.to_nat retries) 0 1 None w Hcaught
              (waits_taken_from_one w _ Hwaits))
    as (w' & last' & Heq & Hr & _ & Hn & Hd & Hs & _ & HS).
  rewrite Nat.add_0_r in Heq. rewrite Heq.
  destruct (HS (Z.to_nat retries - 1)%nat ltac:(lia)) as (e & He & ->).
  exists e, w'. cbn [attempts]. rewrite Hs, waits_from_one.
  repeat split; assumption.
Qed.


End Retry.



(* ================================================================== *)
(** * Part III. Further properties of the scripts *)
(* ================================================================== *)

(** ** Batches and chunks *)

Section Batches.
Context {A : Type}.
Implicit Types l : list A.

Lemma slice_chunk l a b :
  0 <= a <= len l -> 0 <= b ->
  slice l (Some a) (Some (a + b)) = firstn (Z.to_nat b) (skipn (Z.to_nat a) l).
Proof.
  intros Ha Hb. unfold slice, clamp.
  destruct (Z.ltb_spec a 0), (Z.ltb_spec (a + b) 0); try lia.
  rewrite (Z.min_l a) by lia.
  destruct (Z.le_gt_cases (a + b) (len l)) as [Hle|Hgt].
  - rewrite Z.min_l by lia. f_equal. lia.
  - rewrite Z.min_r by lia.
    rewrite !firstn_all2; try reflexivity; rewrite length_skipn; unfold len in *; lia.
Qed.

Lemma concat_chunks_from l b s0 : forall c,
  List.concat (map (fun k => firstn b (skipn (s0 + k * b) l)) (seq 0 c))
  = firstn (c * b) (skipn s0 l).
Proof.
  intros c.
  rewrite <- (concat_chunks (skipn s0 l) b c).
  f_equal. apply map_ext. intros k. unfold Spec.interval.
  rewrite skipn_skipn. f_equal; [lia | f_equal; lia].
Qed.

(** The number of starts [range(start, stop, step)] yields for a positive
    step, and [step] times it reaches [stop]. *)
Lemma range3_count start stop step :
  0 < step -> start <= stop ->
  let count := (stop - start + step - 1) / step in
  0 <= count /\ stop - start <= count * step /\ (count - 1) * step < stop - start
  \/ stop = start /\ count = 0.
Proof.
  intros Hstep Hle count.
  destruct (Z.eq_dec stop start) as [->|Hne].
  - right. split; [reflexivity|]. unfold count.
    replace (start - start + step - 1) with (step - 1) by lia.
    apply Z.div_small. lia.
  - left. unfold count.
    pose proof (Z.div_mod (stop - start + step - 1) step ltac:(lia)) as Hdm.
    pose proof (Z.mod_pos_bound (stop - start + step - 1) step Hstep) as Hmod.
    assert (0 <= (stop - start + step - 1) / step) by (apply Z.div_pos; lia).
    nia.
Qed.

End Batches.

Section MainBatches.

Variable replay_tags : list string.
Variable batch_size : Z.
Hypothesis batch_size_pos : 0 < batch_size.

Let count : nat := Z.to_nat ((len replay_tags - 0 + batch_size - 1) / batch_size).
Let b : nat := Z.to_nat batch_size.

Lemma main_batches_chunks :
  ScrapeNoRestart.main_batches replay_tags batch_size =
  Ok (map (fun k => firstn b (skipn (0 + k * b) replay_tags)) (seq 0 count)).
Proof.
  unfold ScrapeNoRestart.main_batches, range3.
  destruct (Z.eqb_spec batch_size 0); [lia|].
  destruct (Z.ltb_spec 0 batch_size); [|lia].
  cbn [bind]. fold count. rewrite map_map. f_equal.
  apply map_ext_in. intros k Hk%in_seq.
  pose proof (len_nonneg replay_tags) as Hlen.
  destruct (range3_count 0 (len replay_tags) batch_size batch_size_pos Hlen)
    as [(H0 & Hreach & Hlast)|[Hz Hc]].
  - rewrite slice_chunk; [| unfold count in Hk; nia | lia].
    replace (Z.to_nat (0 + Z.of_nat k * batch_size)) with (0 + k * b)%nat
      by (unfold b; nia).
    reflexivity.
  - unfold count in Hk. rewrite Hc in Hk. simpl in Hk. lia.
Qed.

Lemma count_covers : (List.length replay_tags <= count * b)%nat.
Proof.
  pose proof (len_nonneg replay_tags) as Hlen.
  destruct (range3_count 0 (len replay_tags) batch_size batch_size_pos Hlen)
    as [(H0 & Hreach & Hlast)|[Hz Hc]]; unfold count, b, len in *; nia.
Qed.

Lemma count_tight k : (k < count)%nat -> (k * b < List.length replay_tags)%nat.
Proof.
  intros Hk. pose proof (len_nonneg replay_tags) as Hlen.
  destruct (range3_count 0 (len replay_tags) batch_size batch_size_pos Hlen)
    as [(H0 & Hreach & Hlast)|[Hz Hc]]; unfold count, b, len in *; nia.
Qed.

End MainBatches.

(** X1. The batches of [main] partition the shard.  For a positive batch
    size [main] cuts [replay_tags] into batches that, one after the
    other, are [replay_tags] again; no batch is empty, none is longer than
    the batch size, and every batch but the last has exactly that
    size. *)
Theorem main_batches_partition :
  forall (replay_tags : list string) (batch_size : Z),
    0 < batch_size ->
    exists batches,
      ScrapeNoRestart.main_batches replay_tags batch_size = Ok batches /\
      List.concat batches = replay_tags /\
      Forall (fun batch => 1 <= len batch <= batch_size) batches /\
      forall k, (S k < List.length batches)%nat ->
                len (nth k batches []) = batch_size.
Proof.
  intros replay_tags batch_size Hpos.
  eexists. split; [apply main_batches_chunks; exact Hpos|].
  set (count := Z.to_nat ((len replay_tags - 0 + batch_size - 1) / batch_size)).
  set (b := Z.to_nat batch_size).
  split; [|split].
  - rewrite concat_chunks_from. simpl skipn.
    apply firstn_all2. apply count_covers. exact Hpos.
  - apply Forall_forall. intros batch Hin.
    apply in_map_iff in Hin as (k & <- & Hk%in_seq).
    pose proof (count_tight replay_tags batch_size Hpos k ltac:(fold count; lia)).
    unfold len. rewrite length_firstn, length_skipn. fold b in H. unfold b in *. lia.
  - intros k Hk. rewrite length_map, length_seq in Hk.
    rewrite nth_indep with (d' := firstn b (skipn (0 + count * b) replay_tags))
      by (rewrite length_map, length_seq; lia).
    rewrite (map_nth (fun k => firstn b (skipn (0 + k * b) replay_tags))).
    rewrite seq_nth by lia.
    pose proof (count_tight replay_tags batch_size Hpos (S k) ltac:(fold count; lia)).
    unfold len. rewrite length_firstn, length_skipn. fold b in H. unfold b in *.
    simpl in *. lia.
Qed.

(** The theorem on 237 tags and the batch size 100 of the script: batches
    of 100, 100 and 37. *)
Lemma main_batches_partition_witness :
  exists batches,
    ScrapeNoRestart.main_batches (repeat "t" 237) ScrapeNoRestart.BATCH_SIZE
    = Ok batches /\
    List.concat batches = repeat "t" 237 /\
    map (@List.length string) batches = [100; 100; 37]%nat.
Proof.
  destruct (main_batches_partition (repeat "t" 237) ScrapeNoRestart.BATCH_SIZE eq_refl)
    as (batches & Hb & Hc & _).
  exists batches. split; [exact Hb | split; [exact Hc|]].
  vm_compute in Hb. injection Hb as <-. reflexivity.
Defined.

(** ** Chunk files *)

Section ChunkFiles.
Import Multiwindow.

Lemma remove_prefix_app p s : remove_prefix p (p ++ s) = Some s.
Proof.
  induction p as [|a p IH]; simpl; [now destruct s|].
  now rewrite Ascii.eqb_refl.
Qed.

Lemma remove_prefix_inv : forall p s r, remove_prefix p s = Some r -> s = p ++ r.
Proof.
  induction p as [|a p IH]; intros s r H.
  - destruct s; simpl in H; now injection H as <-.
  - destruct s as [|b s]; simpl in H; [discriminate|].
    destruct (Ascii.eqb_spec a b) as [->|]; [|discriminate].
    simpl. f_equal. now apply IH.
Qed.

Lemma leading_digits_app : forall d rest,
  Spec.all_digits d = true ->
  (forall c r, rest = String c r -> isdigit c = false) ->
  leading_digits (d ++ rest) = (d, rest).
Proof.
  induction d as [|c d IH]; intros rest Hd Hrest; simpl.
  - destruct rest as [|c r]; [reflexivity|].
    cbn [leading_digits]. now rewrite (Hrest c r eq_refl).
  - simpl in Hd. apply andb_true_iff in Hd as [Hc Hd].
    rewrite Hc, (IH rest Hd Hrest). reflexivity.
Qed.

Lemma leading_digits_inv : forall s d rest,
  leading_digits s = (d, rest) -> s = d ++ rest /\ Spec.all_digits d = true.
Proof.
  induction s as [|c s IH]; intros d rest H; simpl in H.
  - injection H as <- <-. split; reflexivity.
  - destruct (isdigit c) eqn:Hc.
    + destruct (leading_digits s) as [d' rest'] eqn:Hl.
      injection H as <- <-. destruct (IH _ _ eq_refl) as [-> Hd].
      split; [reflexivity|]. simpl. now rewrite Hc, Hd.
    + injection H as <- <-. split; reflexivity.
Qed.

(** The names the pattern matches are the chunk names, and the group is
    their number. *)
Lemma pattern_match_chunk number rest :
  Spec.all_digits number = true -> truthy number = true ->
  pattern_match (Spec.chunk_name number rest) = Some number.
Proof.
  intros Hd Hne. unfold pattern_match, Spec.chunk_name.
  rewrite remove_prefix_app.
  rewrite (leading_digits_app number (".csv" ++ rest) Hd).
  - rewrite Hne. now rewrite prefix_app.
  - intros c r [= <- _]. reflexivity.
Qed.

Lemma pattern_match_inv filename number :
  pattern_match filename = Some number ->
  exists rest,
    filename = Spec.chunk_name number rest /\
    Spec.all_digits number = true /\ truthy number = true.
Proof.
  unfold pattern_match. intros H.
  destruct (remove_prefix "battles_chunk_" filename) as [s|] eqn:Hp; [|discriminate].
  destruct (leading_digits s) as [group rest] eqn:Hl.
  destruct (truthy group) eqn:Hg; [|discriminate].
  destruct (prefix ".csv" rest) eqn:Hc; [|discriminate].
  injection H as <-.
  apply remove_prefix_inv in Hp. apply leading_digits_inv in Hl as [-> Hd].
  apply prefix_inv in Hc as [r ->].
  exists r. repeat split; assumption.
Qed.

(** [int] skips nothing in a run of digits, and reads it. *)
Lemma isdigit_not_space c : isdigit c = true -> isspace_int c = false.
Proof.
  unfold isdigit, digit_of, isspace_int.
  destruct ((48 <=? nat_of_ascii c) && (nat_of_ascii c <=? 57))%nat eqn:H;
    [|discriminate].
  intros _. apply andb_true_iff in H as [H1%Nat.leb_le H2%Nat.leb_le].
  repeat match goal with
         | |- context [(?a <=? ?b)%nat] => destruct (Nat.leb_spec a b); try lia
         | |- context [(?a =? ?b)%nat] => destruct (Nat.eqb_spec a b); try lia
         end; reflexivity.
Qed.

Lemma rstrip_digits : forall d, Spec.all_digits d = true -> rstrip_int d = d.
Proof.
  induction d as [|c d IH]; intros H; [reflexivity|].
  simpl in H. apply andb_true_iff in H as [Hc Hd].
  cbn [rstrip_int]. rewrite (IH Hd).
  destruct d; [now rewrite (isdigit_not_space c Hc) | reflexivity].
Qed.

Lemma strip_digits d : Spec.all_digits d = true -> rstrip_int (lstrip_int d) = d.
Proof.
  intros H.
  replace (lstrip_int d) with d; [now apply rstrip_digits|].
  destruct d as [|c d]; [reflexivity|]. simpl in *.
  apply andb_true_iff in H as [Hc _]. now rewrite (isdigit_not_space c Hc).
Qed.

Lemma digits_all : forall d after_digit acc,
  Spec.all_digits d = true -> 0 <= acc ->
  (truthy d = true \/ after_digit = true) ->
  exists n, digits after_digit acc d = Some n /\ acc <= n.
Proof.
  induction d as [|c d IH]; intros after_digit acc Hd Hacc Hne.
  - destruct Hne as [Hne| ->]; [discriminate|]. exists acc. split; [reflexivity | lia].
  - simpl in Hd. apply andb_true_iff in Hd as [Hc Hd].
    cbn [digits]. unfold isdigit in Hc.
    destruct (digit_of c) as [v|] eqn:Hv; [|discriminate].
    assert (0 <= v).
    { unfold digit_of in Hv.
      destruct ((48 <=? nat_of_ascii c) && (nat_of_ascii c <=? 57))%nat eqn:Hr;
        [|discriminate].
      apply andb_true_iff in Hr as [H1%Nat.leb_le _]. injection Hv as <-. lia. }
    destruct (IH true (10 * acc + v) Hd ltac:(lia) (or_intror eq_refl)) as (n & Hn & Hle).
    exists n. split; [exact Hn | lia].
Qed.

Lemma int_digits d :
  Spec.all_digits d = true -> truthy d = true ->
  exists n, int (Some d) = Ok n /\ 0 <= n.
Proof.
  intros Hd Hne. unfold int, int_literal. rewrite (strip_digits d Hd).
  destruct (digits_all d false 0 Hd ltac:(lia) (or_introl Hne)) as (n & Hn & Hle).
  exists n. split; [|exact Hle].
  destruct d as [|c d]; [discriminate|].
  simpl in Hd. apply andb_true_iff in Hd as [Hc _].
  assert (c <> "-"%char /\ c <> "+"%char) as [Hm Hp]
    by (split; intros ->; discriminate).
  destruct c as [[] [] [] [] [] [] [] []]; try congruence; now rewrite Hn.
Qed.

(** What the loop keeps: the biggest number seen so far. *)
Lemma biggest_spec : forall filenames max_num,
  0 <= max_num ->
  exists m,
    biggest filenames max_num = Ok m /\ max_num <= m /\
    (forall number rest n,
       In (Spec.chunk_name number rest) filenames ->
       Spec.all_digits number = true -> truthy number = true ->
       int (Some number) = Ok n -> n <= m) /\
    (m = max_num \/
     exists number rest,
       In (Spec.chunk_name number rest) filenames /\
       Spec.all_digits number = true /\ truthy number = true /\
       int (Some number) = Ok m).
Proof.
  induction filenames as [|filename rest IH]; intros max_num Hmax.
  - exists max_num. repeat split; [lia | intros ? ? ? [] | now left].
  - cbn [biggest].
    destruct (pattern_match filename) as [group|] eqn:Hpm.
    + destruct (pattern_match_inv _ _ Hpm) as (r & -> & Hd & Hne).
      destruct (int_digits group Hd Hne) as (num & Hnum & Hpos).
      rewrite Hnum. cbn [bind].
      destruct (IH (if max_num <? num then num else max_num)
                   ltac:(destruct (max_num <? num); lia))
        as (m & -> & Hle & Hub & Hatt).
      exists m. split; [reflexivity|].
      assert (max_num <= m /\ num <= m) as [H1 H2]
        by (destruct (Z.ltb_spec max_num num); lia).
      split; [exact H1 | split].
      * intros number rest' n [Heq|Hin] Hd' Hne' Hn.
        -- rewrite Heq, (pattern_match_chunk number rest' Hd' Hne') in Hpm.
           injection Hpm as <-. congruence.
        -- eapply Hub; eassumption.
      * destruct Hatt as [->|(number & rest' & Hin & Hrest)].
        -- destruct (Z.ltb_spec max_num num); [|now left].
           right. exists group, r. repeat split; try assumption. now left.
        -- right. exists number, rest'. split; [now right | exact Hrest].
    + destruct (IH max_num Hmax) as (m & -> & Hle & Hub & Hatt).
      exists m. split; [reflexivity | split; [exact Hle | split]].
      * intros number rest' n [Heq|Hin] Hd' Hne' Hn.
        -- rewrite Heq, (pattern_match_chunk number rest' Hd' Hne') in Hpm.
           discriminate.
        -- eapply Hub; eassumption.
      * destruct Hatt as [->|(number & rest' & Hin & Hrest)]; [now left|].
        right. exists number, rest'. split; [now right | exact Hrest].
Qed.

End ChunkFiles.

(** X2. [find_biggest_chunk] never raises.  It returns 0 for a path that
    is no folder and for a folder without chunk files.  Otherwise it
    returns the biggest number of a name that starts with
    [battles_chunk_<digits>.csv], whatever follows the [.csv]: no such
    name has a bigger number, and the number returned is that of one of
    them. *)
Theorem find_biggest_chunk_max :
  forall folder : option (list string),
    exists m,
      Multiwindow.find_biggest_chunk folder = Ok m /\ 0 <= m /\
      (folder = None -> m = 0) /\
      (forall filenames, folder = Some filenames ->
         (forall number rest n,
            In (Spec.chunk_name number rest) filenames ->
            Spec.all_digits number = true -> truthy number = true ->
            int (Some number) = Ok n -> n <= m) /\
         (m = 0 \/
          exists number rest,
            In (Spec.chunk_name number rest) filenames /\
            Spec.all_digits number = true /\ truthy number = true /\
            int (Some number) = Ok m)).
Proof.
  intros [filenames|].
  - destruct (biggest_spec filenames 0 ltac:(lia)) as (m & Hm & Hle & Hub & Hatt).
    exists m. split; [exact Hm | split; [exact Hle | split; [discriminate|]]].
    intros ? [= <-]. split; assumption.
  - exists 0. repeat split; try reflexivity; try lia; discriminate.
Qed.

(** The theorem on a folder with chunks 2, 10 and 7 (the last with
    leading zeros and a backup suffix) and a stray file: 10. *)
Lemma find_biggest_chunk_max_witness :
  Multiwindow.find_biggest_chunk
    (Some ["battles_chunk_2.csv"; "notes.txt"; "battles_chunk_10.csv";
           "battles_chunk_007.csv.bak"]) = Ok 10 /\
  7 <= 10.
Proof.
  destruct (find_biggest_chunk_max
              (Some ["battles_chunk_2.csv"; "notes.txt"; "battles_chunk_10.csv";
                     "battles_chunk_007.csv.bak"]))
    as (m & Hm & _ & _ & H).
  destruct (H _ eq_refl) as [Hub _].
  pose proof (Hub "007" ".bak" 7 ltac:(simpl; tauto) eq_refl eq_refl eq_refl) as H7.
  vm_compute in Hm. injection Hm as <-. split; [reflexivity | exact H7].
Defined.

Section RunChunks.
Import Multiwindow.

Variable player_ids : list string.
Variable chunk_size : Z.
Hypothesis chunk_size_pos : 0 < chunk_size.

Lemma chunk_loop_map (f : nat -> Z) : forall m a chunk_index,
  chunk_loop player_ids chunk_size (map f (seq a m)) chunk_index =
  map (fun k => (chunk_index + Z.of_nat (k - a),
                 slice player_ids (Some (f k)) (Some (f k + chunk_size))))
      (seq a m).
Proof.
  induction m as [|m IH]; intros a chunk_index; [reflexivity|].
  cbn [seq map chunk_loop]. rewrite Nat.sub_diag, Z.add_0_r. f_equal.
  rewrite IH. apply map_ext_in. intros k Hk%in_seq.
  f_equal. lia.
Qed.

(** The chunks of a run that finds [number_of_files] chunk files. *)
Lemma run_chunks_spec number_of_files :
  0 <= number_of_files ->
  let b := Z.to_nat chunk_size in
  let s0 := Z.to_nat (number_of_files * chunk_size) in
  exists count,
    run_chunks number_of_files player_ids chunk_size =
    Ok (map (fun k => (number_of_files + 1 + Z.of_nat k,
                       firstn b (skipn (s0 + k * b) player_ids)))
            (seq 0 count)) /\
    (List.length player_ids - s0 <= count * b)%nat /\
    (forall k, (k < count)%nat -> (s0 + k * b < List.length player_ids)%nat).
Proof.
  intros Hn b s0. unfold run_chunks, range3.
  destruct (Z.eqb_spec chunk_size 0); [lia|].
  destruct (Z.ltb_spec 0 chunk_size); [|lia].
  cbn [bind]. rewrite chunk_loop_map.
  set (count := Z.to_nat ((len player_ids - number_of_files * chunk_size
                           + chunk_size - 1) / chunk_size)).
  exists count.
  assert (Hcases :
            (List.length player_ids - s0 <= count * b)%nat /\
            (forall k, (k < count)%nat -> (s0 + k * b < List.length player_ids)%nat)).
  { destruct (Z.le_gt_cases (number_of_files * chunk_size) (len player_ids))
      as [Hle|Hgt].
    - destruct (range3_count (number_of_files * chunk_size) (len player_ids)
                  chunk_size chunk_size_pos Hle)
        as [(H0 & Hreach & Hlast)|[Hz Hc]]; unfold count, b, s0, len in *.
      + split; [nia | intros k Hk; nia].
      + rewrite Hc. split; [lia | intros k Hk; simpl in Hk; lia].
    - assert (count = 0%nat) as ->.
      { unfold count.
        assert ((len player_ids - number_of_files * chunk_size + chunk_size - 1)
                / chunk_size <= 0); [|lia].
        assert ((len player_ids - number_of_files * chunk_size + chunk_size - 1)
                < chunk_size) by lia.
        destruct (Z.le_gt_cases 0
                    (len player_ids - number_of_files * chunk_size + chunk_size - 1)).
        - rewrite Z.div_small; lia.
        - apply Z.lt_le_incl, Z.div_lt_upper_bound; lia. }
      unfold s0, len in *. split; [lia | intros k Hk; lia]. }
  destruct Hcases as [Hcover Htight].
  split; [|split; assumption].
  f_equal. apply map_ext_in. intros k Hk%in_seq.
  specialize (Htight k ltac:(lia)).
  f_equal; [lia|].
  rewrite slice_chunk; [| unfold s0, b, len in *; nia | lia].
  f_equal. f_equal. unfold s0, b. nia.
Qed.

End RunChunks.

(** X3. The chunks of [run] and their file numbers.  With positive chunk
    size and [number_of_files] chunk files found, [run] skips the first
    [number_of_files * CHUNK_SIZE] players and cuts the others into chunks
    that, one after the other, are exactly those others; and the chunk it
    saves under file number [c] is never empty and holds the players at
    the positions [(c - 1) * CHUNK_SIZE] up to [c * CHUNK_SIZE] of the
    whole list, so a resumed run numbers its chunks as a fresh run
    would. *)
Theorem run_chunks_resume :
  forall (player_ids : list string) (chunk_size number_of_files : Z),
    0 < chunk_size -> 0 <= number_of_files ->
    exists chunks,
      Multiwindow.run_chunks number_of_files player_ids chunk_size = Ok chunks /\
      List.concat (map snd chunks)
        = skipn (Z.to_nat (number_of_files * chunk_size)) player_ids /\
      Forall (fun c =>
                number_of_files < fst c /\
                snd c <> [] /\
                snd c = firstn (Z.to_nat chunk_size)
                               (skipn (Z.to_nat ((fst c - 1) * chunk_size)) player_ids))
             chunks.
Proof.
  intros player_ids chunk_size number_of_files Hsize Hfiles.
  destruct (run_chunks_spec player_ids chunk_size Hsize number_of_files Hfiles)
    as (count & Hrun & Hcover & Htight).
  eexists. split; [exact Hrun|]. split.
  - rewrite map_map. cbn [snd]. rewrite concat_chunks_from.
    apply firstn_all2. rewrite length_skipn. lia.
  - apply Forall_forall. intros c Hin.
    apply in_map_iff in Hin as (k & <- & Hk%in_seq). cbn [fst snd].
    specialize (Htight k ltac:(lia)).
    split; [lia | split].
    + intros Hnil. apply (f_equal (@List.length string)) in Hnil.
      rewrite length_firstn, length_skipn in Hnil. simpl in Hnil. lia.
    + f_equal. f_equal. nia.
Qed.

(** The theorem on five players, chunks of two and one chunk file found:
    files 2 and 3 get the players from the third on. *)
Lemma run_chunks_resume_witness :
  Multiwindow.run_chunks 1 ["p1"; "p2"; "p3"; "p4"; "p5"] 2
  = Ok [(2, ["p3"; "p4"]); (3, ["p5"])] /\
  List.concat (map snd [(2, ["p3"; "p4"]); (3, ["p5"])])
  = skipn 2 ["p1"; "p2"; "p3"; "p4"; "p5"].
Proof.
  destruct (run_chunks_resume ["p1"; "p2"; "p3"; "p4"; "p5"] 2 1 eq_refl)
    as (chunks & Hrun & Hconcat & _); [discriminate|].
  vm_compute in Hrun. injection Hrun as <-.
  split; [reflexivity | exact Hconcat].
Defined.

(** ** Round-robin split *)

Section RoundRobin.
Import Multiwindow.

Lemma getitem_in_range {A} (l : list A) (j : nat) d :
  (j < List.length l)%nat -> getitem l (Z.of_nat j) = Ok (nth j l d).
Proof.
  intros Hj. rewrite getitem_nat.
  now rewrite (nth_error_nth' l d Hj).
Qed.

Lemma setitem_in_range {A} (l : list A) (j : nat) v :
  (j < List.length l)%nat ->
  setitem l (Z.of_nat j) v = Ok (firstn j l ++ v :: skipn (S j) l)%list.
Proof.
  intros Hj.
  assert (E : (Z.of_nat j <? 0) = false) by (apply Z.ltb_ge; lia).
  assert (E' : (len l <=? Z.of_nat j) = false) by (apply Z.leb_gt; unfold len; lia).
  unfold setitem. rewrite E. cbv zeta. rewrite E, E'. cbn [orb].
  now rewrite Nat2Z.id.
Qed.

Lemma nth_replaced {A} (l : list A) (j j' : nat) v d :
  (j < List.length l)%nat ->
  nth j' (firstn j l ++ v :: skipn (S j) l) d = if (j' =? j)%nat then v else nth j' l d.
Proof.
  intros Hj.
  assert (Hlen : List.length (firstn j l) = j) by (rewrite length_firstn; lia).
  destruct (Nat.eqb_spec j' j) as [->|Hne].
  - rewrite app_nth2 by lia. now rewrite Hlen, Nat.sub_diag.
  - destruct (Nat.lt_ge_cases j' j).
    + rewrite app_nth1 by lia. now rewrite nth_firstn, (proj2 (Nat.ltb_lt _ _)).
    + rewrite app_nth2 by lia. rewrite Hlen.
      destruct (j' - j)%nat as [|m] eqn:Hm; [lia|]. cbn [nth].
      rewrite nth_skipn. f_equal. lia.
Qed.

Variable n : Z.
Hypothesis n_pos : 0 < n.

(** The loop appends to each bucket its class of the ids still to
    come. *)
Lemma distribute_spec : forall ids idx buckets,
  0 <= idx -> List.length buckets = Z.to_nat n ->
  distribute n idx ids buckets =
  Ok (map (fun j => nth j buckets [] ++ Spec.class_from n idx (Z.of_nat j) ids)%list
          (seq 0 (Z.to_nat n))).
Proof.
  induction ids as [|pid rest IH]; intros idx buckets Hidx Hlen.
  - cbn [distribute Spec.class_from]. f_equal.
    rewrite <- Hlen. clear. rewrite (map_ext _ (fun j => nth j buckets [])).
    + apply nth_ext with (d := []) (d' := (fun j => nth j buckets []) 0%nat);
        [now rewrite length_map, length_seq|].
      intros k Hk.
      rewrite (map_nth (fun j => nth j buckets []) (seq 0 (List.length buckets)) 0%nat).
      now rewrite seq_nth.
    + intros j. apply app_nil_r.
  - cbn [distribute]. unfold mod_. destruct (Z.eqb_spec n 0); [lia|]. cbn [bind].
    pose proof (Z.mod_pos_bound idx n n_pos) as Hmod.
    set (j0 := Z.to_nat (idx mod n)).
    assert (Hj0 : (j0 < List.length buckets)%nat) by (unfold j0; lia).
    assert (E : idx mod n = Z.of_nat j0) by (unfold j0; lia).
    rewrite E.
    rewrite (getitem_in_range buckets j0 [] Hj0). cbn [bind].
    rewrite (setitem_in_range buckets j0 _ Hj0). cbn [bind].
    rewrite IH; [| lia | rewrite length_app, length_firstn; cbn [List.length];
                         rewrite length_skipn; lia].
    f_equal. apply map_ext_in. intros j Hj%in_seq.
    rewrite (nth_replaced buckets j0 j _ [] Hj0). cbn [Spec.class_from].
    destruct (Nat.eqb_spec j j0) as [->|Hne].
    + replace (idx mod n =? Z.of_nat j0) with true
        by (symmetry; apply Z.eqb_eq; unfold j0; lia).
      now rewrite <- app_assoc.
    + replace (idx mod n =? Z.of_nat j) with false
        by (symmetry; apply Z.eqb_neq; unfold j0 in Hne; lia).
      reflexivity.
Qed.

Lemma class_from_snoc {A} (j : Z) (x : A) : forall ids idx,
  Spec.class_from n idx j (ids ++ [x]) =
  (Spec.class_from n idx j ids
   ++ if (idx + len ids) mod n =? j then [x] else [])%list.
Proof.
  induction ids as [|y ids IH]; intros idx.
  - simpl. unfold len. simpl. now rewrite Z.add_0_r.
  - cbn [app Spec.class_from]. rewrite IH.
    replace (idx + 1 + len ids) with (idx + len (y :: ids))
      by (unfold len; simpl List.length; lia).
    now destruct (idx mod n =? j).
Qed.

Lemma succ_div_mod m :
  0 <= m ->
  (m mod n + 1 < n -> (m + 1) / n = m / n /\ (m + 1) mod n = m mod n + 1) /\
  (m mod n + 1 = n -> (m + 1) / n = m / n + 1 /\ (m + 1) mod n = 0).
Proof.
  intros Hm.
  pose proof (Z.div_mod m n ltac:(lia)) as Hdm.
  pose proof (Z.mod_pos_bound m n n_pos) as Hr.
  pose proof (Z.div_mod (m + 1) n ltac:(lia)) as Hdm'.
  pose proof (Z.mod_pos_bound (m + 1) n n_pos) as Hr'.
  split; intros H.
  - apply (Z.div_mod_unique n); lia.
  - apply (Z.div_mod_unique n); lia.
Qed.

(** The sizes of the classes: the first [len mod n] hold one more. *)
Lemma class_from_length {A} (j : Z) : forall ids : list A,
  0 <= j < n ->
  len (Spec.class_from n 0 j ids) =
  if j <? len ids mod n then len ids / n + 1 else len ids / n.
Proof.
  intros ids Hj. induction ids as [|x ids IH] using rev_ind.
  - simpl. unfold len. simpl. rewrite Z.mod_0_l, Z.div_0_l by lia.
    destruct (Z.ltb_spec j 0); [lia | reflexivity].
  - rewrite class_from_snoc. unfold len in *. rewrite !length_app. simpl List.length.
    replace (Z.of_nat (List.length ids + 1)) with (Z.of_nat (List.length ids) + 1) by lia.
    set (m := Z.of_nat (List.length ids)) in *.
    pose proof (Z.mod_pos_bound m n n_pos) as Hr.
    destruct (succ_div_mod m ltac:(unfold m; lia)) as [Hsmall Hwrap].
    replace (Z.of_nat (List.length (Spec.class_from n 0 j ids)
                       + List.length (if m mod n =? j then [x] else [])))
      with (Z.of_nat (List.length (Spec.class_from n 0 j ids))
            + (if m mod n =? j then 1 else 0))
      by (destruct (m mod n =? j); simpl; lia).
    rewrite IH.
    destruct (Z.lt_ge_cases (m mod n + 1) n) as [Hlt|Hge].
    + destruct (Hsmall Hlt) as [-> ->].
      destruct (Z.ltb_spec j (m mod n)), (Z.eqb_spec (m mod n) j),
               (Z.ltb_spec j (m mod n + 1)); lia.
    + destruct (Hwrap ltac:(lia)) as [-> ->].
      destruct (Z.ltb_spec j (m mod n)), (Z.eqb_spec (m mod n) j),
               (Z.ltb_spec j 0); lia.
Qed.

Lemma concat_cons_at {A} (x : A) (f g : nat -> list A) (j0 count : nat) :
  (j0 < count)%nat ->
  (forall j, f j = if (j =? j0)%nat then x :: g j else g j) ->
  Permutation (List.concat (map f (seq 0 count)))
              (x :: List.concat (map g (seq 0 count))).
Proof.
  intros Hj0 Hf.
  replace count with (j0 + S (count - S j0))%nat by lia.
  rewrite seq_app, !map_app, !concat_app. cbn [seq map List.concat Nat.add].
  rewrite (Hf j0), Nat.eqb_refl.
  rewrite (map_ext_in f g (seq 0 j0)).
  - rewrite (map_ext_in f g (seq (S j0) (count - S j0))).
    + cbn [app]. symmetry. apply Permutation_middle.
    + intros j Hj%in_seq. rewrite Hf.
      destruct (Nat.eqb_spec j j0); [lia | reflexivity].
  - intros j Hj%in_seq. rewrite Hf.
    destruct (Nat.eqb_spec j j0); [lia | reflexivity].
Qed.

(** The classes share out the ids: each id is in exactly one. *)
Lemma classes_permutation {A} : forall (ids : list A) idx,
  0 <= idx ->
  Permutation
    (List.concat (map (fun j => Spec.class_from n idx (Z.of_nat j) ids)
                      (seq 0 (Z.to_nat n))))
    ids.
Proof.
  induction ids as [|x ids IH]; intros idx Hidx.
  - cbn [Spec.class_from]. induction (seq 0 (Z.to_nat n)); simpl; auto.
  - pose proof (Z.mod_pos_bound idx n n_pos) as Hmod.
    rewrite (concat_cons_at x _
               (fun j => Spec.class_from n (idx + 1) (Z.of_nat j) ids)
               (Z.to_nat (idx mod n))).
    + apply perm_skip, IH. lia.
    + lia.
    + intros j. cbn [Spec.class_from].
      destruct (Z.eqb_spec (idx mod n) (Z.of_nat j)), (Nat.eqb_spec j (Z.to_nat (idx mod n)));
        try reflexivity; lia.
Qed.

End RoundRobin.

(** X4. [split_for_workers] deals the ids round robin.  With at least one
    worker allowed, it makes [min(max_workers, len(ids))] buckets; bucket
    [j] holds, in their order, the ids at the positions [j], [j + n],
    [j + 2n], ... of the list; every id is in exactly one bucket; and the
    first [len(ids) mod n] buckets hold one id more than the others, so
    that no bucket is empty. *)
Theorem split_for_workers_round_robin :
  forall (ids : list string) (max_workers : Z),
    1 <= max_workers ->
    let n := Z.min max_workers (len ids) in
    exists buckets,
      Multiwindow.split_for_workers ids max_workers = Ok buckets /\
      buckets = map (fun j => Spec.class_from n 0 (Z.of_nat j) ids) (seq 0 (Z.to_nat n)) /\
      len buckets = n /\
      Permutation (List.concat buckets) ids /\
      forall j, (j < Z.to_nat n)%nat ->
        len (nth j buckets []) =
        (if Z.of_nat j <? len ids mod n then len ids / n + 1 else len ids / n) /\
        1 <= len (nth j buckets []).
Proof.
  intros ids max_workers Hmax n.
  pose proof (len_nonneg ids) as Hlen.
  eexists. split; [|split; [reflexivity|]].
  - unfold Multiwindow.split_for_workers. fold n.
    destruct (Z.eq_dec n 0) as [Hz|Hnz].
    + assert (ids = []) as -> by (destruct ids; [reflexivity | unfold n, len in *; simpl in *; lia]).
      rewrite Hz. reflexivity.
    + rewrite distribute_spec; [| lia | lia |].
      * f_equal. apply map_ext_in. intros j _.
        assert (Hnil : forall (l : list Z) k,
                   nth k (map (fun _ => @nil string) l) [] = [])
          by (induction l; destruct k; simpl; auto).
        now rewrite Hnil.
      * unfold range. now rewrite !length_map, length_seq.
  - split; [unfold len; rewrite length_map, length_seq; lia|].
    destruct (Z.eq_dec n 0) as [Hz|Hnz].
    + assert (ids = []) as -> by (destruct ids; [reflexivity | unfold n, len in *; simpl in *; lia]).
      rewrite Hz. split; [constructor | intros j Hj; simpl in Hj; lia].
    + assert (Hn : 0 < n) by lia.
      split; [apply classes_permutation; [exact Hn | lia]|].
      intros j Hj.
      rewrite (nth_indep _ [] (Spec.class_from n 0 (Z.of_nat (Z.to_nat n)) ids))
        by (rewrite length_map, length_seq; lia).
      rewrite (map_nth (fun j => Spec.class_from n 0 (Z.of_nat j) ids)).
      rewrite seq_nth by lia. cbn [Nat.add].
      rewrite class_from_length by lia.
      split; [reflexivity|].
      assert (1 <= len ids / n) by (apply Z.div_le_lower_bound; lia).
      destruct (Z.of_nat j <? len ids mod n); lia.
Qed.

(** The theorem on five players and the two pages of the script. *)
Lemma split_for_workers_round_robin_witness :
  Multiwindow.split_for_workers ["p1"; "p2"; "p3"; "p4"; "p5"] 2
  = Ok [["p1"; "p3"; "p5"]; ["p2"; "p4"]] /\
  Permutation (List.concat [["p1"; "p3"; "p5"]; ["p2"; "p4"]])
              ["p1"; "p2"; "p3"; "p4"; "p5"].
Proof.
  destruct (split_for_workers_round_robin ["p1"; "p2"; "p3"; "p4"; "p5"] 2 ltac:(lia))
    as (buckets & Hsplit & Heq & _ & Hperm & _).
  vm_compute in Heq. subst buckets. split; assumption.
Defined.

(** X5. [split_for_workers] at its edges.  An empty list of ids gives no
    bucket, whatever [max_workers] is.  With ids to deal and
    [max_workers] zero it raises [ZeroDivisionError]; with [max_workers]
    negative it raises [IndexError], there being no bucket to append
    to. *)
Theorem split_for_workers_edges :
  forall (max_workers : Z),
    Multiwindow.split_for_workers [] max_workers = Ok [] /\
    (forall pid ids,
       (max_workers = 0 ->
        Multiwindow.split_for_workers (pid :: ids) max_workers = Raise ZeroDivisionError) /\
       (max_workers < 0 ->
        Multiwindow.split_for_workers (pid :: ids) max_workers = Raise IndexError)).
Proof.
  intros max_workers. split.
  - unfold Multiwindow.split_for_workers, range.
    replace (Z.to_nat (Z.min max_workers (len []))) with 0%nat
      by (unfold len; simpl; lia).
    reflexivity.
  - intros pid ids.
    assert (Hlen : 1 <= len (pid :: ids)) by (unfold len; simpl List.length; lia).
    split; intros H; unfold Multiwindow.split_for_workers.
    + rewrite Z.min_l by lia. subst. reflexivity.
    + rewrite Z.min_l by lia. unfold range.
      replace (Z.to_nat max_workers) with 0%nat by lia.
      cbn [seq map Multiwindow.distribute]. unfold mod_.
      destruct (Z.eqb_spec max_workers 0); [lia|].
      rewrite Z.mod_0_l by lia. reflexivity.
Qed.

(** ** The checkpoint, from the text of the output file *)

Section FileText.
Import ScrapeNoRestart.

(** What [reach_current] comes to, by the identifier it reads. *)
Lemma reach_current_by_id output :
  (forall shard, reach_current output shard = Ok shard) \/
  exists final_id,
    forall shard,
      reach_current output shard =
      match index final_id shard with
      | Ok idx => Ok (slice shard (Some (idx + 1)) None)
      | Raise _ => Ok shard
      end.
Proof.
  destruct output as [content|]; [|now left].
  destruct (tail content) as [last_line|] eqn:Htail.
  - right. exists (Spec.first_field last_line). intros shard.
    unfold reach_current. rewrite Htail, (tail_truthy _ _ Htail), getitem_split_0.
    cbn [bind]. rewrite strip_trim. fold (Spec.first_field last_line).
    destruct (in_dec string_dec (Spec.first_field last_line) shard) as [Hin|Hnot].
    + destruct (first_occurrence _ _ Hin) as (before & after & -> & Hb).
      now rewrite index_found.
    + now rewrite index_absent.
  - left. intros shard. unfold reach_current. now rewrite Htail.
Qed.

Lemma strip_fixed_line_end : forall s,
  strip s = s -> strip (s ++ String LF EmptyString) = s.
Proof.
  assert (Hr : forall s, rstrip (s ++ String LF EmptyString) = rstrip s).
  { induction s as [|c s IH]; [reflexivity|].
    change (String c s ++ String LF EmptyString)
      with (String c (s ++ String LF EmptyString)).
    cbn [rstrip]. now rewrite IH. }
  intros [|c s] H; [reflexivity|].
  unfold strip in *.
  change (String c s ++ String LF EmptyString)
    with (String c (s ++ String LF EmptyString)).
  cbn [lstrip] in *. destruct (isspace c) eqn:Hc.
  - exfalso. assert (Hlen : forall t, (String.length (rstrip t) <= String.length t)%nat).
    { induction t as [|x t IHt]; simpl; [lia|].
      destruct (rstrip t); [destruct (isspace x)|]; simpl in *; lia. }
    assert (Hl : forall t, (String.length (lstrip t) <= String.length t)%nat).
    { induction t as [|x t IHt]; simpl; [lia|].
      destruct (isspace x); simpl; lia. }
    pose proof (Hlen (lstrip s)) as H1. pose proof (Hl s) as H2.
    rewrite H in H1. simpl in H1. lia.
  - change (String c (s ++ String LF EmptyString))
      with (String c s ++ String LF EmptyString).
    now rewrite Hr.
Qed.

End FileText.

(** X6. The checkpoint read from the text of the output file.  When the
    text ends in a full row whose first field is [id] (a field without
    comma and without white space around it, in a row without line end
    inside), [reach_current] returns the part of the shard behind the
    first [id], whatever was written before that row.  When the text ends
    in an empty line, the last line read is that empty line, no identifier
    is found, and the whole shard is returned. *)
Theorem reach_current_reads_last_row :
  forall (written id rest : string) (before after shard : list string),
    (Spec.one_line (id ++ "," ++ rest) = true ->
     Spec.occurs "," id = false ->
     strip id = id ->
     ~ In id before ->
     ScrapeNoRestart.reach_current
       (Some (written ++ String ScrapeNoRestart.LF
                (id ++ "," ++ rest ++ String ScrapeNoRestart.LF EmptyString)))
       (before ++ id :: after)
     = Ok after) /\
    (~ In EmptyString shard ->
     ScrapeNoRestart.reach_current
       (Some (written ++ String ScrapeNoRestart.LF
                (String ScrapeNoRestart.LF EmptyString)))
       shard
     = Ok shard).
Proof.
  intros written id rest before after shard. split.
  - intros Hline Hcomma Hstrip Hnot.
    assert (Ht : forall s, truthy (s ++ String ScrapeNoRestart.LF EmptyString) = true)
      by (intros [|? ?]; reflexivity).
    unfold ScrapeNoRestart.reach_current.
    replace (id ++ "," ++ rest ++ String ScrapeNoRestart.LF EmptyString)
      with ((id ++ "," ++ rest) ++ String ScrapeNoRestart.LF EmptyString)
      by (rewrite append_assoc; reflexivity).
    rewrite (tail_last_line _ _ Hline), Ht, getitem_split_0. cbn [bind].
    replace ((id ++ "," ++ rest) ++ String ScrapeNoRestart.LF EmptyString)
      with (id ++ "," ++ (rest ++ String ScrapeNoRestart.LF EmptyString))
      by (rewrite append_assoc; reflexivity).
    rewrite before_first_stem by (reflexivity || (simpl; lia) || assumption).
    rewrite Hstrip, index_found by exact Hnot.
    now rewrite slice_after.
  - intros Hnot.
    unfold ScrapeNoRestart.reach_current.
    change (String ScrapeNoRestart.LF EmptyString)
      with (EmptyString ++ String ScrapeNoRestart.LF EmptyString).
    rewrite (tail_last_line written EmptyString eq_refl).
    cbn [append truthy]. rewrite getitem_split_0. cbn [bind].
    change (strip (Spec.before_first "," (String ScrapeNoRestart.LF EmptyString)))
      with EmptyString.
    now rewrite index_absent.
Qed.

(** The theorem on a file of a header and two rows, and on the same file
    with an empty line behind them. *)
Lemma reach_current_reads_last_row_witness :
  ScrapeNoRestart.reach_current
    (Some ("replay_tag,side" ++ String "010" ("a,1" ++ String "010"
            ("b,0" ++ String "010" ""))))
    ["a"; "b"; "c"]
  = Ok ["c"] /\
  ScrapeNoRestart.reach_current
    (Some ("replay_tag,side" ++ String "010" ("a,1" ++ String "010"
            ("b,0" ++ String "010" (String "010" "")))))
    ["a"; "b"; "c"]
  = Ok ["a"; "b"; "c"].
Proof.
  split.
  - destruct (reach_current_reads_last_row
                ("replay_tag,side" ++ String "010" "a,1") "b" "0" ["a"] ["c"] [])
      as [H _].
    apply H; [reflexivity | reflexivity | reflexivity |].
    intros [H1|[]]. discriminate.
  - destruct (reach_current_reads_last_row
                ("replay_tag,side" ++ String "010" ("a,1" ++ String "010" "b,0"))
                "" "" [] [] ["a"; "b"; "c"])
      as [_ H].
    apply H. intros [H1|[H1|[H1|[]]]]; discriminate.
Defined.

(** X7. Resolving twice changes nothing.  [reach_current] never raises
    and returns a suffix of the shard; when no identifier occurs twice in
    the shard, resolving the result again against the same output file
    returns it unchanged. *)
Theorem reach_current_idempotent :
  forall (output : option string) (shard : list string),
    NoDup shard ->
    exists rest k,
      ScrapeNoRestart.reach_current output shard = Ok rest /\
      rest = skipn k shard /\
      ScrapeNoRestart.reach_current output rest = Ok rest.
Proof.
  intros output shard Hnodup.
  destruct (reach_current_by_id output) as [Hall | [final_id Hid]].
  - exists shard, 0%nat. repeat split; apply Hall.
  - destruct (in_dec string_dec final_id shard) as [Hin|Hnot].
    + destruct (first_occurrence _ _ Hin) as (before & after & Heq & Hb).
      exists after, (S (List.length before)).
      assert (Hafter : ~ In final_id after).
      { rewrite Heq in Hnodup. apply NoDup_remove_2 in Hnodup.
        intros H. apply Hnodup, in_or_app. now right. }
      assert (Hskip : forall (b : list string) x a,
                 a = skipn (S (List.length b)) (b ++ x :: a)%list)
        by (induction b as [|y b IHb]; intros x a; [reflexivity | apply IHb]).
      subst shard.
      rewrite !Hid, index_found, (index_absent _ _ Hafter), slice_after by exact Hb.
      repeat split. apply Hskip.
    + exists shard, 0%nat. rewrite Hid, (index_absent _ _ Hnot). repeat split.
Qed.

(** The theorem on the shard [a, b, c] and an output that ends with the
    row of [b]. *)
Lemma reach_current_idempotent_witness :
  NoDup ["a"; "b"; "c"] /\
  exists rest,
    ScrapeNoRestart.reach_current (Some ("b,0" ++ String "010" "")) ["a"; "b"; "c"]
    = Ok rest /\
    ScrapeNoRestart.reach_current (Some ("b,0" ++ String "010" "")) rest = Ok rest.
Proof.
  assert (Hnodup : NoDup ["a"; "b"; "c"]).
  { repeat constructor; simpl; intuition discriminate. }
  split; [exact Hnodup|].
  destruct (reach_current_idempotent (Some ("b,0" ++ String "010" "")) ["a"; "b"; "c"]
              Hnodup) as (rest & k & H1 & _ & H2).
  exists rest. split; assumption.
Defined.

(** ** What the workers of a batch keep to *)

Section PoolResults.
Import ScrapeNoRestart.

Lemma dict_get_set {V} (k k' : string) (v : V) : forall d,
  dict_get k (dict_set k' v d) = if String.eqb k' k then Some v else dict_get k d.
Proof.
  induction d as [|[k0 v0] d IH]; [reflexivity|].
  cbn [dict_set dict_get].
  destruct (String.eqb_spec k0 k') as [->|Hne]; cbn [dict_get].
  - now destruct (String.eqb k' k).
  - rewrite IH. destruct (String.eqb_spec k0 k) as [->|_]; [|reflexivity].
    destruct (String.eqb_spec k' k); [congruence | reflexivity].
Qed.

Lemma in_replaced {X} (x w w' : X) before after :
  In x (before ++ w' :: after) -> x = w' \/ In x (before ++ w :: after).
Proof.
  rewrite !in_app_iff. simpl. intuition auto.
Qed.

Lemma forall_replaced {X} (P : X -> Prop) (w w' : X) before after :
  P w' -> Forall P (before ++ w :: after) -> Forall P (before ++ w' :: after).
Proof.
  intros Hw H. apply Forall_app in H as [Hb Ha]. inversion Ha; subst.
  apply Forall_app. split; [assumption | now constructor].
Qed.

Variable batch_tags : list string.
Variable overall_done : Z.
Variable d : option (list csv_line).
Variables batch_size total_tags : Z.

Lemma start_keeps workers out :
  Spec.workers_keep_to batch_tags overall_done d
    (start_batch batch_tags workers overall_done out d).
Proof.
  unfold Spec.workers_keep_to, start_batch.
  cbn [fst snd disk overall_completed batch_completed queue results].
  split; [reflexivity|]. split; [lia|]. split; [|split; [|split]].
  - intros tag [Hin|Hin]%in_app_iff.
    + apply in_map_iff in Hin as (t & [= ->] & Ht). exact Ht.
    + apply repeat_spec in Hin. discriminate.
  - intros c tag Hin%repeat_spec. discriminate.
  - intros tag df [=].
  - induction (Z.to_nat workers) as [|k IH]; simpl; constructor;
      [exact I | exact IH].
Qed.

(** A worker that is replaced by one that awaits no fetch and counts
    within range. *)
Lemma replaced_keeps (s s' : shared) (w w' : worker) before after :
  disk s' = disk s ->
  overall_completed s' - batch_completed s'
  = overall_completed s - batch_completed s ->
  queue s' = queue s ->
  results s' = results s ->
  is_fetching w' = false ->
  Spec.count_in_range w' ->
  Spec.workers_keep_to batch_tags overall_done d (s, (before ++ w :: after)%list) ->
  Spec.workers_keep_to batch_tags overall_done d (s', (before ++ w' :: after)%list).
Proof.
  intros Hd Hc Hq Hr Hw Hrange' (Hdisk & Hcount & Hqueue & Hfetching & Hresults & Hrange).
  unfold Spec.workers_keep_to. cbn [fst snd] in *.
  rewrite Hd, Hq, Hr.
  split; [exact Hdisk|]. split; [lia|]. split; [exact Hqueue|].
  split; [|split; [exact Hresults|]].
  - intros c t Hin.
    destruct (in_replaced _ w _ _ _ Hin) as [<-|Hin']; [discriminate|].
    now apply (Hfetching c).
  - now apply (forall_replaced _ w).
Qed.

Lemma step_keeps st st' :
  step batch_size total_tags st st' ->
  Spec.workers_keep_to batch_tags overall_done d st ->
  Spec.workers_keep_to batch_tags overall_done d st'.
Proof.
  intros Hstep Hkeeps.
  destruct Hstep as [s before after outcome
                    | s before n after item q Hhead
                    | s before n tag after response
                    | s before after outcome].
  - apply (replaced_keeps s s Creating); try reflexivity; try exact Hkeeps;
      destruct outcome as [[]|e]; cbn [created is_fetching Spec.count_in_range];
      try reflexivity; try exact I; lia.
  - destruct Hkeeps as (Hdisk & Hcount & Hqueue & Hfetching & Hresults & Hrange).
    cbn [fst snd] in *.
    assert (Hn : 0 <= n < 10).
    { apply Forall_app in Hrange as [_ Ha]. now inversion Ha. }
    assert (Hq' : forall t, In (Some t) q -> In t batch_tags).
    { intros t Hin. apply Hqueue. rewrite Hhead. now right. }
    unfold Spec.workers_keep_to.
    destruct item as [tag|].
    + cbn [got fst snd set_queue disk overall_completed batch_completed queue results].
      split; [exact Hdisk|]. split; [exact Hcount|]. split; [exact Hq'|].
      split; [|split; [exact Hresults|]].
      * intros c t Hin.
        destruct (in_replaced _ (AtGet n) _ _ _ Hin) as [[= -> ->]|Hin'].
        -- apply Hqueue. rewrite Hhead. now left.
        -- now apply (Hfetching c).
      * now apply (forall_replaced _ (AtGet n)).
    + unfold got, task_done.
      destruct (unfinished_tasks (set_queue q s) <=? 0);
        cbn [print fst snd set_queue disk overall_completed batch_completed queue
             results];
        (split; [exact Hdisk|]); (split; [exact Hcount|]); (split; [exact Hq'|]);
        (split; [|split; [exact Hresults|]]);
        try (intros c t Hin;
             destruct (in_replaced _ (AtGet n) _ _ _ Hin) as [[=]|Hin'];
             now apply (Hfetching c));
        now apply (forall_replaced _ (AtGet n)).
  - destruct Hkeeps as (Hdisk & Hcount & Hqueue & Hfetching & Hresults & Hrange).
    cbn [fst snd] in *.
    assert (Hn : 0 <= n < 10).
    { apply Forall_app in Hrange as [_ Ha]. now inversion Ha. }
    assert (Htag : In tag batch_tags).
    { apply (Hfetching n). apply in_or_app. right. now left. }
    destruct (fetched_any (len before) n tag (fetch_replay_with_page response tag)
                batch_size total_tags s)
      as (wk & s' & Heq & Hq' & Hd' & Hb' & Ho' & Hr' & _ & Hw).
    rewrite Heq. cbn [fst snd].
    assert (Hwk : is_fetching wk = false /\ Spec.count_in_range wk).
    { destruct Hw as [[_ [[-> Hlt]|[-> _]]]|[[e ->] _]];
        cbn [is_fetching Spec.count_in_range]; split; try reflexivity; try exact I; lia. }
    destruct Hwk as [Hwf Hwr].
    unfold Spec.workers_keep_to. cbn [fst snd].
    split; [now rewrite Hd'|]. split; [rewrite Ho', Hb', Hcount; lia|].
    split; [intros t Hin; rewrite Hq' in Hin; now apply Hqueue|].
    split; [|split].
    + intros c t Hin.
      destruct (in_replaced _ (Fetching n tag) _ _ _ Hin) as [<-|Hin'];
        [discriminate|].
      now apply (Hfetching c).
    + intros tag0 df H. rewrite Hr' in H.
      destruct (fetch_replay_with_page response tag) as [df'|e] eqn:Hfetch;
        [|exact (Hresults tag0 df H)].
      rewrite dict_get_set in H.
      destruct (String.eqb_spec tag tag0) as [<-|_]; [|exact (Hresults tag0 df H)].
      injection H as <-. split; [exact Htag | now exists response].
    + now apply (forall_replaced _ (Fetching n tag)).
  - apply (replaced_keeps s (snd (renewed (len before) outcome s)) Renewing);
      try exact Hkeeps;
      destruct outcome as [[]|e];
      cbn [renewed print fst snd disk overall_completed batch_completed queue results
           is_fetching Spec.count_in_range];
      try reflexivity; try exact I; lia.
Qed.

Lemma run_keeps n st st' :
  run batch_size total_tags n st st' ->
  Spec.workers_keep_to batch_tags overall_done d st ->
  Spec.workers_keep_to batch_tags overall_done d st'.
Proof.
  induction 1 as [st | n st st1 st2 Hstep Hrun IH]; intros Hinv; [exact Hinv|].
  apply IH. exact (step_keeps _ _ Hstep Hinv).
Qed.

End PoolResults.

(** X8. What the workers of a batch keep to.  In every state the event
    loop can reach from the start of a batch: the output file is as it
    was when the batch began (the workers never write to it); the overall
    counter has moved by exactly the batch counter; every frame in
    [results] is stored under a tag of the batch, and is what
    [fetch_replay_with_page] returned for that tag on some answer of the
    remote source (a failed fetch leaves nothing); and every worker's
    count of replays on its current page lies between 0 and 9. *)
Theorem workers_keep_to_the_batch :
  forall (batch_tags : list string) (workers batch_size total_tags overall_done : Z)
         (out : list ScrapeNoRestart.printed)
         (d : option (list ScrapeNoRestart.csv_line))
         (n : nat) (st : ScrapeNoRestart.shared * list ScrapeNoRestart.worker),
    ScrapeNoRestart.run batch_size total_tags n
      (ScrapeNoRestart.start_batch batch_tags workers overall_done out d) st ->
    ScrapeNoRestart.disk (fst st) = d /\
    ScrapeNoRestart.overall_completed (fst st)
      = overall_done + ScrapeNoRestart.batch_completed (fst st) /\
    (forall tag df,
       dict_get tag (ScrapeNoRestart.results (fst st)) = Some df ->
       In tag batch_tags /\
       exists response, ScrapeNoRestart.fetch_replay_with_page response tag = Ok df) /\
    Forall Spec.count_in_range (snd st).
Proof.
  intros batch_tags workers batch_size total_tags overall_done out d n st Hrun.
  destruct (run_keeps batch_tags overall_done d _ _ _ _ _ Hrun
              (start_keeps batch_tags overall_done d workers out))
    as (Hdisk & Hcount & _ & _ & Hresults & Hrange).
  repeat split; try assumption; apply (Hresults tag df H).
Qed.

(** The theorem on a batch of one tag and a pool of one worker, after
    the worker's context and page are made, it has taken the tag, and
    its fetch has returned the two rows of the sample fragment. *)
Lemma workers_keep_to_the_batch_witness :
  exists st,
    ScrapeNoRestart.run 1 1 3 (ScrapeNoRestart.start_batch ["a"] 1 0 [] None) st /\
    ScrapeNoRestart.disk (fst st) = None /\
    ScrapeNoRestart.overall_completed (fst st)
      = 0 + ScrapeNoRestart.batch_completed (fst st) /\
    Forall Spec.count_in_range (snd st).
Proof.
  pose (response := ScrapeNoRestart.Loaded
                      (ScrapeNoRestart.JSON true (Some (Sample.imgs, Sample.divs)))).
  pose (s0 := fst (ScrapeNoRestart.start_batch ["a"] 1 0 [] None)).
  pose (s1 := ScrapeNoRestart.set_queue [None] s0).
  pose (s2 := snd (ScrapeNoRestart.fetched 0 0 "a"
                (ScrapeNoRestart.fetch_replay_with_page response "a") 1 1 s1)).
  assert (R : ScrapeNoRestart.run 1 1 3
                (ScrapeNoRestart.start_batch ["a"] 1 0 [] None)
                (s2, [ScrapeNoRestart.AtGet 1])).
  { apply ScrapeNoRestart.run_step with (st' := (s0, [ScrapeNoRestart.AtGet 0])).
    { exact (ScrapeNoRestart.step_created 1 1 s0 [] [] (Ok tt)). }
    apply ScrapeNoRestart.run_step with (st' := (s1, [ScrapeNoRestart.Fetching 0 "a"])).
    { exact (ScrapeNoRestart.step_get 1 1 s0 [] 0 [] (Some "a") [None] eq_refl). }
    apply ScrapeNoRestart.run_step with (st' := (s2, [ScrapeNoRestart.AtGet 1])).
    { exact (ScrapeNoRestart.step_fetched 1 1 s1 [] 0 "a" [] response). }
    apply ScrapeNoRestart.run_done. }
  exists (s2, [ScrapeNoRestart.AtGet 1]).
  split; [exact R|].
  destruct (workers_keep_to_the_batch ["a"] 1 1 1 0 [] None 3 _ R)
    as (Hdisk & Hcount & _ & Hrange).
  repeat split; assumption.
Defined.

(** ** The writes of a run *)

Section RunOutput.
Import ScrapeNoRestart.

Lemma batch_rows_lookups batch_tags (r1 r2 : dict frame) :
  (forall tag, In tag batch_tags -> dict_get tag r1 = dict_get tag r2) ->
  Spec.batch_rows (batch_tags, r1) = Spec.batch_rows (batch_tags, r2).
Proof.
  intros H. unfold Spec.batch_rows. cbn [fst snd].
  replace (flat_map (fun tag => match dict_get tag r1 with
                                | Some df => [df]
                                | None => []
                                end) batch_tags)
    with (flat_map (fun tag => match dict_get tag r2 with
                                | Some df => [df]
                                | None => []
                                end) batch_tags); [reflexivity|].
  induction batch_tags as [|t ts IH]; [reflexivity|].
  cbn [flat_map]. rewrite (H t) by now left.
  f_equal. apply IH. intros tag Hin. apply H. now right.
Qed.

Lemma dict_set_swap (a b : string) (dfa dfb : frame) (r : dict frame) tag :
  a <> b ->
  dict_get tag (dict_set a dfa (dict_set b dfb r))
  = dict_get tag (dict_set b dfb (dict_set a dfa r)).
Proof.
  intros Hne. rewrite !dict_get_set.
  destruct (String.eqb_spec a tag), (String.eqb_spec b tag); congruence.
Qed.

(** After the first write of a run: the rows go behind what the file
    holds and the counter moves by their number. *)
Lemma later_writes_count : forall batches n old,
  fold_left (fun st b => write_batch (fst b) (snd b) st) batches
            (Progress_ false n, Some old)
  = (Progress_ false (n + len (List.concat (Spec.somes (map Spec.batch_rows batches)))),
     Some (old ++ map Record_ (List.concat (Spec.somes (map Spec.batch_rows batches))))%list).
Proof.
  induction batches as [|[tags results] batches IH]; intros n old.
  - simpl. unfold len. simpl. now rewrite Z.add_0_r, app_nil_r.
  - cbn [fold_left fst snd map]. rewrite write_batch_rows.
    destruct (Spec.batch_rows (tags, results)) as [rows|]; cbn [Spec.somes].
    + cbn [first_write to_csv app total_rows_written]. rewrite IH.
      cbn [List.concat]. unfold len. rewrite map_app, length_app, app_assoc.
      f_equal. f_equal. lia.
    + apply IH.
Qed.

End RunOutput.

(** X9. The order in which the fetches of a batch end does not show in
    the file.  The write after a batch reads [results] only through the
    look-ups of the batch's tags, in the order of the tags: two [results]
    that agree on these look-ups give the same write, and so do the
    [results] left by two workers that store the frames of two different
    tags in either order. *)
Theorem write_batch_order_free :
  forall (batch_tags : list string) (results1 results2 : dict ScrapeNoRestart.frame)
         (a b : string) (dfa dfb : ScrapeNoRestart.frame)
         (st : ScrapeNoRestart.progress * option (list ScrapeNoRestart.csv_line)),
    ((forall tag, In tag batch_tags -> dict_get tag results1 = dict_get tag results2) ->
     ScrapeNoRestart.write_batch batch_tags results1 st
     = ScrapeNoRestart.write_batch batch_tags results2 st) /\
    (a <> b ->
     ScrapeNoRestart.write_batch batch_tags (dict_set a dfa (dict_set b dfb results1)) st
     = ScrapeNoRestart.write_batch batch_tags (dict_set b dfb (dict_set a dfa results1)) st).
Proof.
  intros batch_tags results1 results2 a b dfa dfb [p file].
  assert (Hlookups : forall r1 r2 : dict ScrapeNoRestart.frame,
             (forall tag, In tag batch_tags -> dict_get tag r1 = dict_get tag r2) ->
             ScrapeNoRestart.write_batch batch_tags r1 (p, file)
             = ScrapeNoRestart.write_batch batch_tags r2 (p, file)).
  { intros r1 r2 H. rewrite !write_batch_rows.
    now rewrite (batch_rows_lookups batch_tags r1 r2 H). }
  split; [apply Hlookups|].
  intros Hne. apply Hlookups. intros tag _. now apply dict_set_swap.
Qed.

(** The theorem on the batch [a, b] whose second fetch ended first. *)
Lemma write_batch_order_free_witness :
  ScrapeNoRestart.write_batch ["a"; "b"]
    [("b", [Sample.row_b]); ("a", [Sample.row_a])]
    (ScrapeNoRestart.Progress_ true 0, None)
  = (ScrapeNoRestart.Progress_ false 2,
     Some [ScrapeNoRestart.Header; ScrapeNoRestart.Record_ Sample.row_a;
           ScrapeNoRestart.Record_ Sample.row_b]).
Proof.
  destruct (write_batch_order_free ["a"; "b"] [] [] "a" "b"
              [Sample.row_a] [Sample.row_b]
              (ScrapeNoRestart.Progress_ true 0, None)) as [_ H].
  etransitivity; [apply H; discriminate | reflexivity].
Defined.

(** X10. The file and the count a run of [main] ends with.  With an
    empty shard [main] raises [ZeroDivisionError] at the line it prints
    before the first batch, and writes nothing.  Otherwise, when no batch
    of the run has a frame, the file is as it was and the count of rows
    written is zero; and when one has, the file holds one header line, at
    its top, and behind it the rows of the run, batch after batch and
    within a batch in the order of its tags, and the count of rows
    written is the number of these rows.  The header line is that of the
    first frames written: the column names, or an empty line when these
    frames hold no row. *)
Theorem main_writes_run :
  forall (old_len : Z) (batches : list (list string * dict ScrapeNoRestart.frame))
         (file : option (list ScrapeNoRestart.csv_line)),
    ScrapeNoRestart.main_run old_len batches file =
    if old_len =? 0 then Raise ZeroDivisionError
    else
      Ok match Spec.somes (map Spec.batch_rows batches) with
         | [] => (ScrapeNoRestart.Progress_ true 0, file)
         | first :: rest =>
             (ScrapeNoRestart.Progress_ false (len (List.concat (first :: rest))),
              Some ((match first with
                     | [] => ScrapeNoRestart.EmptyLine
                     | _ :: _ => ScrapeNoRestart.Header
                     end)
                    :: map ScrapeNoRestart.Record_ (List.concat (first :: rest))))
         end.
Proof.
  intros old_len batches file. unfold ScrapeNoRestart.main_run.
  destruct (old_len =? 0); [reflexivity|]. f_equal.
  unfold ScrapeNoRestart.main_writes.
  induction batches as [|[tags results] batches IH]; [reflexivity|].
  cbn [fold_left fst snd map]. rewrite write_batch_rows.
  destruct (Spec.batch_rows (tags, results)) as [rows|]; cbn [Spec.somes].
  - cbn [ScrapeNoRestart.first_write ScrapeNoRestart.to_csv
         ScrapeNoRestart.total_rows_written].
    rewrite later_writes_count. cbn [List.concat app]. unfold len.
    rewrite map_app, length_app. f_equal. f_equal. lia.
  - exact IH.
Qed.

(** The theorem on a run whose first batch brings one frame without
    rows and whose second brings the row of replay [b]: the file starts
    with an empty line. *)
Lemma main_writes_run_witness :
  ScrapeNoRestart.main_run 2
    [(["a"], [("a", [])]); (["b"], [("b", [Sample.row_b])])] None
  = Ok (ScrapeNoRestart.Progress_ false 1,
        Some [ScrapeNoRestart.EmptyLine; ScrapeNoRestart.Record_ Sample.row_b]).
Proof. rewrite main_writes_run. reflexivity. Defined.

(** ** The sort of the card events *)

Section Stability.
Context {A : Type}.
Variable key : A -> result Z.
Variable z : Z.

Let at_key (ka : Z * A) : bool := fst ka =? z.

Let has_key (a : A) : bool :=
  match key a with
  | Ok k => k =? z
  | Raise _ => false
  end.

Lemma insert_filter (k : Z) (a : A) : forall l,
  filter at_key (insert_by_key k a l) = filter at_key ((k, a) :: l).
Proof.
  induction l as [|[k' a'] l IH]; [reflexivity|].
  cbn [insert_by_key]. destruct (Z.leb_spec k k'); [reflexivity|].
  cbn [filter] in *. rewrite IH. unfold at_key. cbn [fst].
  destruct (Z.eqb_spec k z), (Z.eqb_spec k' z); try reflexivity. lia.
Qed.

Lemma sort_keyed_filter : forall l : list (Z * A),
  filter at_key (sort_keyed l) = filter at_key l.
Proof.
  induction l as [|[k a] l IH]; [reflexivity|].
  cbn [sort_keyed]. rewrite insert_filter. cbn [filter]. now rewrite IH.
Qed.

Lemma filter_keyed : forall kl : list (Z * A),
  Forall (fun ka => key (snd ka) = Ok (fst ka)) kl ->
  filter has_key (map snd kl) = map snd (filter at_key kl).
Proof.
  induction kl as [|[k a] kl IH]; intros H; [reflexivity|].
  inversion H as [|? ? Hk Hrest]; subst. cbn [map filter snd fst] in *.
  unfold has_key at 1, at_key at 1. cbn [fst]. rewrite Hk.
  destruct (k =? z); cbn [map snd]; now rewrite IH.
Qed.

Lemma sorted_stable_filter l l' :
  sorted key l = Ok l' -> filter has_key l' = filter has_key l.
Proof.
  unfold sorted. intros H.
  destruct (keyed key l) as [kl|e] eqn:Hkl; [|discriminate].
  cbn [bind] in H. injection H as <-.
  destruct (keyed_spec key _ _ Hkl) as [Hmap Hall].
  assert (Hall' : Forall (fun ka => key (snd ka) = Ok (fst ka)) (sort_keyed kl))
    by (eapply Permutation_Forall; [apply sort_keyed_perm | exact Hall]).
  rewrite (filter_keyed _ Hall'), sort_keyed_filter, <- (filter_keyed _ Hall), Hmap.
  reflexivity.
Qed.

Lemma sort_keyed_ascending : forall kl : list (Z * A),
  Sorted Z.le (map fst kl) -> sort_keyed kl = kl.
Proof.
  induction kl as [|[k a] kl IH]; intros H; [reflexivity|].
  cbn [map fst] in H. inversion H as [|? ? Hs Hhd]; subst.
  cbn [sort_keyed]. rewrite (IH Hs).
  destruct kl as [|[k' a'] kl]; [reflexivity|].
  cbn [insert_by_key]. cbn [map fst] in Hhd. inversion Hhd; subst.
  destruct (Z.leb_spec k k'); [reflexivity | lia].
Qed.

Lemma keyed_combine : forall l times,
  Forall2 (fun a k => key a = Ok k) l times ->
  keyed key l = Ok (combine times l).
Proof.
  induction 1 as [|a k l times Hk Hrest IH]; [reflexivity|].
  cbn [keyed combine]. rewrite Hk, IH. reflexivity.
Qed.

Lemma sorted_ascending l times :
  Forall2 (fun a k => key a = Ok k) l times ->
  Sorted Z.le times ->
  sorted key l = Ok l.
Proof.
  intros Hkeys Hsorted. unfold sorted.
  rewrite (keyed_combine _ _ Hkeys). cbn [bind].
  assert (Hlen : List.length times = List.length l)
    by (symmetry; eapply Forall2_length; eassumption).
  rewrite sort_keyed_ascending.
  - f_equal. clear - Hlen. revert times Hlen.
    induction l as [|a l IH]; intros [|k times] Hlen; simpl in *;
      try discriminate; try reflexivity.
    f_equal. apply IH. lia.
  - replace (map fst (combine times l)) with times; [exact Hsorted|].
    clear - Hlen. revert times Hlen.
    induction l as [|a l IH]; intros [|k times] Hlen; simpl in *;
      try discriminate; try reflexivity.
    f_equal. apply IH. lia.
Qed.

End Stability.

(** X11. The sort of the card events is stable.  When
    [parse_replay_html] can sort the card events of a fragment, the
    events played at one and the same time stand in the sorted list in
    the order they have in the document; and card events whose times are
    already ascending in the document are left in that order. *)
Theorem card_events_sort_stable :
  forall (imgs : list ScrapeNoRestart.img)
         (card_events : list ScrapeNoRestart.card_event) (times : list Z),
    (sorted (fun e => int (ScrapeNoRestart.ce_time e))
            (map ScrapeNoRestart.card_event_of imgs) = Ok card_events ->
     forall z,
       filter (Spec.played_at z) card_events
       = filter (Spec.played_at z) (map ScrapeNoRestart.card_event_of imgs)) /\
    (Forall2 (fun e k => int (ScrapeNoRestart.ce_time e) = Ok k)
             (map ScrapeNoRestart.card_event_of imgs) times ->
     Sorted Z.le times ->
     sorted (fun e => int (ScrapeNoRestart.ce_time e))
            (map ScrapeNoRestart.card_event_of imgs)
     = Ok (map ScrapeNoRestart.card_event_of imgs)).
Proof.
  intros imgs card_events times. split.
  - intros Hsort z.
    exact (sorted_stable_filter (fun e => int (ScrapeNoRestart.ce_time e)) z _ _ Hsort).
  - intros Hkeys Hsorted.
    exact (sorted_ascending (fun e => int (ScrapeNoRestart.ce_time e)) _ _ Hkeys Hsorted).
Qed.

(** The theorem on three cards, two of them played at time 1 behind one
    played at time 2: the two keep their order in front of the third. *)
Lemma card_events_sort_stable_witness :
  exists card_events,
    sorted (fun e => int (ScrapeNoRestart.ce_time e))
           (map ScrapeNoRestart.card_event_of
              [ScrapeNoRestart.Img (Some "knight") None (Some "t") (Some "2") None;
               ScrapeNoRestart.Img (Some "giant") None (Some "o") (Some "1") None;
               ScrapeNoRestart.Img (Some "archers") None (Some "t") (Some "1") None])
    = Ok card_events /\
    map ScrapeNoRestart.ce_card_name (filter (Spec.played_at 1) card_events)
    = [Some "giant"; Some "archers"].
Proof.
  exists (map ScrapeNoRestart.card_event_of
            [ScrapeNoRestart.Img (Some "giant") None (Some "o") (Some "1") None;
             ScrapeNoRestart.Img (Some "archers") None (Some "t") (Some "1") None;
             ScrapeNoRestart.Img (Some "knight") None (Some "t") (Some "2") None]).
  split; [reflexivity|].
  destruct (card_events_sort_stable
              [ScrapeNoRestart.Img (Some "knight") None (Some "t") (Some "2") None;
               ScrapeNoRestart.Img (Some "giant") None (Some "o") (Some "1") None;
               ScrapeNoRestart.Img (Some "archers") None (Some "t") (Some "1") None]
              (map ScrapeNoRestart.card_event_of
                 [ScrapeNoRestart.Img (Some "giant") None (Some "o") (Some "1") None;
                  ScrapeNoRestart.Img (Some "archers") None (Some "t") (Some "1") None;
                  ScrapeNoRestart.Img (Some "knight") None (Some "t") (Some "2") None])
              []) as [H _].
  rewrite (H eq_refl 1). reflexivity.
Defined.

(** ** scrape.py and scrape_no_restart.py *)

(** X12. The two scripts pair alike.  On every fragment, [scrape.py]
    builds the rows of [parse_replay_html] without their replay tag, in
    the same order; and it fails exactly when [parse_replay_html] does,
    with [AssertionError] where [parse_replay_html] raises one of its two
    [ValueError]s (the length mismatch and the time mismatch) and with
    the same exception otherwise. *)
Theorem scrape_py_pairs_alike :
  forall (imgs : list ScrapeNoRestart.img) (divs : list ScrapeNoRestart.marker)
         (tag : string),
    Scrape.events imgs divs =
    match ScrapeNoRestart.parse_replay_html imgs divs tag with
    | Ok rows => Ok (map Spec.untagged rows)
    | Raise e => Raise (Spec.asserted e)
    end.
Proof. intros imgs divs tag. apply scrape_events_agree. Qed.

(** ** fetch_clan_members: what is retried and what is not *)

Section Retried.
Import NotScrape.

Variable clan_tag : string.
Variable retries : Z.
Variable backoff : Q.

Lemma retried_caught r :
  Spec.retried r = true <-> exists e, attempt_body r = Raise e /\ caught e = true.
Proof.
  destruct r as [|status_code body]; cbn [Spec.retried attempt_body].
  - split; [eauto | reflexivity].
  - destruct (Z.eqb_spec status_code 429), (Z.leb_spec 500 status_code),
             (Z.ltb_spec status_code 600), (Z.leb_spec 400 status_code);
      cbn [orb andb]; try lia;
      try (split; [intros _; eexists; split; reflexivity | reflexivity]);
      destruct body as [|[items|]|]; cbn [orb];
      (split;
       [ intros Hr; try discriminate; eexists; split; reflexivity
       | intros (e & He & Hc); try discriminate; try reflexivity;
         injection He as <-; discriminate ]).
Qed.

End Retried.

(** X13. Every failed status is retried, not only 429 and 5xx.  The
    answers after which [fetch_clan_members] waits and tries again are
    exactly those on which the attempt raises a [RequestException] or a
    [ValueError]: no answer, any status from 400 to 599, a body that is
    no JSON.  So with [retries >= 1], a clan whose every request is
    answered with such a status (a 404, say) costs [retries] requests
    and the waits of the attempts [1 .. retries], [backoff ** attempt]
    as the platform computes it, before the [HTTPError] of the last
    answer is raised; provided each of these waits can be taken (the
    power is in the range of a float, and [time.sleep] takes it). *)
Theorem client_errors_retried :
  forall (clan_tag : string) (retries : Z) (backoff : Q) (w : NotScrape.world),
    (forall r, Spec.retried r = true <->
               exists e, NotScrape.attempt_body r = Raise e /\ NotScrape.caught e = true) /\
    (1 <= retries ->
     Spec.waits_taken w backoff (Z.to_nat retries) ->
     (forall k, (k < Z.to_nat retries)%nat ->
        exists status_code body,
          NotScrape.remote w (NotScrape.requests w + k)
          = NotScrape.Response status_code body /\
          400 <= status_code < 600) ->
     exists status_code body w',
       NotScrape.remote w (NotScrape.requests w + (Z.to_nat retries - 1))
       = NotScrape.Response status_code body /\
       NotScrape.fetch_clan_members clan_tag retries backoff w
       = (Raise (RequestException (HTTPError status_code)), w') /\
       NotScrape.requests w' = (NotScrape.requests w + Z.to_nat retries)%nat /\
       NotScrape.slept w'
       = (NotScrape.slept w
          ++ Spec.platform_waits w backoff (Z.to_nat retries))%list).
Proof.
  intros clan_tag retries backoff w. split; [apply retried_caught|].
  intros Hretries Hwaits Hstatus.
  assert (Hretried : forall k, (k < Z.to_nat retries)%nat ->
            Spec.retried (NotScrape.remote w (NotScrape.requests w + k)) = true).
  { intros k Hk. destruct (Hstatus k Hk) as (status_code & body & -> & Hs).
    cbn [Spec.retried].
    destruct (Z.leb_spec 400 status_code), (Z.ltb_spec status_code 600);
      reflexivity || lia. }
  destruct (Hstatus (Z.to_nat retries - 1)%nat ltac:(lia))
    as (status_code & body & Hlast & Hs).
  exists status_code, body.
  destruct (fetch_gives_up clan_tag retries backoff w Hretries Hwaits
              (fun k Hk => proj1 (retried_caught _) (Hretried k Hk)))
    as (e & w' & He & Hfetch & Hn & Hslept & _).
  exists w'.
  rewrite Hlast in He. cbn [NotScrape.attempt_body] in He.
  assert (e = RequestException (HTTPError status_code)) as ->.
  { destruct ((status_code =? 429) || (500 <=? status_code) && (status_code <? 600));
      [congruence|].
    destruct (Z.leb_spec 400 status_code), (Z.ltb_spec status_code 600); try lia.
    cbn [andb] in He. congruence. }
  repeat split; assumption.
Qed.

(** The theorem on a clan that does not exist, under the default ceiling
    3 and base 1.5, whose powers are floats: three requests, and waits
    of 1.5, 2.25 and 3.375 seconds. *)
Lemma client_errors_retried_witness :
  exists w',
    NotScrape.fetch_clan_members "#NOSUCH" 3 (3 # 2)
      (NotScrape.World (fun _ => NotScrape.Response 404 (NotScrape.Object None))
                       0 [] None [] Sample.exact_pow)
    = (Raise (RequestException (HTTPError 404)), w') /\
    NotScrape.requests w' = 3%nat /\
    NotScrape.slept w' = [3 # 2; 9 # 4; 27 # 8]%Q.
Proof.
  destruct (client_errors_retried "#NOSUCH" 3 (3 # 2)
              (NotScrape.World (fun _ => NotScrape.Response 404 (NotScrape.Object None))
                               0 [] None [] Sample.exact_pow))
    as [_ H].
  destruct H as (status_code & body & w' & Hlast & Hfetch & Hn & Hs).
  - lia.
  - intros [|[|[|[|k]]]] Hk; try reflexivity; simpl in Hk; lia.
  - intros k _. exists 404, (NotScrape.Object None). split; [reflexivity | lia].
  - injection Hlast as <- _. exists w'. repeat split; assumption.
Defined.

(** X14. [fetch_clan_members] at its edges.  With [retries <= 0] it makes
    no request and raises [AssertionError].  With [retries >= 1], an
    exception of the first attempt that is neither a [RequestException]
    nor a [ValueError] (the [AttributeError] of a JSON body that is no
    object, say) leaves the function at once: one request, no wait, no
    second attempt.  And when the backoff base is negative, the first
    failed attempt is the last: [time.sleep] raises on the negative
    wait, inside the [except] clause, after one request; it raises
    [ValueError], or [OverflowError] where the wait is below what its
    clock can count. *)
Theorem fetch_clan_members_edges :
  forall (clan_tag : string) (retries : Z) (backoff : Q) (w : NotScrape.world),
    (retries <= 0 ->
     NotScrape.fetch_clan_members clan_tag retries backoff w = (Raise AssertionError, w)) /\
    (forall e,
       1 <= retries ->
       NotScrape.attempt_body (NotScrape.remote w (NotScrape.requests w)) = Raise e ->
       NotScrape.caught e = false ->
       NotScrape.fetch_clan_members clan_tag retries backoff w
       = (Raise e,
          NotScrape.World (NotScrape.remote w) (S (NotScrape.requests w))
            (NotScrape.slept w) (NotScrape.debug w) (NotScrape.stdout w)
            (NotScrape.float_pow w))) /\
    (forall e,
       1 <= retries ->
       (backoff < 0)%Q ->
       NotScrape.attempt_body (NotScrape.remote w (NotScrape.requests w)) = Raise e ->
       NotScrape.caught e = true ->
       exists w',
         NotScrape.fetch_clan_members clan_tag retries backoff w
         = (Raise (if Qle_bool NotScrape.clock_min backoff
                   then ValueError (OtherValueError "sleep length must be non-negative")
                   else OverflowError), w') /\
         NotScrape.requests w' = S (NotScrape.requests w) /\
         NotScrape.slept w' = NotScrape.slept w).
Proof.
  intros clan_tag retries backoff w. unfold NotScrape.fetch_clan_members.
  split; [|split].
  - intros H. replace (Z.to_nat retries) with 0%nat by lia. reflexivity.
  - intros e H He Hcaught.
    replace (Z.to_nat retries) with (S (Z.to_nat retries - 1)) by lia.
    cbn [NotScrape.attempts NotScrape.requests_get]. now rewrite He, Hcaught.
  - intros e H Hneg He Hcaught.
    replace (Z.to_nat retries) with (S (Z.to_nat retries - 1)) by lia.
    destruct (attempt_wait_raises clan_tag retries backoff (Z.to_nat retries - 1) 1
                None w e
                (if Qle_bool NotScrape.clock_min backoff
                 then ValueError (OtherValueError "sleep length must be non-negative")
                 else OverflowError) He Hcaught)
      as (w' & Hfetch & Hn & Hs & _).
    + unfold Spec.wait_outcome, NotScrape.power, NotScrape.time_sleep.
      cbn [Z.eqb Pos.eqb].
      assert (Hzero : Qle_bool 0 backoff = false).
      { destruct (Qle_bool 0 backoff) eqn:Hle; [|reflexivity].
        apply Qle_bool_iff in Hle. exfalso. exact (Qlt_not_le _ _ Hneg Hle). }
      assert (Hmax : Qle_bool backoff NotScrape.clock_max = true).
      { apply Qle_bool_iff. apply Qlt_le_weak.
        apply Qlt_trans with (y := 0%Q); [exact Hneg | reflexivity]. }
      rewrite Hzero, Hmax, andb_true_r.
      now destruct (Qle_bool NotScrape.clock_min backoff).
    + exists w'. repeat split; assumption.
Qed.

(** The theorem on a body that is a JSON list: one request, and the
    [AttributeError] of [data.get]. *)
Lemma fetch_clan_members_edges_witness :
  NotScrape.fetch_clan_members "#2PP" 3 (3 # 2)
    (NotScrape.World (fun _ => NotScrape.Response 200 NotScrape.NotAnObject) 0 [] None []
                     Sample.exact_pow)
  = (Raise AttributeError,
     NotScrape.World (fun _ => NotScrape.Response 200 NotScrape.NotAnObject) 1 [] None []
                     Sample.exact_pow).
Proof.
  destruct (fetch_clan_members_edges "#2PP" 3 (3 # 2)
              (NotScrape.World (fun _ => NotScrape.Response 200 NotScrape.NotAnObject)
                               0 [] None [] Sample.exact_pow))
    as (_ & H & _).
  apply (H AttributeError); [lia | reflexivity | reflexivity].
Defined.

(** ** log_failed_clan, call after call *)

(** X15. The debug file under a sequence of calls of [log_failed_clan].
    The calls add one row each, in the order of the calls, behind what
    the file held; the header is written once, by the first call, and
    only when the file did not exist. *)
Theorem log_failed_clan_sequence :
  forall (calls : list (string * string * NotScrape.cell))
         (debug_csv : option NotScrape.csv),
    fold_left (fun file call =>
                 NotScrape.log_failed_clan file (fst (fst call)) (snd (fst call)) (snd call))
              calls debug_csv
    = match calls, debug_csv with
      | [], _ => debug_csv
      | _, None =>
          Some ([NotScrape.Text "clan_tag"; NotScrape.Text "country"; NotScrape.Text "error"]
                :: map Spec.failed_row calls)
      | _, Some rows => Some (rows ++ map Spec.failed_row calls)%list
      end.
Proof.
  assert (Hsome : forall calls rows,
            fold_left (fun file call =>
                         NotScrape.log_failed_clan file (fst (fst call)) (snd (fst call))
                                                   (snd call))
                      calls (Some rows)
            = Some (rows ++ map Spec.failed_row calls)%list).
  { induction calls as [|call calls IH]; intros rows.
    - simpl. now rewrite app_nil_r.
    - cbn [fold_left NotScrape.log_failed_clan]. rewrite IH.
      cbn [map]. now rewrite <- app_assoc. }
  intros [|call calls] [rows|]; try reflexivity.
  - apply Hsome.
  - cbn [fold_left NotScrape.log_failed_clan]. rewrite Hsome. reflexivity.
Qed.

(** ** flatten_json *)

Section Flatten.
Import NotScrape.

Lemma in_dict_set {V} (k k' : string) (v v' : V) : forall d,
  In (k, v) (dict_set k' v' d) -> (k = k' /\ v = v') \/ In (k, v) d.
Proof.
  induction d as [|[k0 v0] d IH]; cbn [dict_set].
  - intros [[= <- <-]|[]]. now left.
  - destruct (String.eqb k0 k').
    + intros [[= <- <-]|Hin]; [now left | right; now right].
    + intros [Heq|Hin]; [right; now left|].
      destruct (IH Hin) as [H|H]; [now left | right; now right].
Qed.

Lemma in_dict_update {V} (k : string) (v : V) : forall other d,
  In (k, v) (dict_update d other) -> In (k, v) d \/ In (k, v) other.
Proof.
  unfold dict_update. induction other as [|[k' v'] other IH]; intros d Hin.
  - now left.
  - cbn [fold_left fst snd] in Hin.
    destruct (IH _ Hin) as [H|H]; [|right; now right].
    destruct (in_dict_set _ _ _ _ _ H) as [[-> ->]|H']; [right; now left | now left].
Qed.

Lemma prefix_trans a b c :
  prefix a b = true -> prefix b c = true -> prefix a c = true.
Proof.
  intros [r ->]%prefix_inv [r' ->]%prefix_inv.
  rewrite append_assoc. apply prefix_app.
Qed.

Lemma truthy_app a b : truthy a = true -> (a ++ b)%string <> EmptyString.
Proof. destruct a; [discriminate | intros _; discriminate]. Qed.

Variable sep : string.

(** Every key of the flattened value starts with the key it was
    flattened under, and none is empty. *)
Lemma flatten_json_keys : forall obj parent_key k v,
  In (k, v) (flatten_json obj parent_key sep) ->
  prefix parent_key k = true /\ k <> EmptyString.
Proof.
  induction obj as [s | l IH | d IH] using value_induction; intros parent_key k v.
  - cbn [flatten_json]. destruct (truthy parent_key) eqn:Ht; [|intros []].
    intros [[= <- <-]|[]]. split.
    + rewrite <- (append_nil_r parent_key) at 2. apply prefix_app.
    + destruct parent_key; discriminate.
  - cbn [flatten_json].
    assert (Hloop : forall l i items,
              Forall (fun obj => forall parent_key k v,
                        In (k, v) (flatten_json obj parent_key sep) ->
                        prefix parent_key k = true /\ k <> EmptyString) l ->
              (forall k v, In (k, v) items ->
                 prefix parent_key k = true /\ k <> EmptyString) ->
              In (k, v)
                ((fix items_of (l : list value) (i : nat) (items : dict scalar)
                    : dict scalar :=
                    match l with
                    | [] => items
                    | v :: l' =>
                        let new_key := parent_key ++ "[" ++ str_nat i ++ "]" in
                        items_of l' (S i) (dict_update items (flatten_json v new_key sep))
                    end) l i items) ->
              prefix parent_key k = true /\ k <> EmptyString).
    { clear. induction l as [|obj l IHl]; intros i items HF Hitems Hin.
      - now apply (Hitems k v).
      - inversion HF as [|? ? Hobj Hrest]; subst.
        apply (IHl (S i) _ Hrest) in Hin; [exact Hin|].
        intros k' v' [H|H]%in_dict_update; [now apply (Hitems k' v')|].
        destruct (Hobj _ _ _ H) as [Hp Hne]. split; [|exact Hne].
        eapply prefix_trans; [apply prefix_app | exact Hp]. }
    apply Hloop; [exact IH | intros ? ? []].
  - cbn [flatten_json].
    assert (Hloop : forall d items,
              Forall (fun kv => forall parent_key k v,
                        In (k, v) (flatten_json (snd kv) parent_key sep) ->
                        prefix parent_key k = true /\ k <> EmptyString) d ->
              (forall k v, In (k, v) items ->
                 prefix parent_key k = true /\ k <> EmptyString) ->
              In (k, v)
                ((fix items_of (d : list (string * value)) (items : dict scalar)
                    : dict scalar :=
                    match d with
                    | [] => items
                    | kv :: d' =>
                        let new_key :=
                          if truthy parent_key then parent_key ++ sep ++ fst kv
                          else fst kv in
                        items_of d' (dict_update items (flatten_json (snd kv) new_key sep))
                    end) d items) ->
              prefix parent_key k = true /\ k <> EmptyString).
    { clear. induction d as [|kv d IHd]; intros items HF Hitems Hin.
      - now apply (Hitems k v).
      - inversion HF as [|? ? Hobj Hrest]; subst.
        apply (IHd _ Hrest) in Hin; [exact Hin|].
        intros k' v' [H|H]%in_dict_update; [now apply (Hitems k' v')|].
        destruct (Hobj _ _ _ H) as [Hp Hne]. split; [|exact Hne].
        destruct (truthy parent_key) eqn:Ht.
        + eapply prefix_trans; [apply prefix_app | exact Hp].
        + destruct parent_key; [destruct k'; reflexivity | discriminate]. }
    apply Hloop; [exact IH | intros ? ? []].
Qed.

Lemma dict_set_fresh {V} (k : string) (v : V) : forall d,
  ~ In k (map fst d) -> dict_set k v d = (d ++ [(k, v)])%list.
Proof.
  induction d as [|[k0 v0] d IH]; intros Hnot; [reflexivity|].
  cbn [dict_set app]. cbn [map fst In] in Hnot.
  destruct (String.eqb_spec k0 k) as [->|_]; [exfalso; apply Hnot; now left|].
  rewrite IH; [reflexivity | intros H; apply Hnot; now right].
Qed.

(** The loop over the items of an object whose values are all scalars. *)
Lemma flatten_flat_loop : forall (d items : list (string * scalar)),
  NoDup (map fst (items ++ d)) ->
  Forall (fun kv => truthy (fst kv) = true) d ->
  (fix items_of (d : list (string * value)) (items : dict scalar) : dict scalar :=
     match d with
     | [] => items
     | kv :: d' =>
         let new_key :=
           if truthy EmptyString then EmptyString ++ sep ++ fst kv else fst kv in
         items_of d' (dict_update items (flatten_json (snd kv) new_key sep))
     end) (map (fun kv => (fst kv, Scalar (snd kv))) d) items
  = (items ++ d)%list.
Proof.
  induction d as [|[k0 v0] d IH]; intros items Hnodup Hkeys.
  - now rewrite app_nil_r.
  - inversion Hkeys as [|? ? Hk0 Hrest]; subst. cbn [fst] in Hk0.
    cbn [map fst snd truthy flatten_json]. rewrite Hk0.
    unfold dict_update. cbn [fold_left fst snd].
    assert (Hfresh : ~ In k0 (map fst items)).
    { rewrite map_app in Hnodup. cbn [map fst] in Hnodup.
      apply NoDup_remove_2 in Hnodup. intros H. apply Hnodup, in_or_app. now left. }
    rewrite (dict_set_fresh _ _ _ Hfresh), IH.
    + now rewrite <- app_assoc.
    + now rewrite <- app_assoc.
    + exact Hrest.
Qed.

End Flatten.

(** X16. The keys [flatten_json] makes.  Whatever the value, every key
    of the result starts with the key the value was flattened under, and
    no key of the result is empty: a base value under an empty key is
    dropped, never stored. *)
Theorem flatten_json_keys_prefixed :
  forall (obj : NotScrape.value) (parent_key sep k : string) (v : NotScrape.scalar),
    In (k, v) (NotScrape.flatten_json obj parent_key sep) ->
    prefix parent_key k = true /\ k <> EmptyString.
Proof. intros obj parent_key sep k v. apply flatten_json_keys. Qed.

(** The theorem on the second example of the docstring, flattened under
    the key [b]: the key of the second tag. *)
Lemma flatten_json_keys_prefixed_witness :
  In ("b.team[1].tag", NotScrape.Str "#BBB")
     (NotScrape.flatten_json
        (NotScrape.Object_
           [("team",
             NotScrape.Array
               [NotScrape.Object_ [("tag", NotScrape.Scalar (NotScrape.Str "#AAA"))];
                NotScrape.Object_ [("tag", NotScrape.Scalar (NotScrape.Str "#BBB"))]])])
        "b" ".") /\
  prefix "b" "b.team[1].tag" = true /\ "b.team[1].tag" <> EmptyString.
Proof.
  assert (Hin : In ("b.team[1].tag", NotScrape.Str "#BBB")
     (NotScrape.flatten_json
        (NotScrape.Object_
           [("team",
             NotScrape.Array
               [NotScrape.Object_ [("tag", NotScrape.Scalar (NotScrape.Str "#AAA"))];
                NotScrape.Object_ [("tag", NotScrape.Scalar (NotScrape.Str "#BBB"))]])])
        "b" ".")).
  { vm_compute. right. left. reflexivity. }
  split; [exact Hin|].
  exact (flatten_json_keys_prefixed _ _ _ _ _ Hin).
Defined.

(** X17. [flatten_json] leaves a flat record as it is.  An object whose
    values are all base values, under keys that are not empty and all
    different, is returned item for item, in its order, when flattened at
    the top (under the empty key). *)
Theorem flatten_json_flat_record :
  forall (d : list (string * NotScrape.scalar)) (sep : string),
    NoDup (map fst d) ->
    Forall (fun kv => truthy (fst kv) = true) d ->
    NotScrape.flatten_json
      (NotScrape.Object_ (map (fun kv => (fst kv, NotScrape.Scalar (snd kv))) d))
      EmptyString sep
    = d.
Proof.
  intros d sep Hnodup Hkeys. cbn [NotScrape.flatten_json].
  exact (flatten_flat_loop sep d [] Hnodup Hkeys).
Qed.

(** The theorem on a record of two fields. *)
Lemma flatten_json_flat_record_witness :
  NotScrape.flatten_json
    (NotScrape.Object_
       [("type", NotScrape.Scalar (NotScrape.Str "PvP"));
        ("isLadderTournament", NotScrape.Scalar (NotScrape.Boolean false))])
    EmptyString "."
  = [("type", NotScrape.Str "PvP"); ("isLadderTournament", NotScrape.Boolean false)].
Proof.
  apply (flatten_json_flat_record
           [("type", NotScrape.Str "PvP"); ("isLadderTournament", NotScrape.Boolean false)]
           ".").
  - repeat constructor; simpl; intuition discriminate.
  - repeat constructor.
Defined.

(** ** get_all_location_clans *)

Section ClanPages.
Import NotScrape.

Variable remote : option string -> clans_page.
Variable pause : Q.
Hypothesis pause_taken : time_sleep pause = Ok tt.

Lemma clan_pages_chain : forall pages fuel after all_clans t,
  Spec.cursor_chain remote after pages ->
  (List.length pages <= fuel)%nat ->
  clan_pages fuel remote pause after all_clans t
  = Some (Ok (all_clans ++ List.concat (map fst pages))%list,
          Traffic (asked t ++ (if no_cursor after then None else after)
                              :: map snd (removelast pages))%list
                  (pauses t ++ repeat pause (List.length pages - 1))%list).
Proof.
  induction pages as [|[items next] rest IH]; intros fuel after all_clans t Hchain Hfuel.
  - destruct Hchain.
  - destruct fuel as [|fuel]; [simpl in Hfuel; lia|].
    cbn [Spec.cursor_chain] in Hchain. destruct Hchain as [Hpage Hrest].
    cbn [clan_pages]. rewrite Hpage.
    destruct rest as [|page rest'].
    + rewrite Hrest. cbn [map fst snd List.concat List.length Nat.sub repeat removelast
                          asked pauses].
      now rewrite !app_nil_r.
    + destruct Hrest as [Hnext Hchain]. rewrite Hnext, pause_taken.
      rewrite (IH fuel next _ _ Hchain) by (simpl in *; lia).
      rewrite Hnext. cbn [asked pauses].
      change (removelast ((items, next) :: page :: rest'))
        with ((items, next) :: removelast (page :: rest')).
      cbn [map fst snd List.concat]. rewrite <- !app_assoc.
      do 3 f_equal.
      cbn [List.length Nat.sub]. rewrite Nat.sub_0_r.
      now destruct (List.length rest').
Qed.

Lemma cursors_count {X} (pages : list (X * option string)) :
  pages <> [] ->
  List.length (@None string :: map snd (removelast pages)) = List.length pages.
Proof.
  intros Hne. cbn [List.length]. rewrite length_map.
  induction pages as [|page rest IH]; [congruence|].
  destruct rest as [|page' rest']; [reflexivity|].
  change (removelast (page :: page' :: rest'))
    with (page :: removelast (page' :: rest')).
  cbn [List.length]. rewrite IH by discriminate. reflexivity.
Qed.

End ClanPages.

(** X18. [get_all_location_clans] along the cursors.  When the remote
    source answers with a chain of pages, each naming the cursor of the
    next and the last naming none, and [time.sleep] takes the pause, the
    function makes one request per page (the first without a cursor,
    each further one with the cursor the page before it named), sleeps
    between two pages but not after the last, returns the number of
    clans of all pages, and leaves a file of one header and these clans
    in page order, whatever the file held before.  When the loop of
    requests raises, the function raises and the file is as it was: the
    pages fetched before are not written. *)
Theorem get_all_location_clans_pages :
  forall (remote : option string -> NotScrape.clans_page) (pause : Q)
         (file : option (list NotScrape.clans_line)) (fuel : nat),
    (forall pages,
       Spec.cursor_chain remote None pages ->
       NotScrape.time_sleep pause = Ok tt ->
       (List.length pages <= fuel)%nat ->
       NotScrape.get_all_location_clans fuel remote pause file
       = Some (Ok (len (List.concat (map fst pages))),
               Some (NotScrape.ClansHeader
                     :: map NotScrape.ClanRow (List.concat (map fst pages))),
               NotScrape.Traffic (None :: map snd (removelast pages))
                                 (repeat pause (List.length pages - 1))) /\
       List.length (@None string :: map snd (removelast pages)) = List.length pages) /\
    (forall e t,
       NotScrape.clan_pages fuel remote pause None [] (NotScrape.Traffic [] [])
       = Some (Raise e, t) ->
       NotScrape.get_all_location_clans fuel remote pause file
       = Some (Raise e, file, t)).
Proof.
  intros remote pause file fuel. split.
  - intros pages Hchain Hpause Hfuel. split.
    + unfold NotScrape.get_all_location_clans.
      now rewrite (clan_pages_chain remote pause Hpause pages fuel None []
                     (NotScrape.Traffic [] []) Hchain Hfuel).
    + apply cursors_count. intros ->. destruct Hchain.
  - intros e t H. unfold NotScrape.get_all_location_clans. now rewrite H.
Qed.

(** The theorem on a location of two pages, of two clans and of one:
    two requests, the second with the cursor of the first page, and one
    pause. *)
Lemma get_all_location_clans_pages_witness :
  NotScrape.get_all_location_clans 2
    (fun after =>
       match after with
       | None => NotScrape.Page
                   [NotScrape.Clan (Some "#A") None None None None None;
                    NotScrape.Clan (Some "#B") None None None None None]
                   (Some "cursor1")
       | Some _ => NotScrape.Page
                     [NotScrape.Clan (Some "#C") None None None None None] None
       end)
    (1 # 5) None
  = Some (Ok 3,
          Some [NotScrape.ClansHeader;
                NotScrape.ClanRow (NotScrape.Clan (Some "#A") None None None None None);
                NotScrape.ClanRow (NotScrape.Clan (Some "#B") None None None None None);
                NotScrape.ClanRow (NotScrape.Clan (Some "#C") None None None None None)],
          NotScrape.Traffic [None; Some "cursor1"] [1 # 5]).
Proof.
  destruct (get_all_location_clans_pages
              (fun after =>
                 match after with
                 | None => NotScrape.Page
                             [NotScrape.Clan (Some "#A") None None None None None;
                              NotScrape.Clan (Some "#B") None None None None None]
                             (Some "cursor1")
                 | Some _ => NotScrape.Page
                               [NotScrape.Clan (Some "#C") None None None None None] None
                 end)
              (1 # 5) None 2) as [H _].
  apply (H [([NotScrape.Clan (Some "#A") None None None None None;
              NotScrape.Clan (Some "#B") None None None None None], Some "cursor1");
            ([NotScrape.Clan (Some "#C") None None None None None], None)]).
  - cbn. repeat split.
  - reflexivity.
  - simpl. lia.
Defined.

(** ** scrape and paginate_battles *)

Section Scrape.
Import Multiwindow.

Lemma scrape_from_spec : forall ms i b,
  In b (scrape_from i ms) ->
  exists k m bt,
    nth_error ms k = Some m /\ button m = Some bt /\
    b = Battle (i + Z.of_nat k) (data_content m) (data_replay bt) (data_team_tags bt)
               (data_opponent_tags bt) None.
Proof.
  induction ms as [|m ms IH]; intros i b Hin; [destruct Hin|].
  cbn [scrape_from] in Hin.
  assert (Hrest : In b (scrape_from (i + 1) ms) ->
                  exists k m' bt,
                    nth_error (m :: ms) k = Some m' /\ button m' = Some bt /\
                    b = Battle (i + Z.of_nat k) (data_content m') (data_replay bt)
                               (data_team_tags bt) (data_opponent_tags bt) None).
  { intros H. destruct (IH _ _ H) as (k & m' & bt & Hnth & Hb & ->).
    exists (S k), m', bt. repeat split; try assumption. f_equal. lia. }
  destruct (button m) as [bt|] eqn:Hb; [|now apply Hrest].
  destruct Hin as [<-|Hin]; [|now apply Hrest].
  exists 0%nat, m, bt. repeat split; try assumption. f_equal. lia.
Qed.

Lemma scrape_from_sorted : forall ms i,
  StronglySorted Z.lt (map menu_index (scrape_from i ms)) /\
  Forall (fun b => i <= menu_index b) (scrape_from i ms).
Proof.
  induction ms as [|m ms IH]; intros i; [split; constructor|].
  destruct (IH (i + 1)) as [Hs Hf]. cbn [scrape_from].
  assert (Hf' : Forall (fun b => i <= menu_index b) (scrape_from (i + 1) ms)).
  { eapply Forall_impl; [|exact Hf]. intros b Hb. simpl in Hb. lia. }
  destruct (button m) as [bt|]; [|split; assumption].
  split.
  - cbn [map menu_index]. constructor; [exact Hs|].
    apply Forall_map. eapply Forall_impl; [|exact Hf]. intros b Hb. simpl in Hb. lia.
  - constructor; [cbn [menu_index]; lia | exact Hf'].
Qed.

Lemma scrape_from_length : forall ms i,
  List.length (scrape_from i ms) = List.length (filter Spec.has_button ms).
Proof.
  induction ms as [|m ms IH]; intros i; [reflexivity|].
  cbn [scrape_from filter]. unfold Spec.has_button at 1.
  destruct (button m); cbn [List.length]; now rewrite IH.
Qed.

Lemma paginate_until : forall n views k fuel battle_data,
  (forall i, (k <= i < k + n)%nat -> next_disabled (views i) = false) ->
  next_disabled (views (k + n)%nat) = true ->
  (n < fuel)%nat ->
  paginate_battles fuel views k battle_data
  = Some (battle_data
          ++ List.concat (map (fun i => scrape (menus (views i))) (seq k (S n))))%list.
Proof.
  induction n as [|n IH]; intros views k fuel battle_data Hbefore Hlast Hfuel;
    (destruct fuel as [|fuel]; [lia|]); cbn [paginate_battles].
  - rewrite Nat.add_0_r in Hlast. rewrite Hlast.
    cbn [seq map List.concat]. now rewrite app_nil_r.
  - rewrite (Hbefore k) by lia.
    rewrite (IH views (S k) fuel); [| | |lia].
    + cbn [seq map List.concat]. now rewrite <- app_assoc.
    + intros i Hi. apply Hbefore. lia.
    + replace (S k + n)%nat with (k + S n)%nat by lia. exact Hlast.
Qed.

Lemma paginate_forever : forall fuel views k battle_data,
  (forall i, (k <= i)%nat -> next_disabled (views i) = false) ->
  paginate_battles fuel views k battle_data = None.
Proof.
  induction fuel as [|fuel IH]; intros views k battle_data H; [reflexivity|].
  cbn [paginate_battles]. rewrite (H k) by lia.
  apply IH. intros i Hi. apply H. lia.
Qed.

End Scrape.

(** X19. What [scrape] reads off a page.  It makes one row for every
    menu that has a replay button and none for the others; each row
    carries the position of its menu on the page as [menu_index], the
    menu's timestamp and the three attributes of the menu's button, and
    no player id yet; and the rows stand in the order of the menus. *)
Theorem scrape_rows_of_replay_menus :
  forall (menus : list Multiwindow.menu),
    List.length (Multiwindow.scrape menus)
    = List.length (filter Spec.has_button menus) /\
    StronglySorted Z.lt (map Multiwindow.menu_index (Multiwindow.scrape menus)) /\
    forall b, In b (Multiwindow.scrape menus) ->
      exists k m bt,
        nth_error menus k = Some m /\ Multiwindow.button m = Some bt /\
        b = Multiwindow.Battle (Z.of_nat k) (Multiwindow.data_content m)
              (Multiwindow.data_replay bt) (Multiwindow.data_team_tags bt)
              (Multiwindow.data_opponent_tags bt) None.
Proof.
  intros menus. unfold Multiwindow.scrape. split; [apply scrape_from_length|].
  split; [apply scrape_from_sorted|].
  intros b Hin. destruct (scrape_from_spec _ _ _ Hin) as (k & m & bt & Hnth & Hb & ->).
  exists k, m, bt. repeat split; assumption.
Qed.

(** X20. [paginate_battles] turns the pages up to the first one whose
    "next" link is disabled.  When the page shown at turn [n] is the
    first with a disabled link, the function returns the rows of the
    pages shown at the turns [0 .. n], page after page, that of turn [n]
    included.  When no page ever shows a disabled link, it does not
    return, however many turns it is given. *)
Theorem paginate_battles_until_disabled :
  forall (views : nat -> Multiwindow.view),
    (forall n fuel,
       (forall i, (i < n)%nat -> Multiwindow.next_disabled (views i) = false) ->
       Multiwindow.next_disabled (views n) = true ->
       (n < fuel)%nat ->
       Multiwindow.paginate_battles fuel views 0 []
       = Some (List.concat (map (fun i => Multiwindow.scrape (Multiwindow.menus (views i)))
                                (seq 0 (S n))))) /\
    ((forall i, Multiwindow.next_disabled (views i) = false) ->
     forall fuel, Multiwindow.paginate_battles fuel views 0 [] = None).
Proof.
  intros views. split.
  - intros n fuel Hbefore Hlast Hfuel.
    rewrite (paginate_until n views 0 fuel []); [reflexivity | | exact Hlast | exact Hfuel].
    intros i Hi. apply Hbefore. lia.
  - intros H fuel. apply paginate_forever. intros i _. apply H.
Qed.

(** The theorem on a player with two pages of one battle each. *)
Lemma paginate_battles_until_disabled_witness :
  Multiwindow.paginate_battles 2
    (fun k =>
       match k with
       | O => Multiwindow.View
                [Multiwindow.Menu (Some "t1")
                   (Some (Multiwindow.ReplayButton (Some "r1") None None))]
                (Some "item")
       | _ => Multiwindow.View
                [Multiwindow.Menu (Some "t2") None;
                 Multiwindow.Menu (Some "t3")
                   (Some (Multiwindow.ReplayButton (Some "r3") None None))]
                (Some "item disabled")
       end) 0 []
  = Some [Multiwindow.Battle 0 (Some "t1") (Some "r1") None None None;
          Multiwindow.Battle 1 (Some "t3") (Some "r3") None None None].
Proof.
  destruct (paginate_battles_until_disabled
    (fun k =>
       match k with
       | O => Multiwindow.View
                [Multiwindow.Menu (Some "t1")
                   (Some (Multiwindow.ReplayButton (Some "r1") None None))]
                (Some "item")
       | _ => Multiwindow.View
                [Multiwindow.Menu (Some "t2") None;
                 Multiwindow.Menu (Some "t3")
                   (Some (Multiwindow.ReplayButton (Some "r3") None None))]
                (Some "item disabled")
       end)) as [H _].
  rewrite (H 1%nat 2%nat).
  - reflexivity.
  - intros i Hi. assert (i = 0%nat) as -> by lia. reflexivity.
  - reflexivity.
  - lia.
Defined.

(** ** player_worker: its pages *)

Section Pages.
Import Multiwindow.

Variable players_per_page : Z.
Hypothesis per_page_pos : 1 <= players_per_page.

Lemma page_loop_counts : forall player_ids m,
  0 <= m ->
  page_loop players_per_page player_ids
    (Pages (1 + m / players_per_page) (m / players_per_page) (m mod players_per_page))
  = Pages (1 + (m + len player_ids) / players_per_page)
          ((m + len player_ids) / players_per_page)
          ((m + len player_ids) mod players_per_page).
Proof.
  induction player_ids as [|pid rest IH]; intros m Hm.
  - unfold len. simpl. now rewrite Z.add_0_r.
  - cbn [page_loop opened closed processed_on_this_page].
    pose proof (Z.mod_pos_bound m players_per_page ltac:(lia)) as Hr.
    destruct (succ_div_mod players_per_page ltac:(lia) m Hm) as [Hsmall Hwrap].
    replace (m + len (pid :: rest)) with ((m + 1) + len rest)
      by (unfold len; simpl List.length; lia).
    rewrite <- (IH (m + 1)) by lia.
    destruct (Z.leb_spec players_per_page (m mod players_per_page + 1)).
    + destruct (Hwrap ltac:(lia)) as [-> ->]. f_equal. f_equal. lia.
    + destruct (Hsmall ltac:(lia)) as [-> ->]. reflexivity.
Qed.

End Pages.

(** X21. The pages of [player_worker].  For an empty list of players no
    page is opened.  Otherwise, with a positive [PLAYERS_PER_PAGE], the
    worker opens [1 + len(player_ids) // PLAYERS_PER_PAGE] pages and
    closes every one of them, never holding more than one; the page it
    holds at the end has served [len(player_ids) % PLAYERS_PER_PAGE]
    players (none, when the number of players is a multiple of
    [PLAYERS_PER_PAGE]: that page is opened only to be closed). *)
Theorem player_worker_pages_balance :
  forall (players_per_page : Z) (player_ids : list string),
    Multiwindow.player_worker_pages players_per_page [] = Multiwindow.Pages 0 0 0 /\
    (1 <= players_per_page ->
     player_ids <> [] ->
     Multiwindow.player_worker_pages players_per_page player_ids
     = Multiwindow.Pages (1 + len player_ids / players_per_page)
                         (1 + len player_ids / players_per_page)
                         (len player_ids mod players_per_page)).
Proof.
  intros players_per_page player_ids. split; [reflexivity|].
  intros Hpos Hne. unfold Multiwindow.player_worker_pages.
  destruct player_ids as [|pid rest]; [congruence|].
  pose proof (page_loop_counts players_per_page Hpos (pid :: rest) 0 ltac:(lia)) as H.
  rewrite Z.div_0_l, Z.mod_0_l, Z.add_0_r, !Z.add_0_l in H by lia.
  rewrite H. cbn [Multiwindow.opened Multiwindow.closed Multiwindow.processed_on_this_page].
  f_equal. lia.
Qed.

(** The theorem on ten players and the script's ten players per page:
    two pages opened, two closed. *)
Lemma player_worker_pages_balance_witness :
  Multiwindow.player_worker_pages 10
    ["p0"; "p1"; "p2"; "p3"; "p4"; "p5"; "p6"; "p7"; "p8"; "p9"]
  = Multiwindow.Pages 2 2 0.
Proof.
  destruct (player_worker_pages_balance 10
              ["p0"; "p1"; "p2"; "p3"; "p4"; "p5"; "p6"; "p7"; "p8"; "p9"]) as [_ H].
  rewrite H; [reflexivity | lia | discriminate].
Defined.

(** ** The shards, their sizes and their guard *)

Section ShardSizes.
Context {A : Type}.
Variable ids : list A.
Variable n : Z.
Hypothesis n_pos : 0 < n.

Lemma interval_length (a b : nat) :
  (a <= b)%nat -> (b <= List.length ids)%nat ->
  List.length (Spec.interval a b ids) = (b - a)%nat.
Proof.
  intros Hab Hb. unfold Spec.interval.
  rewrite length_firstn, length_skipn. lia.
Qed.

Lemma shard_length i :
  0 <= i < n ->
  len (Spec.interval (Z.to_nat (i * (len ids / n)))
         (Z.to_nat (if i =? n - 1 then len ids else (i + 1) * (len ids / n))) ids)
  = if i =? n - 1 then len ids / n + len ids mod n else len ids / n.
Proof.
  intros Hi. pose proof (len_nonneg ids) as Hlen.
  pose proof (Z.div_mod (len ids) n ltac:(lia)) as Hdm.
  pose proof (Z.mod_pos_bound (len ids) n n_pos) as Hr.
  assert (Hseg : 0 <= len ids / n) by (apply Z.div_pos; lia).
  unfold len at 1. destruct (Z.eqb_spec i (n - 1)) as [->|Hne].
  - rewrite interval_length; unfold len in *; nia.
  - rewrite interval_length; unfold len in *; nia.
Qed.

End ShardSizes.

(** X22. The sizes of the shards and the guard of [split_tags].  For a
    positive number of workers, every shard but the last holds
    [len // n] identifiers and the last holds the [len % n] left over as
    well, in [split_tags] as in [get_fraction]; so when there are fewer
    identifiers than workers, the last worker gets them all and the
    others none.  [split_tags] raises [AssertionError] when the worker's
    index is outside [0 .. n-1]; [get_fraction] has no such guard and
    raises [ZeroDivisionError] for [n = 0]. *)
Theorem shard_sizes :
  forall (A : Type) (ids : list A) (i n : Z),
    (0 < n -> 0 <= i < n ->
     exists shard,
       ScrapeNoRestart.split_tags i n ids = Ok shard /\
       Multiwindow.get_fraction ids i n = Ok shard /\
       len shard = (if i =? n - 1 then len ids / n + len ids mod n else len ids / n) /\
       (len ids < n -> shard = if i =? n - 1 then ids else [])) /\
    (i < 0 \/ n <= i -> ScrapeNoRestart.split_tags i n ids = Raise AssertionError) /\
    Multiwindow.get_fraction ids i 0 = Raise ZeroDivisionError.
Proof.
  intros A ids i n. split; [|split].
  - intros Hn Hi.
    pose proof (split_tags_shard ids n Hn i Hi) as Hsplit.
    pose proof (get_fraction_shard ids n Hn i Hi) as Hfraction.
    cbv zeta in Hsplit, Hfraction.
    eexists. split; [exact Hsplit|]. split; [exact Hfraction|].
    split; [now apply shard_length|].
    intros Hfew. pose proof (len_nonneg ids) as Hlen.
    assert (Hseg : len ids / n = 0) by (apply Z.div_small; lia).
    rewrite Hseg, Z.mul_0_r. unfold Spec.interval.
    destruct (Z.eqb_spec i (n - 1)).
    + unfold len. rewrite Nat2Z.id. cbn [Z.to_nat skipn].
      rewrite Nat.sub_0_r. apply firstn_all.
    + rewrite Z.mul_0_r. reflexivity.
  - intros Hout. unfold ScrapeNoRestart.split_tags.
    destruct (Z.leb_spec 0 i), (Z.ltb_spec i n); try lia; reflexivity.
  - reflexivity.
Qed.

(** The theorem on three identifiers and ten workers: the last worker
    gets all three, the first none. *)
Lemma shard_sizes_witness :
  ScrapeNoRestart.split_tags 9 10 ["a"; "b"; "c"] = Ok ["a"; "b"; "c"] /\
  ScrapeNoRestart.split_tags 0 10 ["a"; "b"; "c"] = Ok [].
Proof.
  split.
  - destruct (shard_sizes string ["a"; "b"; "c"] 9 10) as [H _].
    destruct H as (shard & Hsplit & _ & _ & Hfew); [lia | lia |].
    rewrite Hsplit, Hfew; [reflexivity | unfold len; simpl; lia].
  - destruct (shard_sizes string ["a"; "b"; "c"] 0 10) as [H _].
    destruct H as (shard & Hsplit & _ & _ & Hfew); [lia | lia |].
    rewrite Hsplit, Hfew; [reflexivity | unfold len; simpl; lia].
Defined.

(** ** A card without a usable time *)

Section BadTime.
Context {A : Type}.
Variable key : A -> result Z.


End BadTime.



(** ** player_worker: its rows and the error log *)

(** X24. What [player_worker] returns and what it logs.  For an empty
    list of players the worker returns no row and touches no page.
    Else, as long as the operations on its pages return, it returns the
    battles of its players in the order of the players, each battle
    carrying the id of the player it was scraped for; a player whose
    scrape raised contributes no battle and exactly one entry to the
    error log; the entries are appended to the log in the order of the
    players, and a worker without failure leaves the log alone.  When
    the making of its first page raises, the worker raises that
    exception: nothing is scraped and nothing is logged. *)
Theorem player_worker_rows_and_log :
  forall (players_per_page : Z) (page_ops : nat -> option exn)
         (players : list (string * result (list Multiwindow.battle)))
         (w : Multiwindow.world),
    Multiwindow.player_worker players_per_page page_ops [] w = (Ok [], w) /\
    ((forall k, page_ops k = None) ->
     exists w',
       Multiwindow.player_worker players_per_page page_ops players w
       = (Ok (List.concat (map Spec.battles_of players)), w') /\
       Multiwindow.error_log w'
       = match List.concat (map Spec.failure_of players) with
         | [] => Multiwindow.error_log w
         | failures =>
             Some (match Multiwindow.error_log w with Some old => old | None => [] end
                   ++ failures)%list
         end) /\
    (forall e,
       players <> [] ->
       page_ops 0%nat = Some e ->
       Multiwindow.player_worker players_per_page page_ops players w = (Raise e, w)).
Proof.
  intros players_per_page page_ops players w. split; [reflexivity|]. split.
  - intros Hops.
    destruct (player_worker_total players_per_page page_ops players w Hops)
      as (w' & H & Hlog).
    exists w'. split; [exact H | exact Hlog].
  - intros e Hne Hop. destruct players as [|p players]; [congruence|].
    now apply player_worker_first_page.
Qed.

(** The theorem on two players, the second of which cannot be scraped,
    with every page operation returning: the battle of the first, and
    one entry in the error log. *)
Lemma player_worker_rows_and_log_witness :
  exists w',
    Multiwindow.player_worker 10 (fun _ => None)
      [("P1", Ok [Multiwindow.Battle 0 None (Some "r1") None None None]);
       ("P2", Raise (RuntimeError "Timeout 30000ms exceeded"))]
      (Multiwindow.World None [])
    = (Ok [Multiwindow.Battle 0 None (Some "r1") None None (Some "P1")], w') /\
    Multiwindow.error_log w' = Some [("P2", RuntimeError "Timeout 30000ms exceeded")].
Proof.
  destruct (player_worker_rows_and_log 10 (fun _ => None)
              [("P1", Ok [Multiwindow.Battle 0 None (Some "r1") None None None]);
               ("P2", Raise (RuntimeError "Timeout 30000ms exceeded"))]
              (Multiwindow.World None [])) as (_ & H & _).
  destruct (H ltac:(reflexivity)) as (w' & H1 & H2).
  exists w'. split; [exact H1 | exact H2].
Defined.

(** ** build_player_dataset: requests and records *)

Section ClansLoop.
Import NotScrape.

Variable retries : Z.
Variables backoff pause : Q.

Lemma clan_step_bound idx total_clans clan_tag country records w records' w' :
  clan_step retries backoff pause idx total_clans clan_tag country (records, w)
  = Ok (records', w') ->
  (requests w' <= requests w + Z.to_nat retries)%nat /\
  (exists members, records' = (records ++ map (player_of clan_tag country) members)%list).
Proof.
  unfold clan_step.
  pose proof (attempts_bounded clan_tag retries backoff (Z.to_nat retries) 1 None
                (print (Fetching (idx + 1) total_clans clan_tag country) w)) as Hbound.
  fold (fetch_clan_members clan_tag retries backoff
          (print (Fetching (idx + 1) total_clans clan_tag country) w)) in Hbound.
  destruct (fetch_clan_members clan_tag retries backoff
              (print (Fetching (idx + 1) total_clans clan_tag country) w))
    as [[[members|e]|e] w1].
  - unfold sleep. destruct (time_sleep pause); [|discriminate].
    intros [= <- <-]. cbn [snd requests print] in *.
    split; [exact Hbound | now exists members].
  - discriminate.
  - unfold sleep. cbn [print remote requests slept debug stdout].
    destruct (time_sleep pause); [|discriminate].
    intros [= <- <-]. cbn [snd requests print] in *.
    split; [exact Hbound | exists []; now rewrite app_nil_r].
Qed.

Lemma clans_loop_bound : forall clans idx total_clans records w records' w',
  clans_loop retries backoff pause idx total_clans clans (records, w)
  = Ok (records', w') ->
  (requests w' <= requests w + Z.to_nat retries * List.length clans)%nat /\
  (exists more, records' = (records ++ more)%list).
Proof.
  induction clans as [|[clan_tag country] clans IH];
    intros idx total_clans records w records' w' H.
  - cbn [clans_loop] in H. injection H as <- <-.
    split; [simpl; lia | exists []; now rewrite app_nil_r].
  - cbn [clans_loop] in H.
    destruct (clan_step retries backoff pause idx total_clans clan_tag country
                (records, w)) as [[records1 w1]|e] eqn:Hstep; [|discriminate].
    cbn [bind] in H.
    destruct (clan_step_bound _ _ _ _ _ _ _ _ Hstep) as [H1 [members ->]].
    destruct (IH _ _ _ _ _ _ H) as [H2 [more ->]].
    split; [cbn [List.length]; lia|].
    eexists. now rewrite <- app_assoc.
Qed.

End ClansLoop.

(** X25. The clan loop of [build_player_dataset] within its budget.
    When the loop over the clans ends, it has made at most [retries]
    requests per clan, and the records it had are still there, in their
    order, in front of the new ones: no clan's failure removes a record
    collected before. *)
Theorem clans_loop_budget :
  forall (retries : Z) (backoff pause : Q) (idx total_clans : Z)
         (clans : list (string * string))
         (records records' : list NotScrape.player) (w w' : NotScrape.world),
    NotScrape.clans_loop retries backoff pause idx total_clans clans (records, w)
    = Ok (records', w') ->
    (NotScrape.requests w'
     <= NotScrape.requests w + Z.to_nat retries * List.length clans)%nat /\
    exists more, records' = (records ++ more)%list.
Proof.
  intros retries backoff pause idx total_clans clans records records' w w'.
  apply clans_loop_bound.
Qed.

(** The theorem on two clans and a source that never answers, under the
    default ceiling 3 and base 1.5: six requests, no record. *)
Lemma clans_loop_budget_witness :
  exists records' w',
    NotScrape.clans_loop 3 (3 # 2) (3 # 20) 0 2 [("#A", "Italy"); ("#B", "Italy")]
                         ([], Sample.offline)
    = Ok (records', w') /\
    (NotScrape.requests w' <= 0 + 3 * 2)%nat.
Proof.
  destruct (NotScrape.clans_loop 3 (3 # 2) (3 # 20) 0 2 [("#A", "Italy"); ("#B", "Italy")]
              ([], Sample.offline)) as [[records' w']|e] eqn:H;
    [|vm_compute in H; discriminate].
  exists records', w'. split; [reflexivity|].
  destruct (clans_loop_budget _ _ _ _ _ _ _ _ _ _ H) as [Hbound _].
  exact Hbound.
Defined.

(** ** combine_clan_csv_folder *)

Section Combine.
Import NotScrape.
Context {R : Type}.

Lemma read_all_spec : forall files : list (string * list R),
  read_all (Spec.readable files)
  = Ok (map (fun f => map (fun r => (r, Spec.before_first "_clans" (fst f))) (snd f))
            files).
Proof.
  induction files as [|[stem df] files IH]; [reflexivity|].
  cbn [Spec.readable map fst snd read_all bind]. unfold country_name.
  rewrite getitem_split_0. cbn [bind].
  fold (Spec.readable files). now rewrite IH.
Qed.

(** The first file [pd.read_csv] cannot read ends the loop over the
    files. *)
Lemma read_all_raises : forall (before : list (string * list R)) stem e after,
  read_all (Spec.readable before ++ (stem, Raise e) :: after)%list = Raise e.
Proof.
  induction before as [|[stem0 df] before IH]; intros stem e after; [reflexivity|].
  cbn [Spec.readable map fst snd app read_all bind]. unfold country_name.
  rewrite getitem_split_0. cbn [bind].
  fold (Spec.readable before). now rewrite IH.
Qed.

End Combine.

(** X26. [combine_clan_csv_folder] and the country of a file.  Without
    any file the function raises [ValueError].  When [pd.read_csv] reads
    every file, the combined frame holds the rows of the files, file
    after file, each row with the country of its file.  When it raises
    on a file, having read the files before it, the function raises
    that exception, and nothing is combined.  The country of a file is
    the part of the file's stem in front of the first [_clans]: the name
    in front of [_clans] for a stem that ends in it, and the whole stem
    when [_clans] does not occur in it. *)
Theorem combine_clan_csv_folder_countries :
  forall (R : Type) (files : list (string * list R)) (country rest : string),
    @NotScrape.combine_clan_csv_folder R []
    = Raise (ValueError (OtherValueError "No CSV files found in folder")) /\
    (files <> [] ->
     NotScrape.combine_clan_csv_folder (Spec.readable files)
     = Ok (List.concat
             (map (fun f => map (fun r => (r, Spec.before_first "_clans" (fst f))) (snd f))
                  files))) /\
    (forall stem e after,
       NotScrape.combine_clan_csv_folder
         (Spec.readable files ++ (stem, Raise e) :: after)%list
       = Raise e) /\
    (Spec.occurs "_clans" country = false ->
     NotScrape.country_name (country ++ "_clans" ++ rest) = Ok country /\
     NotScrape.country_name country = Ok country).
Proof.
  intros R files country rest. split; [reflexivity|]. split; [|split].
  - intros Hne. unfold NotScrape.combine_clan_csv_folder.
    rewrite read_all_spec. cbn [bind].
    destruct files as [|f files]; [congruence | reflexivity].
  - intros stem e after. unfold NotScrape.combine_clan_csv_folder.
    now rewrite read_all_raises.
  - intros Hocc. unfold NotScrape.country_name. rewrite !getitem_split_0.
    rewrite before_first_stem by (reflexivity || (simpl; lia) || assumption).
    now rewrite before_first_absent.
Qed.

(** The theorem on the files [Italy_clans.csv] and [France_clans.csv],
    both read. *)
Lemma combine_clan_csv_folder_countries_witness :
  NotScrape.combine_clan_csv_folder
    [("Italy_clans", Ok ["#A"; "#B"]); ("France_clans", Ok ["#C"])]
  = Ok [("#A", "Italy"); ("#B", "Italy"); ("#C", "France")].
Proof.
  destruct (combine_clan_csv_folder_countries string
              [("Italy_clans", ["#A"; "#B"]); ("France_clans", ["#C"])] "" "")
    as (_ & H & _).
  exact (H ltac:(discriminate)).
Defined.

(** ** build_battle_dataset: the result column *)

(** X27. The [result] column of a battle.  There is no result when the
    battle lists no team or no opponent.  When the player is the first
    member of the team and a second player the first member of the
    opponent, the result computed for the second player, with team and
    opponent exchanged, is the mirror image of the first player's: a win
    against a loss, a draw against a draw, none against none. *)
Theorem battle_result_mirrored :
  forall (player other : string) (t o : NotScrape.side)
         (team opponent : list NotScrape.side),
    NotScrape.battle_result player [] opponent = None /\
    NotScrape.battle_result player team [] = None /\
    (NotScrape.side_tag t = Some player ->
     NotScrape.side_tag o = Some other ->
     NotScrape.battle_result other (o :: opponent) (t :: team)
     = option_map Spec.mirrored (NotScrape.battle_result player (t :: team) (o :: opponent))).
Proof.
  intros player other t o team opponent. split; [reflexivity|]. split.
  - unfold NotScrape.battle_result.
    destruct (match NotScrape.first_with_tag player team, team with
              | None, t0 :: _ => Some t0
              | _, _ => NotScrape.first_with_tag player team
              end) as [ps|]; [|reflexivity].
    now destruct (NotScrape.crowns ps).
  - intros Ht Ho. unfold NotScrape.battle_result.
    cbn [NotScrape.first_with_tag]. rewrite Ht, Ho, !String.eqb_refl.
    destruct (NotScrape.crowns t) as [for_|], (NotScrape.crowns o) as [against|];
      try reflexivity.
    destruct (Z.ltb_spec against for_), (Z.ltb_spec for_ against); try reflexivity; lia.
Qed.

(** The theorem on a battle won three crowns to one. *)
Lemma battle_result_mirrored_witness :
  NotScrape.battle_result "#P"
    [NotScrape.Side (Some "#P") (Some 3)] [NotScrape.Side (Some "#Q") (Some 1)]
  = Some NotScrape.win /\
  NotScrape.battle_result "#Q"
    [NotScrape.Side (Some "#Q") (Some 1)] [NotScrape.Side (Some "#P") (Some 3)]
  = Some NotScrape.loss.
Proof.
  split; [reflexivity|].
  destruct (battle_result_mirrored "#P" "#Q"
              (NotScrape.Side (Some "#P") (Some 3)) (NotScrape.Side (Some "#Q") (Some 1))
              [] []) as (_ & _ & H).
  rewrite H; reflexivity.
Defined.
